(** * TelegramActionHub: the polling / dispatch core

    A shallow embedding of the Telegram transport, the connection state
    machine and the update dispatcher of the application, followed by the
    properties of the specification that concern them.

    Sources embedded here:
    - [src/api/telegramAPI.js]       (module [Api]: the transport with retry,
                                      reconnection and its own poll timer),
    - the earlier copy of that file  (module [Legacy]: no retry, no
                                      reconnection, no chat filter),
    - [App.js], "Telegram Monitor - Enhanced" (module [App]:
                                      [checkTelegramUpdates]),
    - the earlier monolithic [App.js] (module [LegacyApp]).

    Asynchronous methods are modelled in a small state / exception / trace
    monad.  Every [await] on the network is answered by an oracle
    ([network]) indexed by the number of HTTP attempts made so far, so a
    run of a method is a function of the object state and of the remote
    service's behaviour.  Where a property is about what happens while a
    request is still pending, the method is split at that [await]. *)

From Stdlib Require Import Ascii.
From stdpp Require Import gmap strings list pretty.

Open Scope Z_scope.

(** ** JavaScript string primitives used by the dispatcher *)

Module JS.

(** Truthiness of a value that is either [null]/[undefined] or a string:
    only a non-empty string is truthy. *)
Definition truthy (v : option string) : bool :=
  match v with
  | Some (String _ _) => true
  | _ => false
  end.

(** [s.startsWith(c)] for a one-character [c]. *)
Definition startsWith (c : Ascii.ascii) (s : string) : bool :=
  match s with
  | String a _ => Ascii.eqb a c
  | EmptyString => false
  end.

(** [s.substring(1)]. *)
Definition substring1 (s : string) : string :=
  match s with
  | String _ r => r
  | EmptyString => EmptyString
  end.

(** [s.includes(c)] for a one-character [c]. *)
Fixpoint includes (c : Ascii.ascii) (s : string) : bool :=
  match s with
  | EmptyString => false
  | String a r => Ascii.eqb a c || includes c r
  end.

(** [s.split(c)] for a one-character separator: every occurrence
    separates, and the result is never empty (splitting the empty string
    gives one empty string). *)
Fixpoint split (c : Ascii.ascii) (s : string) : list string :=
  match s with
  | EmptyString => [EmptyString]
  | String a r =>
      if Ascii.eqb a c then EmptyString :: split c r
      else match split c r with
           | h :: t => String a h :: t
           | [] => [String a EmptyString]
           end
  end.

(** [l.join(sep)]. *)
Fixpoint join (sep : string) (l : list string) : string :=
  match l with
  | [] => EmptyString
  | [x] => x
  | x :: r => x +:+ sep +:+ join sep r
  end.

(** A string of ASCII characters only. *)
Fixpoint isASCII (s : string) : bool :=
  match s with
  | EmptyString => true
  | String a r => (Ascii.nat_of_ascii a <? 128)%nat && isASCII r
  end.

(** [s.toLowerCase()] on the letters A to Z; every other byte is kept.
    JavaScript lowers every cased character, so this is the method on
    strings for which [isASCII] holds, and statements that mention it are
    to be read for such strings only. *)
Definition lower (a : Ascii.ascii) : Ascii.ascii :=
  let n := Ascii.nat_of_ascii a in
  if ((65 <=? n)%nat && (n <=? 90)%nat)%bool
  then Ascii.ascii_of_nat (n + 32) else a.

Fixpoint toLowerCase (s : string) : string :=
  match s with
  | EmptyString => EmptyString
  | String a r => String (lower a) (toLowerCase r)
  end.

(** The line feed of a ["\n"] escape. *)
Definition newline : string := String "010"%char EmptyString.

End JS.

(** ** Data exchanged with the remote service *)

(** [update.message]: the chat it was posted in and its text, if any. *)
Record Message := {
  chat_id : Z;
  text : option string;
}.

(** [update.callback_query]: acknowledgement id, button data and the chat
    of the message that carried the button ([message] is optional in the
    Bot API). *)
Record CallbackQuery := {
  cq_id : string;
  data : string;
  cq_message_chat_id : option Z;
}.

Record Update := {
  update_id : Z;
  message : option Message;
  callback_query : option CallbackQuery;
}.

(** [response.data.result] of [getMe]. *)
Record BotInfo := {
  bot_id : Z;
  username : string;
}.

(** The axios error of a failed exchange: [error.response?.status],
    [error.response?.data?.description] and [error.message]. *)
Record HttpError := {
  status : option Z;
  description : option string;
  err_message : string;
}.

Inductive reply (A : Type) : Type :=
| Resolved (body : A)
| Rejected (err : HttpError).
Arguments Resolved {A} body.
Arguments Rejected {A} err.

Inductive request : Type :=
| GetMe
| GetUpdates (offset : Z)
| AnswerCallbackQuery (callback_query_id : string)
| SendMessage (chat : option string) (body : string).

(** The remote service: what the [t]-th HTTP attempt of the session is
    answered with. *)
Record network := {
  serve_getMe : nat -> reply (option BotInfo);
  serve_getUpdates : nat -> Z -> reply (option (list Update));
  serve_post : nat -> request -> reply unit;
}.

(** ** Handlers, listeners and the observable trace *)

(** The four shapes in which the dispatcher calls a handler. *)
Inductive args : Type :=
| ArgsCallback (cq : CallbackQuery)
| ArgsCallbackParam (cq : CallbackQuery) (param : string)
| ArgsCommand (m : Message) (params : list string)
| ArgsMessage (m : Message).

(** A JavaScript completion: a value, a thrown error (its message), or a
    thrown [null] or [undefined], which has no message to read. *)
Inductive outcome (A : Type) : Type :=
| Ret (a : A)
| Throw (e : string)
| ThrowNullish.
Arguments Ret {A} a.
Arguments Throw {A} e.
Arguments ThrowNullish {A}.

(** A registered handler is opaque: the model records that it was invoked
    and whether it returned, threw an error or threw [null] or
    [undefined] (a promise rejected without a reason). *)
Abbreviation handler := (args -> outcome unit).

(** Connection listeners are identified by a number; calling one is an
    event of the trace. *)
Definition listener : Type := nat.

Inductive level : Type := Debug | Info | Success | Warning | Error.

Inductive event : Type :=
| Log (lv : level) (msg : string)
| Http (r : request)
| Sleep (ms : Z)
| Invoke (key : string) (a : args)
| Notify (l : listener) (st : bool)
| SetTimeout (ms : Z)
| ClearTimeout
| SetInterval (ms : Z)
| ClearInterval
| Floating (method : string)
| SetProcessing (b : bool)
| SetLastUpdateTime
| SetLastUpdateId (v : Z)
| Action (name : string).

(** The message of the [TypeError] raised by a property access on
    [null]/[undefined]; its wording depends on the engine. *)
Definition TypeError : string := "TypeError".

(** ** The effect monad: object state, attempt clock, exceptions, trace *)

Definition M (S A : Type) : Type :=
  S * nat -> outcome A * (S * nat) * list event.

Definition run {S A} (m : M S A) (s : S) (clock : nat)
  : outcome A * (S * nat) * list event := m (s, clock).

Definition result {S A} (r : outcome A * (S * nat) * list event) : outcome A :=
  r.1.1.
Definition final {S A} (r : outcome A * (S * nat) * list event) : S :=
  r.1.2.1.
Definition clock_of {S A} (r : outcome A * (S * nat) * list event) : nat :=
  r.1.2.2.
Definition trace {S A} (r : outcome A * (S * nat) * list event) : list event :=
  r.2.

Section Effects.
Context {S : Type}.

Definition ret {A} (a : A) : M S A := fun w => (Ret a, w, []).

Definition bind {A B} (m : M S A) (k : A -> M S B) : M S B :=
  fun w =>
    match m w with
    | (Ret a, w1, t1) =>
        match k a w1 with
        | (r, w2, t2) => (r, w2, t1 ++ t2)
        end
    | (Throw e, w1, t1) => (Throw e, w1, t1)
    | (ThrowNullish, w1, t1) => (ThrowNullish, w1, t1)
    end.

Definition throw {A} (e : string) : M S A := fun w => (Throw e, w, []).

(** [throw undefined], [throw null], a promise rejected without a reason *)
Definition throw_nullish {A} : M S A := fun w => (ThrowNullish, w, []).

(** [try { m } catch (error) { h error.message }].  Every [catch] block of
    the embedded code starts by reading [error.message], before it logs or
    does anything else: when the value caught is [null] or [undefined]
    that read raises a [TypeError], which leaves the [catch] block. *)
Definition try_catch {A} (m : M S A) (h : string -> M S A) : M S A :=
  fun w =>
    match m w with
    | (Ret a, w1, t1) => (Ret a, w1, t1)
    | (Throw e, w1, t1) =>
        match h e w1 with
        | (r, w2, t2) => (r, w2, t1 ++ t2)
        end
    | (ThrowNullish, w1, t1) => (Throw TypeError, w1, t1)
    end.

(** [try { m } finally { f }] *)
Definition try_finally {A} (m : M S A) (f : M S unit) : M S A :=
  fun w =>
    match m w with
    | (r, w1, t1) =>
        match f w1 with
        | (Ret _, w2, t2) => (r, w2, t1 ++ t2)
        | (Throw e, w2, t2) => (Throw e, w2, t1 ++ t2)
        | (ThrowNullish, w2, t2) => (ThrowNullish, w2, t1 ++ t2)
        end
    end.

Definition get : M S S := fun w => (Ret w.1, w, []).
Definition put (s : S) : M S unit := fun w => (Ret tt, (s, w.2), []).
Definition emit (e : event) : M S unit := fun w => (Ret tt, w, [e]).

(** The index of the next HTTP attempt; the clock advances by one. *)
Definition attempt_index : M S nat :=
  fun w => (Ret w.2, (w.1, Datatypes.S w.2), []).

End Effects.

#[global] Instance M_ret {S} : MRet (M S) := @ret S.
#[global] Instance M_bind {S} : MBind (M S) := fun A B k m => bind m k.

(** [for (const x of l) { await body x }] *)
Fixpoint forEach {S A} (body : A -> M S unit) (l : list A) : M S unit :=
  match l with
  | [] => mret tt
  | x :: r => body x;; forEach body r
  end.

(** The events of one kind in a trace. *)
Definition invocations (t : list event) : list (string * args) :=
  omap (fun e => match e with Invoke k a => Some (k, a) | _ => None end) t.
Definition requests (t : list event) : list request :=
  omap (fun e => match e with Http r => Some r | _ => None end) t.
Definition timeouts (t : list event) : list Z :=
  omap (fun e => match e with SetTimeout d => Some d | _ => None end) t.
Definition notifications (t : list event) : list (listener * bool) :=
  omap (fun e => match e with Notify l b => Some (l, b) | _ => None end) t.

(** ** [src/api/telegramAPI.js] *)

Module Api.

(** The fields set by the constructor.  The axios instance [api] is
    determined by the token it was created with; timer handles are
    represented by the delay (resp. period) they were armed with. *)
Record TelegramAPI := {
  api : option string;
  token : option string;
  chatId : option string;
  lastUpdateId : Z;
  connected : bool;
  connectionListeners : list listener;
  commandHandlers : gmap string handler;
  reconnectTimer : option Z;
  reconnectAttempts : Z;
  maxReconnectAttempts : Z;
  updatePollingInterval : option Z;
  isPolling : bool;
}.

Definition constructor : TelegramAPI := {|
  api := None;
  token := None;
  chatId := None;
  lastUpdateId := 0;
  connected := false;
  connectionListeners := [];
  commandHandlers := ∅;
  reconnectTimer := None;
  reconnectAttempts := 0;
  maxReconnectAttempts := 10;
  updatePollingInterval := None;
  isPolling := false;
|}.

(** Field assignments. *)
Definition set_credentials (tok chat api' : option string) (s : TelegramAPI) :=
  {| api := api'; token := tok; chatId := chat;
     lastUpdateId := lastUpdateId s; connected := connected s;
     connectionListeners := connectionListeners s;
     commandHandlers := commandHandlers s;
     reconnectTimer := reconnectTimer s;
     reconnectAttempts := reconnectAttempts s;
     maxReconnectAttempts := maxReconnectAttempts s;
     updatePollingInterval := updatePollingInterval s;
     isPolling := isPolling s |}.

Definition set_api (api' : option string) (s : TelegramAPI) :=
  set_credentials (token s) (chatId s) api' s.

Definition set_lastUpdateId (v : Z) (s : TelegramAPI) :=
  {| api := api s; token := token s; chatId := chatId s;
     lastUpdateId := v; connected := connected s;
     connectionListeners := connectionListeners s;
     commandHandlers := commandHandlers s;
     reconnectTimer := reconnectTimer s;
     reconnectAttempts := reconnectAttempts s;
     maxReconnectAttempts := maxReconnectAttempts s;
     updatePollingInterval := updatePollingInterval s;
     isPolling := isPolling s |}.

Definition set_connected (v : bool) (s : TelegramAPI) :=
  {| api := api s; token := token s; chatId := chatId s;
     lastUpdateId := lastUpdateId s; connected := v;
     connectionListeners := connectionListeners s;
     commandHandlers := commandHandlers s;
     reconnectTimer := reconnectTimer s;
     reconnectAttempts := reconnectAttempts s;
     maxReconnectAttempts := maxReconnectAttempts s;
     updatePollingInterval := updatePollingInterval s;
     isPolling := isPolling s |}.

Definition set_connectionListeners (v : list listener) (s : TelegramAPI) :=
  {| api := api s; token := token s; chatId := chatId s;
     lastUpdateId := lastUpdateId s; connected := connected s;
     connectionListeners := v;
     commandHandlers := commandHandlers s;
     reconnectTimer := reconnectTimer s;
     reconnectAttempts := reconnectAttempts s;
     maxReconnectAttempts := maxReconnectAttempts s;
     updatePollingInterval := updatePollingInterval s;
     isPolling := isPolling s |}.

Definition set_commandHandlers (v : gmap string handler) (s : TelegramAPI) :=
  {| api := api s; token := token s; chatId := chatId s;
     lastUpdateId := lastUpdateId s; connected := connected s;
     connectionListeners := connectionListeners s;
     commandHandlers := v;
     reconnectTimer := reconnectTimer s;
     reconnectAttempts := reconnectAttempts s;
     maxReconnectAttempts := maxReconnectAttempts s;
     updatePollingInterval := updatePollingInterval s;
     isPolling := isPolling s |}.

Definition set_reconnectTimer (v : option Z) (s : TelegramAPI) :=
  {| api := api s; token := token s; chatId := chatId s;
     lastUpdateId := lastUpdateId s; connected := connected s;
     connectionListeners := connectionListeners s;
     commandHandlers := commandHandlers s;
     reconnectTimer := v;
     reconnectAttempts := reconnectAttempts s;
     maxReconnectAttempts := maxReconnectAttempts s;
     updatePollingInterval := updatePollingInterval s;
     isPolling := isPolling s |}.

Definition set_reconnectAttempts (v : Z) (s : TelegramAPI) :=
  {| api := api s; token := token s; chatId := chatId s;
     lastUpdateId := lastUpdateId s; connected := connected s;
     connectionListeners := connectionListeners s;
     commandHandlers := commandHandlers s;
     reconnectTimer := reconnectTimer s;
     reconnectAttempts := v;
     maxReconnectAttempts := maxReconnectAttempts s;
     updatePollingInterval := updatePollingInterval s;
     isPolling := isPolling s |}.

Definition set_polling (interval : option Z) (polling : bool) (s : TelegramAPI) :=
  {| api := api s; token := token s; chatId := chatId s;
     lastUpdateId := lastUpdateId s; connected := connected s;
     connectionListeners := connectionListeners s;
     commandHandlers := commandHandlers s;
     reconnectTimer := reconnectTimer s;
     reconnectAttempts := reconnectAttempts s;
     maxReconnectAttempts := maxReconnectAttempts s;
     updatePollingInterval := interval;
     isPolling := polling |}.

(** [createTelegramAPI(token)]: [null] for a falsy token, otherwise an
    axios instance carrying the two interceptors below. *)
Definition createTelegramAPI (tok : option string) : option string :=
  if JS.truthy tok then tok else None.

(** [config.retry], set on every request by the request interceptor. *)
Definition retry : nat := 3.

(** [!status || status >= 500 || status === 429] *)
Definition retriable (st : option Z) : bool :=
  match st with
  | None => true
  | Some c => (c =? 0) || (500 <=? c) || (c =? 429)
  end.

(** [error.response?.data?.description || error.message] *)
Definition errorMessage (err : HttpError) : string :=
  if JS.truthy (description err) then default EmptyString (description err)
  else err_message err.

(** One request through the axios instance, response interceptor included
    (lines 26-61).  [_retryCount] is [config._retryCount]; [left] is
    [config.retry - config._retryCount], the number of times the test
    [config._retryCount < config.retry] still succeeds.  [config.retry] is
    always set, so the first branch of the interceptor is never taken. *)
Fixpoint exchange {A} (r : request) (serve : nat -> reply A)
    (left _retryCount : nat) : M TelegramAPI A :=
  t ← attempt_index;
  emit (Http r);;
  match serve t with
  | Resolved a => mret a
  | Rejected err =>
      if retriable (status err) then
        match left with
        | Datatypes.S left' =>
            let _retryCount := Datatypes.S _retryCount in
            let delay := 2 ^ Z.of_nat _retryCount * 1000 in
            emit (Log Warning ("Retrying Telegram API request ("
                               +:+ pretty _retryCount +:+ "/" +:+ pretty retry
                               +:+ ") after " +:+ pretty delay +:+ "ms"));;
            emit (Sleep delay);;
            exchange r serve left' _retryCount
        | O =>
            emit (Log Error ("Telegram API error after retries: "
                             +:+ errorMessage err));;
            throw (err_message err)
        end
      else
        emit (Log Error ("Telegram API error after retries: "
                         +:+ errorMessage err));;
        throw (err_message err)
  end.

(** [this.api.get(...)] / [this.api.post(...)]: a [TypeError] when
    [this.api] is [null]. *)
Definition send {A} (r : request) (serve : nat -> reply A) : M TelegramAPI A :=
  s ← get;
  match api s with
  | None => throw TypeError
  | Some _ => exchange r serve retry 0
  end.

Section Methods.
Variable net : network.

(** [setConnected(status)] (lines 209-218) *)
Definition setConnected (status : bool) : M TelegramAPI unit :=
  s ← get;
  let wasConnected := connected s in
  put (set_connected status s);;
  if negb (eqb wasConnected status) then
    emit (Log Info ("Telegram connection status: "
                    +:+ (if status then "Connected" else "Disconnected")));;
    forEach (fun l => emit (Notify l status)) (connectionListeners s)
  else mret tt.

(** [addConnectionListener(listener)] *)
Definition addConnectionListener (l : listener) : M TelegramAPI unit :=
  s ← get;
  put (set_connectionListeners (connectionListeners s ++ [l]) s);;
  emit (Notify l (connected s)).

(** [removeConnectionListener(listener)] *)
Definition removeConnectionListener (l : listener) : M TelegramAPI unit :=
  s ← get;
  put (set_connectionListeners
         (filter (fun l' => l' ≠ l) (connectionListeners s)) s).

(** [registerCommandHandler(command, handler)] *)
Definition registerCommandHandler (command : string) (h : handler)
  : M TelegramAPI unit :=
  s ← get;
  put (set_commandHandlers (<[command := h]> (commandHandlers s)) s);;
  emit (Log Debug ("Registered command handler: " +:+ command)).

(** [startUpdatePolling()] (lines 173-192): arms the 3000 ms interval whose
    callback is [interval_callback] below. *)
Definition startUpdatePolling : M TelegramAPI unit :=
  s ← get;
  if isPolling s then mret tt
  else
    put (set_polling (Some 3000) true s);;
    emit (SetInterval 3000).

(** [stopUpdatePolling()] (lines 197-203) *)
Definition stopUpdatePolling : M TelegramAPI unit :=
  s ← get;
  match updatePollingInterval s with
  | Some _ => emit ClearInterval;; put (set_polling None false s)
  | None => put (set_polling (updatePollingInterval s) false s)
  end.

(** [handleDisconnection()] (lines 139-168).  The callback handed to
    [setTimeout] is [reconnect_callback] below. *)
Definition handleDisconnection : M TelegramAPI unit :=
  setConnected false;;
  stopUpdatePolling;;
  s ← get;
  match reconnectTimer s with
  | Some _ => emit ClearTimeout
  | None => mret tt
  end;;
  if reconnectAttempts s <? maxReconnectAttempts s then
    let delay := Z.min 30000 (2 ^ reconnectAttempts s * 1000) in
    emit (Log Warning ("Telegram disconnected. Reconnecting in "
                       +:+ pretty (delay / 1000) +:+ "s (attempt "
                       +:+ pretty (reconnectAttempts s + 1) +:+ "/"
                       +:+ pretty (maxReconnectAttempts s) +:+ ")"));;
    put (set_reconnectTimer (Some delay) s);;
    emit (SetTimeout delay)
  else
    emit (Log Error ("Failed to reconnect to Telegram after "
                     +:+ pretty (maxReconnectAttempts s) +:+ " attempts")).

(** [testConnection()] (lines 119-134) *)
Definition testConnection : M TelegramAPI bool :=
  try_catch
    (botInfo ← send GetMe (serve_getMe net);
     match botInfo with
     | Some info =>
         if bot_id info =? 0 then mret false
         else
           emit (Log Success ("Connected to Telegram bot: " +:+ username info));;
           s ← get;
           put (set_reconnectAttempts 0 s);;
           mret true
     | None => mret false
     end)
    (fun e =>
       emit (Log Error ("Failed to connect to Telegram: " +:+ e));;
       handleDisconnection;;
       mret false).

(** The callback of the reconnect timer (lines 153-164), run when the
    timer fires. *)
Definition reconnect_callback : M TelegramAPI unit :=
  s ← get;
  put (set_reconnectAttempts (reconnectAttempts s + 1) s);;
  s ← get;
  if JS.truthy (token s) && JS.truthy (chatId s) then
    put (set_api (createTelegramAPI (token s)) s);;
    success ← testConnection;
    if success : bool then setConnected true;; startUpdatePolling
    else mret tt
  else mret tt.

(** [initialize(token, chatId)] (lines 99-114).  [testConnection()] is
    called without [await]: [initialize] returns [this.connected] as it
    is when the liveness request has just been started, and the check
    settles later (see [initialize_settled]). *)
Definition initialize (tok chat : option string) : M TelegramAPI bool :=
  s ← get;
  put (set_credentials tok chat (createTelegramAPI tok) s);;
  s ← get;
  (if match api s with Some _ => JS.truthy (chatId s) | None => false end then
     setConnected true;;
     startUpdatePolling;;
     emit (Floating "testConnection")
   else
     setConnected false);;
  s ← get;
  mret (connected s).

(** [initialize] followed by the settling of the liveness check it
    started. *)
Definition initialize_settled (tok chat : option string) : M TelegramAPI bool :=
  r ← initialize tok chat;
  s ← get;
  (if match api s with Some _ => JS.truthy (chatId s) | None => false end
   then testConnection;; mret tt else mret tt);;
  mret r.

(** [getUpdates()] (lines 256-282), split at its [await]: what runs before
    the request is sent ... *)
Definition getUpdates_request : M TelegramAPI (option Z) :=
  s ← get;
  if negb (connected s) then mret None
  else mret (Some (lastUpdateId s + 1)).

(** ... and what runs once the request has settled. *)
Definition getUpdates_settle (r : outcome (option (list Update)))
  : M TelegramAPI (list Update) :=
  match r with
  | Ret result =>
      let updates := default [] result in
      s ← get;
      match last updates with
      | Some u => put (set_lastUpdateId (update_id u) s)
      | None => mret tt
      end;;
      mret updates
  | Throw e =>
      emit (Log Error ("Failed to get updates: " +:+ e));;
      handleDisconnection;;
      mret []
  | ThrowNullish => throw TypeError
  end.

(** [await m], with the completion made explicit. *)
Definition settle {A} (m : M TelegramAPI A) : M TelegramAPI (outcome A) :=
  fun w => match m w with (r, w1, t1) => (Ret r, w1, t1) end.

Definition getUpdates : M TelegramAPI (list Update) :=
  o ← getUpdates_request;
  match o with
  | None => mret []
  | Some offset =>
      r ← settle (send (GetUpdates offset)
                       (fun t => serve_getUpdates net t offset));
      getUpdates_settle r
  end.

(** [sendMessage(text, options)] (lines 369-386) *)
Definition sendMessage (body : string) : M TelegramAPI bool :=
  s ← get;
  if negb (connected s) then mret false
  else
    try_catch
      (send (SendMessage (chatId s) body)
            (fun t => serve_post net t (SendMessage (chatId s) body));;
       mret true)
      (fun e =>
         emit (Log Error ("Failed to send message: " +:+ e));;
         mret false).

(** [await this.commandHandlers[key](...)] *)
Definition invoke (key : string) (h : handler) (a : args) : M TelegramAPI unit :=
  emit (Invoke key a);;
  match h a with
  | Ret _ => mret tt
  | Throw e => throw e
  | ThrowNullish => throw_nullish
  end.

(** [this.chatId.toString()] *)
Definition chatId_toString : M TelegramAPI string :=
  s ← get;
  match chatId s with
  | Some c => mret c
  | None => throw TypeError
  end.

(** Lines 292-295: [true] when the update is a message of another chat
    (the function returns there). *)
Definition unauthorized_message (update : Update) : M TelegramAPI bool :=
  match message update with
  | Some m =>
      c ← chatId_toString;
      if negb (String.eqb (pretty (chat_id m)) c) then
        emit (Log Warning ("Received message from unauthorized chat: "
                           +:+ pretty (chat_id m)));;
        mret true
      else mret false
  | None => mret false
  end.

(** Lines 297-300, the same for a callback query. *)
Definition unauthorized_callback (update : Update) : M TelegramAPI bool :=
  match callback_query update with
  | Some cq =>
      match cq_message_chat_id cq with
      | None => throw TypeError
      | Some chat =>
          c ← chatId_toString;
          if negb (String.eqb (pretty chat) c) then
            emit (Log Warning ("Received callback from unauthorized chat: "
                               +:+ pretty chat));;
            mret true
          else mret false
      end
  | None => mret false
  end.

(** Lines 303-325: callback queries (button presses). *)
Definition handle_callback (cq : CallbackQuery) : M TelegramAPI unit :=
  emit (Log Info ("Received callback query: " +:+ data cq));;
  send (AnswerCallbackQuery (cq_id cq))
       (fun t => serve_post net t (AnswerCallbackQuery (cq_id cq)));;
  s ← get;
  match commandHandlers s !! data cq with
  | Some h => invoke (data cq) h (ArgsCallback cq)
  | None =>
      if JS.includes "_"%char (data cq) then
        match JS.split "_"%char (data cq) with
        | command :: params =>
            match commandHandlers s !! command with
            | Some h =>
                invoke command h (ArgsCallbackParam cq (JS.join "_" params))
            | None =>
                emit (Log Warning ("No handler for parameterized command: "
                                   +:+ command))
            end
        | [] => mret tt
        end
      else
        emit (Log Warning ("No handler for command: " +:+ data cq));;
        sendMessage ("Command not implemented: " +:+ data cq);;
        mret tt
  end.

(** Lines 328-351: text messages. *)
Definition handle_message (m : Message) : M TelegramAPI unit :=
  match text m with
  | Some (String _ _ as txt) =>
      emit (Log Info ("Received message: " +:+ txt));;
      s ← get;
      if JS.startsWith "/"%char txt then
        let fullCommand := JS.substring1 txt in
        let parts := JS.split " "%char fullCommand in
        let command := JS.toLowerCase (default EmptyString (head parts)) in
        let params := tail parts in
        match commandHandlers s !! command with
        | Some h =>
            emit (Log Debug ("Executing command: " +:+ command
                             +:+ " with params: " +:+ JS.join ", " params));;
            invoke command h (ArgsCommand m params)
        | None =>
            emit (Log Warning ("Unknown command: " +:+ command));;
            sendMessage ("Unknown command: /" +:+ command
                         +:+ JS.newline
                         +:+ "Type /help for available commands.");;
            mret tt
        end
      else
        match commandHandlers s !! "message" with
        | Some h => invoke "message" h (ArgsMessage m)
        | None => mret tt
        end
  | _ => mret tt
  end.

(** Lines 352-360: the [catch] block of [processUpdate], entered with the
    message of the error caught.  When the value caught has no message
    ([null], [undefined]) the block is left by the [TypeError] of its
    first line: that case is in [try_catch]. *)
Definition report_error (e : string) : M TelegramAPI unit :=
  emit (Log Error ("Error processing update: " +:+ e));;
  try_catch
    (sendMessage ("Error processing command: " +:+ e);; mret tt)
    (fun e' => emit (Log Error ("Failed to send error message: " +:+ e'))).

(** Lines 290-351: the [try] block of [processUpdate]. *)
Definition try_block (update : Update) : M TelegramAPI unit :=
  stop ← unauthorized_message update;
  if stop : bool then mret tt
  else
    stop ← unauthorized_callback update;
    if stop : bool then mret tt
    else
      match callback_query update with
      | Some cq => handle_callback cq
      | None => mret tt
      end;;
      match message update with
      | Some m => handle_message m
      | None => mret tt
      end.

(** [processUpdate(update)] (lines 288-361) *)
Definition processUpdate (update : Update) : M TelegramAPI unit :=
  try_catch (try_block update) report_error.

(** The callback of the polling interval (lines 177-191), split at the
    [await] of [getUpdates]: the part that runs when the timer fires ... *)
Definition interval_fire : M TelegramAPI (option Z) :=
  s ← get;
  if connected s then getUpdates_request else mret None.

(** ... and the part that runs when the request it started has settled. *)
Definition interval_resume (r : outcome (option (list Update)))
  : M TelegramAPI unit :=
  try_catch
    (updates ← getUpdates_settle r;
     forEach processUpdate updates)
    (fun e => emit (Log Error ("Error in update polling: " +:+ e))).

(** One firing of the interval, run to completion with nothing else
    interleaved. *)
Definition interval_callback : M TelegramAPI unit :=
  s ← get;
  if connected s then
    try_catch
      (updates ← getUpdates;
       forEach processUpdate updates)
      (fun e => emit (Log Error ("Error in update polling: " +:+ e)))
  else mret tt.

End Methods.

End Api.

(** ** The earlier copy of [telegramAPI.js]

    The same class without retry, reconnection, poll timer and chat
    filter. *)

Module Legacy.

Record TelegramAPI := {
  api : option string;
  token : option string;
  chatId : option string;
  lastUpdateId : Z;
  connected : bool;
  connectionListeners : list listener;
  commandHandlers : gmap string handler;
}.

Definition constructor : TelegramAPI := {|
  api := None;
  token := None;
  chatId := None;
  lastUpdateId := 0;
  connected := false;
  connectionListeners := [];
  commandHandlers := ∅;
|}.

Definition set_credentials (tok chat api' : option string) (s : TelegramAPI) :=
  {| api := api'; token := tok; chatId := chat;
     lastUpdateId := lastUpdateId s; connected := connected s;
     connectionListeners := connectionListeners s;
     commandHandlers := commandHandlers s |}.

Definition set_lastUpdateId (v : Z) (s : TelegramAPI) :=
  {| api := api s; token := token s; chatId := chatId s;
     lastUpdateId := v; connected := connected s;
     connectionListeners := connectionListeners s;
     commandHandlers := commandHandlers s |}.

Definition set_connected (v : bool) (s : TelegramAPI) :=
  {| api := api s; token := token s; chatId := chatId s;
     lastUpdateId := lastUpdateId s; connected := v;
     connectionListeners := connectionListeners s;
     commandHandlers := commandHandlers s |}.

Definition set_connectionListeners (v : list listener) (s : TelegramAPI) :=
  {| api := api s; token := token s; chatId := chatId s;
     lastUpdateId := lastUpdateId s; connected := connected s;
     connectionListeners := v;
     commandHandlers := commandHandlers s |}.

Definition set_commandHandlers (v : gmap string handler) (s : TelegramAPI) :=
  {| api := api s; token := token s; chatId := chatId s;
     lastUpdateId := lastUpdateId s; connected := connected s;
     connectionListeners := connectionListeners s;
     commandHandlers := v |}.

Definition createTelegramAPI (tok : option string) : option string :=
  if JS.truthy tok then tok else None.

(** One request through the axios instance; its response interceptor
    (lines 26-33) logs and rejects. *)
Definition send {A} (r : request) (serve : nat -> reply A) : M TelegramAPI A :=
  s ← get;
  match api s with
  | None => throw TypeError
  | Some _ =>
      t ← attempt_index;
      emit (Http r);;
      match serve t with
      | Resolved a => mret a
      | Rejected err =>
          emit (Log Error ("Telegram API error: " +:+ Api.errorMessage err));;
          throw (err_message err)
      end
  end.

Section Methods.
Variable net : network.

(** [setConnected(status)] (lines 75-78) *)
Definition setConnected (status : bool) : M TelegramAPI unit :=
  s ← get;
  put (set_connected status s);;
  forEach (fun l => emit (Notify l status)) (connectionListeners s).

(** [initialize(token, chatId)] (lines 57-69) *)
Definition initialize (tok chat : option string) : M TelegramAPI bool :=
  s ← get;
  put (set_credentials tok chat (createTelegramAPI tok) s);;
  s ← get;
  (if match api s with Some _ => JS.truthy (chatId s) | None => false end
   then setConnected true else setConnected false);;
  s ← get;
  mret (connected s).

Definition addConnectionListener (l : listener) : M TelegramAPI unit :=
  s ← get;
  put (set_connectionListeners (connectionListeners s ++ [l]) s).

Definition removeConnectionListener (l : listener) : M TelegramAPI unit :=
  s ← get;
  put (set_connectionListeners
         (filter (fun l' => l' ≠ l) (connectionListeners s)) s).

Definition registerCommandHandler (command : string) (h : handler)
  : M TelegramAPI unit :=
  s ← get;
  put (set_commandHandlers (<[command := h]> (commandHandlers s)) s).

(** [getUpdates()] (lines 113-138) *)
Definition getUpdates : M TelegramAPI (list Update) :=
  s ← get;
  if negb (connected s) then mret []
  else
    try_catch
      (result ← send (GetUpdates (lastUpdateId s + 1))
                     (fun t => serve_getUpdates net t (lastUpdateId s + 1));
       let updates := default [] result in
       s ← get;
       match last updates with
       | Some u => put (set_lastUpdateId (update_id u) s)
       | None => mret tt
       end;;
       mret updates)
      (fun e =>
         emit (Log Error ("Failed to get updates: " +:+ e));;
         setConnected false;;
         mret []).

Definition invoke (key : string) (h : handler) (a : args) : M TelegramAPI unit :=
  emit (Invoke key a);;
  match h a with
  | Ret _ => mret tt
  | Throw e => throw e
  | ThrowNullish => throw_nullish
  end.

(** [processUpdate(update)] (lines 144-177) *)
Definition processUpdate (update : Update) : M TelegramAPI unit :=
  try_catch
    (match callback_query update with
     | Some cq =>
         send (AnswerCallbackQuery (cq_id cq))
              (fun t => serve_post net t (AnswerCallbackQuery (cq_id cq)));;
         s ← get;
         match commandHandlers s !! data cq with
         | Some h => invoke (data cq) h (ArgsCallback cq)
         | None =>
             if JS.includes "_"%char (data cq) then
               match JS.split "_"%char (data cq) with
               | command :: params =>
                   match commandHandlers s !! command with
                   | Some h =>
                       invoke command h
                              (ArgsCallbackParam cq (JS.join "_" params))
                   | None => mret tt
                   end
               | [] => mret tt
               end
             else emit (Log Warning ("No handler for command: " +:+ data cq))
         end
     | None => mret tt
     end;;
     match message update with
     | Some m =>
         match text m with
         | Some (String _ _ as txt) =>
             if JS.startsWith "/"%char txt then
               let command :=
                 JS.substring1
                   (default EmptyString (head (JS.split " "%char txt))) in
               s ← get;
               match commandHandlers s !! command with
               | Some h => invoke command h (ArgsMessage m)
               | None => mret tt
               end
             else mret tt
         | _ => mret tt
         end
     | None => mret tt
     end)
    (fun e => emit (Log Error ("Error processing update: " +:+ e))).

End Methods.

End Legacy.

(** ** [App.js], "Telegram Monitor - Enhanced" *)

Module App.

Section Component.
Variable net : network.

(** [checkTelegramUpdates] (lines 227-248), the callback of the
    application's own 3000 ms interval.  It is a [useCallback] closure:
    [processing] and [isConnected] are the hook values of the render that
    created it, and they are what it reads whenever it runs
    ([startMonitoring] below gives the closure the interval runs).
    [setProcessing] and [setLastUpdateTime] change what later renders
    read; they are events of the trace. *)
Definition checkTelegramUpdates (processing isConnected : bool)
  : M Api.TelegramAPI unit :=
  if processing || negb isConnected then mret tt
  else
    try_finally
      (try_catch
         (emit (SetProcessing true);;
          updates ← Api.getUpdates net;
          if (0 <? length updates)%nat then
            emit SetLastUpdateTime;;
            emit (Log Info ("Received " +:+ pretty (length updates)
                            +:+ " updates from Telegram"));;
            forEach (Api.processUpdate net) updates
          else mret tt)
         (fun e => emit (Log Error ("Update error: " +:+ e))))
      (emit (SetProcessing false)).

(** [startMonitoring] (lines 183-204) hands [checkTelegramUpdates] to
    [setInterval] when the [isConnected] it reads is true.  Both are
    [useCallback] closures of one render, and [setInterval] keeps the
    function it was given: every firing of the interval runs the callback
    of the render that armed it, with that render's [processing] and
    [isConnected], whatever [setProcessing] has been called with since.
    [None]: no interval is armed. *)
Definition startMonitoring (processing isConnected : bool)
  : option (M Api.TelegramAPI unit) :=
  if isConnected then Some (checkTelegramUpdates processing isConnected)
  else None.

End Component.

End App.

(** ** The earlier monolithic [App.js]

    It talks to the service with plain [axios] calls (no interceptor) and
    keeps the cursor in a hook. *)

Module LegacyApp.

Section Component.
Variable net : network.

(** A plain [axios] exchange. *)
Definition axios {A} (r : request) (serve : nat -> reply A) : M unit A :=
  t ← attempt_index;
  emit (Http r);;
  match serve t with
  | Resolved a => mret a
  | Rejected err => throw (err_message err)
  end.

(** [handleUpdate(update)] (lines 200-232); the device actions it starts
    are events of the trace. *)
Definition handleUpdate (update : Update) : M unit unit :=
  match callback_query update with
  | None => mret tt
  | Some cq =>
      try_catch
        (axios (AnswerCallbackQuery (cq_id cq))
               (fun t => serve_post net t (AnswerCallbackQuery (cq_id cq)));;
         emit (Log Info ("Received command: " +:+ data cq));;
         if String.eqb (data cq) "call_logs" then emit (Action "getCallLogs")
         else if String.eqb (data cq) "sms_logs" then emit (Action "getSmsLogs")
         else if String.eqb (data cq) "contacts" then emit (Action "getContacts")
         else if String.eqb (data cq) "storage" then emit (Action "listFiles")
         else
           (if String.prefix "file_" (data cq)
            then emit (Action "handleFileSelection") else mret tt);;
           (if String.eqb (data cq) "back"
            then emit (Action "navigateBack") else mret tt))
        (fun e => emit (Log Error ("Update handling error: " +:+ e)))
  end.

(** [checkTelegramUpdates] (lines 178-198), a function of the component
    body: [processing], [isConnected] and [lastUpdateId] are the hook
    values of the render that created it, and they are what it reads
    whenever it runs ([effect] below gives the function the interval
    runs).  [setProcessing] and [setLastUpdateId] change what later
    renders read; they are events of the trace. *)
Definition checkTelegramUpdates (processing isConnected : bool)
    (lastUpdateId : Z) : M unit unit :=
  if processing || negb isConnected then mret tt
  else
    try_finally
      (try_catch
         (emit (SetProcessing true);;
          result ← axios (GetUpdates (lastUpdateId + 1))
                         (fun t => serve_getUpdates net t (lastUpdateId + 1));
          match result with
          | None => throw TypeError
          | Some updates =>
              match last updates with
              | Some u =>
                  emit (SetLastUpdateId (update_id u));;
                  forEach handleUpdate updates
              | None => mret tt
              end
          end)
         (fun e => emit (Log Error ("Update error: " +:+ e))))
      (emit (SetProcessing false)).

(** The effect of lines 31-59, which depends on [isConnected] alone: when
    [isConnected] is true it hands [checkTelegramUpdates] to [setInterval].
    [checkTelegramUpdates] is a function of the component body, so the
    interval keeps firing the function of the render in which the effect
    ran, which reads that render's [processing], [isConnected] and
    [lastUpdateId]: [setProcessing] and [setLastUpdateId] change what later
    renders read, not what this function reads.  [None]: no interval is
    armed. *)
Definition effect (processing isConnected : bool) (lastUpdateId : Z)
  : option (M unit unit) :=
  if isConnected
  then Some (checkTelegramUpdates processing isConnected lastUpdateId)
  else None.

End Component.

End LegacyApp.

(** ** The handlers [App.js] registers

    The effect of lines 166-180 of "Telegram Monitor - Enhanced": the only
    calls of [registerCommandHandler] in the repository.  The eight
    handlers are parameters. *)

Module AppHandlers.

Definition registerHandlers
    (handleCallLogs handleSmsLogs handleContacts handleStorage
     handleDeviceInfo handleScreenshot handleFile handleNavigateBack : handler)
  : M Api.TelegramAPI unit :=
  Api.registerCommandHandler "call_logs" handleCallLogs;;
  Api.registerCommandHandler "sms_logs" handleSmsLogs;;
  Api.registerCommandHandler "contacts" handleContacts;;
  Api.registerCommandHandler "storage" handleStorage;;
  Api.registerCommandHandler "device_info" handleDeviceInfo;;
  Api.registerCommandHandler "screenshot" handleScreenshot;;
  Api.registerCommandHandler "file" handleFile;;
  Api.registerCommandHandler "back" handleNavigateBack.

End AppHandlers.

(** ** The buttons the code sends

    The [callback_data] of the two inline keyboards: the menu of
    [TelegramAPI.sendDeviceInfo] (lines 452-461 of
    [src/api/telegramAPI.js]) and the file list of [handleStorage] (lines
    397-412 of "Telegram Monitor - Enhanced"), built from the paths of the
    files listed. *)

Module Keyboards.

Definition sendDeviceInfo : list string :=
  ["call_logs"; "sms_logs"; "contacts"; "storage"; "device_info"; "screenshot"].

Definition handleStorage (paths : list string) : list string :=
  map (fun path => "file_" +:+ path) (take 10 paths) ++ ["back"; "storage"].

End Keyboards.

(** ** [src/utils/logger.js]

    The logger every module above writes to: a bounded list of entries,
    newest first, and a list of subscribers called with the list after
    each change. *)

Module Logger.

(** A [Date], by the two observations the logger makes of it. *)
Record Date := {
  getTime : Z;
  toLocaleTimeString : string;
}.

Record LogLevel := {
  color : string;
  label : string;
}.

(** [LOG_LEVELS] *)
Definition LOG_LEVELS : gmap string LogLevel :=
  <["DEBUG" := {| color := "#aaa"; label := "DEBUG" |}]>
  (<["INFO" := {| color := "#0f0"; label := "INFO" |}]>
  (<["SUCCESS" := {| color := "#0ff"; label := "SUCCESS" |}]>
  (<["WARNING" := {| color := "#ff0"; label := "WARNING" |}]>
  (<["ERROR" := {| color := "#f00"; label := "ERROR" |}]> ∅)))).

(** [LOG_LEVELS.INFO] *)
Definition INFO : LogLevel := {| color := "#0f0"; label := "INFO" |}.

Definition MAX_LOGS : nat := 200.

Record LogEntry := {
  id : Z;
  timestamp : Date;
  text : string;
  level : string;
  entry_color : string;
  formattedTime : string;
}.

(** The fields set by the constructor; subscribers are identified by a
    number, as connection listeners are. *)
Record Logger := {
  logs : list LogEntry;
  subscribers : list listener;
}.

Definition constructor : Logger := {| logs := []; subscribers := [] |}.

(** What a call lets the outside see: a subscriber called with the list
    of entries, a line on the console. *)
Inductive output : Type :=
| Callback (subscriber : listener) (entries : list LogEntry)
| Console (line : string).

(** [s.toUpperCase()] on the letters a to z; every other byte is kept.
    JavaScript raises every cased character (U+017F and U+0131 become S
    and I), so this is the method on ASCII strings only; the level names
    the repository passes to [log] are ASCII. *)
Definition upper (a : ascii) : ascii :=
  let n := Ascii.nat_of_ascii a in
  if ((97 <=? n)%nat && (n <=? 122)%nat)%bool
  then Ascii.ascii_of_nat (n - 32) else a.

Fixpoint toUpperCase (s : string) : string :=
  match s with
  | EmptyString => EmptyString
  | String a r => String (upper a) (toUpperCase r)
  end.

(** [log(message, level)] (lines 30-57), at the time [now]: the new
    logger, the entry returned and what the call lets the outside see. *)
Definition log (message lv : string) (now : Date) (s : Logger)
  : Logger * LogEntry * list output :=
  let logLevel := default INFO (LOG_LEVELS !! toUpperCase lv) in
  let logEntry :=
    {| id := getTime now;
       timestamp := now;
       text := message;
       level := label logLevel;
       entry_color := color logLevel;
       formattedTime := toLocaleTimeString now |} in
  let unshifted := logEntry :: logs s in
  let kept :=
    if (MAX_LOGS <? length unshifted)%nat then take MAX_LOGS unshifted
    else unshifted in
  ({| logs := kept; subscribers := subscribers s |},
   logEntry,
   map (fun callback => Callback callback kept) (subscribers s)
   ++ [Console ("[" +:+ label logLevel +:+ "] " +:+ message)]).

(** [getLogs()] *)
Definition getLogs (s : Logger) : list LogEntry := logs s.

(** [subscribe(callback)] *)
Definition subscribe (callback : listener) (s : Logger) : Logger :=
  {| logs := logs s; subscribers := subscribers s ++ [callback] |}.

(** [unsubscribe(callback)] *)
Definition unsubscribe (callback : listener) (s : Logger) : Logger :=
  {| logs := logs s;
     subscribers := filter (fun sub => sub ≠ callback) (subscribers s) |}.

(** [debug], [info], [success], [warning], [error] *)
Definition debug (message : string) := log message "DEBUG".
Definition info (message : string) := log message "INFO".
Definition success (message : string) := log message "SUCCESS".
Definition warning (message : string) := log message "WARNING".
Definition error (message : string) := log message "ERROR".

(** [clear()] *)
Definition clear (s : Logger) : Logger * list output :=
  ({| logs := []; subscribers := subscribers s |},
   map (fun callback => Callback callback []) (subscribers s)).

End Logger.

(** ** The status bar: [formatLastUpdate] *)

Module StatusBar.

(** [formatLastUpdate()] (lines 492-511 of the component): [lastUpdateTime]
    and [now] are times in milliseconds, [localeTime] is what
    [lastUpdateTime.toLocaleTimeString()] returns. *)
Definition formatLastUpdate (lastUpdateTime : option Z) (now : Z)
    (localeTime : string) : string :=
  match lastUpdateTime with
  | None => "Never"
  | Some t =>
      let diff := now - t in
      if diff <? 60000 then "Just now"
      else if diff <? 3600000 then
        let minutes := diff / 60000 in
        pretty minutes +:+ "m ago"
      else localeTime
  end.

End StatusBar.

(** * Scenarios

    Concrete objects, services and updates on which the properties below
    are evaluated. *)

(** A run preceded by the events [t]. *)
Definition prepend {S A} (t : list event)
    (x : outcome A * (S * nat) * list event) : outcome A * (S * nat) * list event :=
  (x.1, t ++ x.2).

(** The earlier copy, connected, with one listener subscribed. *)
Definition legacy_connected : Legacy.TelegramAPI :=
  Legacy.set_connectionListeners [0%nat]
    (Legacy.set_connected true
       (Legacy.set_credentials (Some "token") (Some "42") (Some "token")
          Legacy.constructor)).

(** A handler that returns, and one that throws. *)
Definition returns : handler := fun _ => Ret tt.
Definition throws (e : string) : handler := fun _ => Throw e.

(** A service on which every exchange succeeds and no update is pending. *)
Definition quiet : network := {|
  serve_getMe := fun _ => Resolved (Some {| bot_id := 7; username := "bot" |});
  serve_getUpdates := fun _ _ => Resolved (Some []);
  serve_post := fun _ _ => Resolved tt;
|}.

(** The earlier copy configured for chat 42, with the [storage] handler
    of the application registered. *)
Definition legacy_with_storage : Legacy.TelegramAPI :=
  Legacy.set_commandHandlers (<["storage" := returns]> ∅)
    (Legacy.set_connected true
       (Legacy.set_credentials (Some "token") (Some "42") (Some "token")
          Legacy.constructor)).

(** A button press that comes from chat 999. *)
Definition foreign_callback : Update := {|
  update_id := 5;
  message := None;
  callback_query :=
    Some {| cq_id := "q1"; data := "storage"; cq_message_chat_id := Some 999 |};
|}.

(** An update is addressed elsewhere when it carries a chat id whose
    decimal form is not the configured chat id. *)
Definition addressed_elsewhere (cid : string) (u : Update) : Prop :=
  (exists m, message u = Some m /\ pretty (chat_id m) <> cid) \/
  (exists cq chat, callback_query u = Some cq /\
                   cq_message_chat_id cq = Some chat /\ pretty chat <> cid).

(** A computation that leaves the object as it found it. *)
Definition preserves {S A} (m : M S A) : Prop :=
  forall s c, final (m (s, c)) = s.

(** A computation that always returns. *)
Definition returns_normally {S A} (m : M S A) : Prop :=
  forall w, exists a, result (m w) = Ret a.

(** A computation that, when it throws, throws an error: never [null] or
    [undefined]. *)
Definition throws_errors {S A} (m : M S A) : Prop :=
  forall w, result (m w) <> ThrowNullish.

(** Every registered handler, when it throws, throws an error: none throws
    [null] or [undefined]. *)
Definition handlers_throw_errors (s : Api.TelegramAPI) : Prop :=
  forall key h a, Api.commandHandlers s !! key = Some h -> h a <> ThrowNullish.

(** The events a transport exchange can leave in the trace. *)
Definition transport_event (e : event) : Prop :=
  match e with
  | Http _ | Log _ _ | Sleep _ => True
  | _ => False
  end.

(** ** Callback routing as the specification words it

    "Resolve handler by exact key match first, then by splitting on the
    first [_] into [command_param] form." *)

(** [s] cut at the first occurrence of [c]: what precedes it and what
    follows it (later occurrences stay in the remainder). *)
Fixpoint split_first (c : ascii) (s : string) : option (string * string) :=
  match s with
  | EmptyString => None
  | String a r =>
      if Ascii.eqb a c then Some (EmptyString, r)
      else match split_first c r with
           | Some (h, t) => Some (String a h, t)
           | None => None
           end
  end.

(** The handler calls the specification expects for a callback query. *)
Definition route (handlers : gmap string handler) (cq : CallbackQuery)
  : list (string * args) :=
  match handlers !! data cq with
  | Some _ => [(data cq, ArgsCallback cq)]
  | None =>
      match split_first "_" (data cq) with
      | Some (command, param) =>
          match handlers !! command with
          | Some _ => [(command, ArgsCallbackParam cq param)]
          | None => []
          end
      | None => []
      end
  end.

(** The object of [src/api/telegramAPI.js] configured for chat 42 and
    connected, with the [file] and [storage] handlers registered. *)
Definition api_configured : Api.TelegramAPI :=
  Api.set_commandHandlers (<["file" := returns]> (<["storage" := returns]> ∅))
    (Api.set_polling (Some 3000) true
       (Api.set_connected true
          (Api.set_credentials (Some "token") (Some "42") (Some "token")
             Api.constructor))).

(** The same registry on the earlier copy. *)
Definition legacy_configured : Legacy.TelegramAPI :=
  Legacy.set_commandHandlers
    (<["file" := returns]> (<["storage" := returns]> ∅))
    (Legacy.set_connected true
       (Legacy.set_credentials (Some "token") (Some "42") (Some "token")
          Legacy.constructor)).

(** The button press [file_42] from the configured chat. *)
Definition file_42_query : CallbackQuery :=
  {| cq_id := "q7"; data := "file_42"; cq_message_chat_id := Some 42 |}.

Definition file_42 : Update :=
  {| update_id := 7; message := None; callback_query := Some file_42_query |}.

(** The attempt clock once the updates [l] have been processed. *)
Definition after_batch (net : network) (l : list Update)
    (s : Api.TelegramAPI) (c : nat) : nat :=
  clock_of (forEach (Api.processUpdate net) l (s, c)).

(** The configured object with a [storage] handler that throws. *)
Definition api_storage_fails : Api.TelegramAPI :=
  Api.set_commandHandlers
    (<["file" := returns]> (<["storage" := throws "disk unreadable"]> ∅))
    api_configured.

(** The button press [storage] from the configured chat. *)
Definition storage_query : CallbackQuery :=
  {| cq_id := "q6"; data := "storage"; cq_message_chat_id := Some 42 |}.

Definition storage_press : Update :=
  {| update_id := 6; message := None; callback_query := Some storage_query |}.

(** ** The cursor as the specification words it *)

(** The largest [update_id] of a batch. *)
Definition max_id (l : list Update) : option Z :=
  match l with
  | [] => None
  | u :: r => Some (foldl (fun acc v => Z.max acc (update_id v)) (update_id u) r)
  end.

(** "Updates arrive in ascending order". *)
Fixpoint ascending (l : list Z) : bool :=
  match l with
  | a :: (b :: _) as r => (a <=? b) && ascending r
  | _ => true
  end.

(** The traces of the updates of a batch, each processed from the clock
    at which the previous one finished. *)
Fixpoint dispatch_traces (net : network) (s : Api.TelegramAPI) (c : nat)
    (l : list Update) : list (list event) :=
  match l with
  | [] => []
  | u :: r =>
      trace (Api.processUpdate net u (s, c))
      :: dispatch_traces net s (clock_of (Api.processUpdate net u (s, c))) r
  end.

(** The request a poll sends from the object [s] at clock [c], run through
    the transport. *)
Definition poll_request (net : network) (s : Api.TelegramAPI) (c : nat)
  : outcome (option (list Update)) * (Api.TelegramAPI * nat) * list event :=
  Api.send (GetUpdates (Api.lastUpdateId s + 1))
    (fun t => serve_getUpdates net t (Api.lastUpdateId s + 1)) (s, c).

(** A service that has the button press [file_42] pending. *)
Definition one_pending : network := {|
  serve_getMe := fun _ => Resolved (Some {| bot_id := 7; username := "bot" |});
  serve_getUpdates := fun _ _ => Resolved (Some [file_42]);
  serve_post := fun _ _ => Resolved tt;
|}.


(** The text message [hello] from the configured chat. *)
Definition hello_message : Message := {| chat_id := 42; text := Some "hello" |}.

Definition hello : Update :=
  {| update_id := 8; message := Some hello_message; callback_query := None |}.

(** ** Reconnection *)

(** The delay before reconnect attempt number [n], counting from 1 as the
    log line of [handleDisconnection] does. *)
Definition reconnect_delay (n : Z) : Z := Z.min 30000 (1000 * 2 ^ (n - 1)).

(** The object as [handleDisconnection] leaves it. *)
Definition disconnected (s : Api.TelegramAPI) : Api.TelegramAPI :=
  let s1 := Api.set_polling None false (Api.set_connected false s) in
  if Api.reconnectAttempts s <? Api.maxReconnectAttempts s then
    Api.set_reconnectTimer
      (Some (Z.min 30000 (2 ^ Api.reconnectAttempts s * 1000))) s1
  else s1.

(** A connection loss followed by [k] firings of the reconnect timer. *)
Fixpoint failed_reconnects (net : network) (k : nat) : M Api.TelegramAPI unit :=
  match k with
  | O => Api.handleDisconnection
  | Datatypes.S k' => failed_reconnects net k';; Api.reconnect_callback net
  end.

(** A service that cannot be reached. *)
Definition unreachable : network := {|
  serve_getMe := fun _ =>
    Rejected {| status := None; description := None;
                err_message := "Network Error" |};
  serve_getUpdates := fun _ _ =>
    Rejected {| status := None; description := None;
                err_message := "Network Error" |};
  serve_post := fun _ _ =>
    Rejected {| status := None; description := None;
                err_message := "Network Error" |};
|}.

(** The delay before attempt [n] as the specification's testable
    property words it. *)
Definition claimed_delay (n : Z) : Z := Z.min 30000 (1000 * 2 ^ n).

(** ** Initialisation *)

(** The object as [initialize(tok, chat)] leaves it when it returns. *)
Definition initialized (tok chat : option string) (s : Api.TelegramAPI)
  : Api.TelegramAPI :=
  let s0 := Api.set_credentials tok chat (Api.createTelegramAPI tok) s in
  if JS.truthy tok && JS.truthy chat then
    let s1 := Api.set_connected true s0 in
    if Api.isPolling s1 then s1 else Api.set_polling (Some 3000) true s1
  else Api.set_connected false s0.

(** The events of that call. *)
Definition initialize_trace (tok chat : option string) (s : Api.TelegramAPI)
  : list event :=
  if JS.truthy tok && JS.truthy chat then
    (if negb (eqb (Api.connected s) true) then
       Log Info "Telegram connection status: Connected"
       :: map (fun l => Notify l true) (Api.connectionListeners s)
     else [])
    ++ (if Api.isPolling s then [] else [SetInterval 3000])
    ++ [Floating "testConnection"]
  else
    if negb (eqb (Api.connected s) false) then
      Log Info "Telegram connection status: Disconnected"
      :: map (fun l => Notify l false) (Api.connectionListeners s)
    else [].

(** A freshly constructed object to which one listener has subscribed. *)
Definition fresh_with_listener : Api.TelegramAPI :=
  Api.set_connectionListeners [0%nat] Api.constructor.

(** ** The scenarios of the specification *)

(** Cursor at 4, handlers for [storage], [back] and [sms_logs]. *)
Definition api_at_4 : Api.TelegramAPI :=
  Api.set_lastUpdateId 4
    (Api.set_commandHandlers
       (<["storage" := returns]>
          (<["back" := returns]> (<["sms_logs" := returns]> ∅)))
       api_configured).

Definition press (n : Z) (qid d : string) : Update :=
  {| update_id := n; message := None;
     callback_query :=
       Some {| cq_id := qid; data := d; cq_message_chat_id := Some 42 |} |}.

(** The service answers the poll with updates 5 ([storage]) and 6
    ([back]). *)
Definition storage_then_back : network := {|
  serve_getMe := fun _ => Resolved (Some {| bot_id := 7; username := "bot" |});
  serve_getUpdates := fun _ _ =>
    Resolved (Some [press 5 "a" "storage"; press 6 "b" "back"]);
  serve_post := fun _ _ => Resolved tt;
|}.

Definition sms_logs_message : Message :=
  {| chat_id := 42; text := Some "/sms_logs" |}.

(** ** The polling interval as a resource *)

(** The flag and the interval handle agree. *)
Definition timer_consistent (s : Api.TelegramAPI) : Prop :=
  Api.isPolling s
  = match Api.updatePollingInterval s with Some _ => true | None => false end.

(** The number of polling intervals the object holds: 0 or 1. *)
Definition armed (s : Api.TelegramAPI) : Z :=
  match Api.updatePollingInterval s with Some _ => 1 | None => 0 end.

(** Intervals created minus intervals cleared in a trace. *)
Definition intervals_delta (t : list event) : Z :=
  foldr (fun e n => match e with
                    | SetInterval _ => n + 1
                    | ClearInterval => n - 1
                    | _ => n
                    end) 0 t.

(** From [s], the computation keeps flag and handle in agreement and
    accounts for every interval it creates or clears. *)
Definition keeps_interval_at {A} (s : Api.TelegramAPI)
    (m : M Api.TelegramAPI A) : Prop :=
  forall c,
    timer_consistent s ->
    timer_consistent (final (m (s, c))) /\
    armed s + intervals_delta (trace (m (s, c))) = armed (final (m (s, c))).

Definition keeps_interval {A} (m : M Api.TelegramAPI A) : Prop :=
  forall s, keeps_interval_at s m.

(** A [getMe] exchange that went through but whose answer names no bot:
    [botInfo && botInfo.id] is falsy. *)
Definition names_no_bot (r : outcome (option BotInfo)) : bool :=
  match r with
  | Ret None => true
  | Ret (Some info) => bot_id info =? 0
  | Throw _ | ThrowNullish => false
  end.

(** The object as the reconnect timer's callback leaves it before it runs
    the liveness check. *)
Definition reconnecting (s : Api.TelegramAPI) : Api.TelegramAPI :=
  Api.set_api (Api.createTelegramAPI (Api.token s))
    (Api.set_reconnectAttempts (Api.reconnectAttempts s + 1) s).

(** A service whose [getMe] answers without a bot. *)
Definition anonymous : network := {|
  serve_getMe := fun _ => Resolved None;
  serve_getUpdates := fun _ _ => Resolved (Some []);
  serve_post := fun _ _ => Resolved tt;
|}.

(** The configured object after a connection loss, with one listener. *)
Definition api_lost : Api.TelegramAPI :=
  disconnected (Api.set_connectionListeners [0%nat] api_configured).

(** The object once a reconnect attempt has succeeded. *)
Definition reconnected (s : Api.TelegramAPI) : Api.TelegramAPI :=
  Api.set_polling (Some 3000) true
    (Api.set_connected true
       (Api.set_reconnectAttempts 0 (reconnecting s))).

(** ** What justifies a handler call *)

(** The update comes from the configured chat: both filters of
    [processUpdate] let it through. *)
Definition authorized (u : Update) (s : Api.TelegramAPI) : Prop :=
  exists cid,
    Api.chatId s = Some cid /\
    (forall m, message u = Some m -> pretty (chat_id m) = cid) /\
    (forall cq, callback_query u = Some cq ->
       exists chat, cq_message_chat_id cq = Some chat /\ pretty chat = cid).

(** Update [u] asks for the handler registered under [key] to be called
    with arguments [a]: the four shapes of a call and, for each, the part
    of the update it answers. *)
Definition asked (u : Update) (s : Api.TelegramAPI)
    (key : string) (a : args) : Prop :=
  match a with
  | ArgsCallback cq =>
      callback_query u = Some cq /\ key = data cq
  | ArgsCallbackParam cq p =>
      callback_query u = Some cq /\
      data cq = key +:+ "_" +:+ p /\
      JS.includes "_" key = false /\
      Api.commandHandlers s !! data cq = None
  | ArgsCommand m ps =>
      message u = Some m /\
      exists w, text m = Some ("/" +:+ JS.join " " (w :: ps)) /\
                key = JS.toLowerCase w /\
                Forall (fun x => JS.includes " " x = false) (w :: ps)
  | ArgsMessage m =>
      message u = Some m /\ key = "message" /\
      exists txt, text m = Some txt /\ txt <> EmptyString /\
                  JS.startsWith "/" txt = false
  end.

(** The call is of a registered handler, for an update of the configured
    chat that asks for it. *)
Definition justified (u : Update) (s : Api.TelegramAPI)
    (key : string) (a : args) : Prop :=
  is_Some (Api.commandHandlers s !! key) /\
  authorized u s /\
  asked u s key a.

(** A text message of chat 42. *)
Definition says (n : Z) (txt : string) : Update :=
  {| update_id := n;
     message := Some {| chat_id := 42; text := Some txt |};
     callback_query := None |}.

(** The configured object with a handler registered under [Help], a key
    no command can spell, and one under [help]. *)
Definition api_with_help : Api.TelegramAPI :=
  Api.set_commandHandlers (<["Help" := returns]> (<["help" := returns]> ∅))
    api_configured.

(** [n] polls of the earlier copy, one after the other. *)
Fixpoint legacy_polls (net : network) (n : nat) : M Legacy.TelegramAPI unit :=
  match n with
  | O => mret tt
  | S n' => Legacy.getUpdates net;; legacy_polls net n'
  end.

(** ** The logger's history *)

(** A call of [log]: message, level and the time at which it is made. *)
Definition log_call : Type := string * string * Logger.Date.

(** The entry the call creates. *)
Definition entry_of (call : log_call) : Logger.LogEntry :=
  (Logger.log call.1.1 call.1.2 call.2 Logger.constructor).1.2.

(** The logger after the calls, made in the order of the list. *)
Definition log_all (calls : list log_call) (s : Logger.Logger) : Logger.Logger :=
  foldl (fun s call => (Logger.log call.1.1 call.1.2 call.2 s).1.1) s calls.

(** The entry carries a label of the table with the colour the table
    gives it. *)
Definition table_entry (e : Logger.LogEntry) : Prop :=
  (Logger.level e, Logger.entry_color e)
  ∈ [("DEBUG", "#aaa"); ("INFO", "#0f0"); ("SUCCESS", "#0ff");
     ("WARNING", "#ff0"); ("ERROR", "#f00")].

(** The time [ms] on a clock that prints it as [shown]. *)
Definition at_time (ms : Z) (shown : string) : Logger.Date :=
  {| Logger.getTime := ms; Logger.toLocaleTimeString := shown |}.

(** ** The application's registry *)

(** The keys under which the application registers a handler. *)
Definition app_keys : list string :=
  ["call_logs"; "sms_logs"; "contacts"; "storage"; "device_info";
   "screenshot"; "file"; "back"].

(** The registry holds the application's handlers and no other. *)
Definition app_registry (s : Api.TelegramAPI) : Prop :=
  forall key, is_Some (Api.commandHandlers s !! key) <-> key ∈ app_keys.

(** The fresh object once the application has registered its handlers
    (all of them [returns]) and has been configured for chat 42. *)
Definition api_of_app : Api.TelegramAPI :=
  final (Api.initialize (Some "token") (Some "42")
           (final (AppHandlers.registerHandlers returns returns returns returns
                     returns returns returns returns (Api.constructor, 0%nat)),
            0%nat)).

(** [n] firings of the polling interval, each run to completion. *)
Fixpoint firings (net : network) (n : nat) : M Api.TelegramAPI unit :=
  match n with
  | O => mret tt
  | S n' => Api.interval_callback net;; firings net n'
  end.

(** The messages [bodies] sent one after the other. *)
Definition posts (net : network) (bodies : list string) : M Api.TelegramAPI unit :=
  forEach (fun body => Api.sendMessage net body;; mret tt) bodies.



(** ** A handler that throws no error object *)

(** A handler that throws [undefined] or [null], or whose promise is
    rejected without a reason ([Promise.reject()]). *)
Definition rejects : handler := fun _ => ThrowNullish.

(** The configured object with such a [storage] handler. *)
Definition api_storage_rejects : Api.TelegramAPI :=
  Api.set_commandHandlers
    (<["file" := returns]> (<["storage" := rejects]> ∅))
    api_configured.

(** The service answers the poll with updates 6 ([storage]) and 7
    ([file_42]). *)
Definition storage_then_file : network := {|
  serve_getMe := fun _ => Resolved (Some {| bot_id := 7; username := "bot" |});
  serve_getUpdates := fun _ _ => Resolved (Some [storage_press; file_42]);
  serve_post := fun _ _ => Resolved tt;
|}.

(** A service that refuses every acknowledgement with HTTP 400, as the
    Bot API does for a query that is too old; everything else succeeds. *)
Definition expired_query : network := {|
  serve_getMe := fun _ => Resolved (Some {| bot_id := 7; username := "bot" |});
  serve_getUpdates := fun _ _ => Resolved (Some []);
  serve_post := fun _ r =>
    match r with
    | AnswerCallbackQuery _ =>
        Rejected {| status := Some 400;
                    description := Some "Bad Request: query is too old";
                    err_message := "Request failed with status code 400" |}
    | _ => Resolved tt
    end;
|}.

(** ** The interval of the earlier application *)

(** The callback that the effect of the earlier [App.js] arms in the
    render in which the application has just connected: [processing] is
    [false] and the cursor is 0.  Without an armed interval nothing
    runs. *)
Definition legacy_app_interval (net : network) : M unit unit :=
  default (mret tt) (LegacyApp.effect net false true 0).

(** The callback that [startMonitoring] arms in a render that reads
    [processing = false] and [isConnected = true]. *)
Definition app_interval (net : network) : M Api.TelegramAPI unit :=
  default (mret tt) (App.startMonitoring net false true).

(** The object once a poll has returned the batch [us]: the cursor is at
    the [update_id] of its last element. *)
Definition polled (s : Api.TelegramAPI) (us : list Update) : Api.TelegramAPI :=
  match last us with
  | Some u => Api.set_lastUpdateId (update_id u) s
  | None => s
  end.

(** ** What a trace may hold *)

(** From the object [s], the computation leaves the object as it is and
    puts on the trace only events that satisfy [P]. *)
Definition emits_at {A} (P : event -> Prop) (s : Api.TelegramAPI)
    (m : M Api.TelegramAPI A) : Prop :=
  forall c, final (m (s, c)) = s /\ Forall P (trace (m (s, c))).

(** Of the requests, only the acknowledgement of the button press of
    [u]. *)
Definition acknowledges (u : Update) (e : event) : Prop :=
  match e with
  | Http r =>
      exists cq, callback_query u = Some cq /\
                 r = AnswerCallbackQuery (cq_id cq)
  | _ => True
  end.

(** The text of the update's message, if it has one, is ASCII: the
    strings on which [JS.toLowerCase] is the method of JavaScript. *)
Definition ascii_text (u : Update) : bool :=
  match message u with
  | Some m =>
      match text m with
      | Some txt => JS.isASCII txt
      | None => true
      end
  | None => true
  end.

(** The message [/HELP me Now] of chat 42. *)
Definition help_me_now : Message :=
  {| chat_id := 42; text := Some "/HELP me Now" |}.

(** * Properties *)

(** ** The monad *)

Lemma prepend_nil {S A} (x : outcome A * (S * nat) * list event) :
  prepend [] x = x.
Proof. by destruct x. Qed.

Lemma prepend_prepend {S A} t1 t2 (x : outcome A * (S * nat) * list event) :
  prepend t1 (prepend t2 x) = prepend (t1 ++ t2) x.
Proof. unfold prepend. cbn. by rewrite app_assoc. Qed.

Lemma prepend_triple {S A} t (r : outcome A) (w : S * nat) t' :
  prepend t (r, w, t') = (r, w, t ++ t').
Proof. reflexivity. Qed.

Lemma bind_eq {S A B} (m : M S A) (k : A -> M S B) w :
  (m ≫= k) w =
  match m w with
  | (Ret a, w1, t1) => prepend t1 (k a w1)
  | (Throw e, w1, t1) => (Throw e, w1, t1)
  | (ThrowNullish, w1, t1) => (ThrowNullish, w1, t1)
  end.
Proof.
  unfold mbind, M_bind, bind, prepend.
  destruct (m w) as [[[a|e|] w1] t1]; [|done..].
  by destruct (k a w1) as [[? ?] ?].
Qed.

Lemma bind_ret_eq {S A B} (a : A) (k : A -> M S B) w :
  (mret a ≫= k) w = k a w.
Proof. rewrite bind_eq. cbn. apply prepend_nil. Qed.

Lemma bind_get_eq {S B} (k : S -> M S B) s c :
  (get ≫= k) (s, c) = k s (s, c).
Proof. rewrite bind_eq. cbn. apply prepend_nil. Qed.

Lemma bind_put_eq {S B} (s' : S) (k : unit -> M S B) s c :
  (put s' ≫= k) (s, c) = k tt (s', c).
Proof. rewrite bind_eq. cbn. apply prepend_nil. Qed.

Lemma bind_emit_eq {S B} (e : event) (k : unit -> M S B) w :
  (emit e ≫= k) w = prepend [e] (k tt w).
Proof. by rewrite bind_eq. Qed.

Lemma bind_throw_eq {S A B} (e : string) (k : A -> M S B) w :
  (throw e ≫= k) w = (Throw e, w, []).
Proof. by rewrite bind_eq. Qed.

Lemma bind_attempt_eq {S B} (k : nat -> M S B) s c :
  (attempt_index ≫= k) (s, c) = k c (s, Datatypes.S c).
Proof. rewrite bind_eq. cbn. apply prepend_nil. Qed.

Lemma bind_assoc_eq {S A B C} (m : M S A) (k1 : A -> M S B) (k2 : B -> M S C) w :
  ((m ≫= k1) ≫= k2) w = (m ≫= (fun a => k1 a ≫= k2)) w.
Proof.
  rewrite !bind_eq. destruct (m w) as [[[a|e|] w1] t1]; [|done..].
  rewrite bind_eq. destruct (k1 a w1) as [[[b|e|] w2] t2]; [|done..].
  cbn. by rewrite prepend_prepend.
Qed.

Lemma ret_eq {S A} (a : A) (w : S * nat) : (mret a : M S A) w = (Ret a, w, []).
Proof. reflexivity. Qed.

Lemma emit_eq {S} (e : event) (w : S * nat) : emit e w = (Ret tt, w, [e]).
Proof. reflexivity. Qed.

Lemma throw_eq {S A} (e : string) (w : S * nat) :
  (throw e : M S A) w = (Throw e, w, []).
Proof. reflexivity. Qed.

(** Rewriting a run into its events, one primitive at a time. *)
Ltac mstep :=
  first
    [ rewrite bind_assoc_eq
    | rewrite ret_eq
    | rewrite emit_eq
    | rewrite throw_eq
    | rewrite bind_ret_eq
    | rewrite bind_get_eq
    | rewrite bind_put_eq
    | rewrite bind_emit_eq
    | rewrite bind_throw_eq
    | rewrite bind_attempt_eq
    | rewrite prepend_prepend
    | rewrite prepend_triple ];
  cbv beta.

Ltac msimpl := repeat first [mstep | progress cbn [app fst snd]].

Lemma forEach_emit {S A} (f : A -> event) (l : list A) (w : S * nat) :
  forEach (fun x => emit (f x)) l w = (Ret tt, w, map f l).
Proof.
  induction l as [|x l IH]; [reflexivity|].
  cbn [forEach]. msimpl. rewrite IH. reflexivity.
Qed.

Lemma forEach_app {S A} (body : A -> M S unit) (l1 l2 : list A) w :
  forEach body (l1 ++ l2) w = (forEach body l1;; forEach body l2) w.
Proof.
  revert w. induction l1 as [|x l1 IH]; intros w.
  - cbn [app forEach]. by msimpl.
  - cbn [app forEach]. msimpl. rewrite !(bind_eq (body x)).
    destruct (body x w) as [[[[]|e|] w1] t1]; [|done..]. by rewrite IH.
Qed.

(** ** Connection state: [setConnected] *)

Lemma Api_setConnected_eq (status : bool) (s : Api.TelegramAPI) (c : nat) :
  Api.setConnected status (s, c) =
  (Ret tt, (Api.set_connected status s, c),
   if negb (eqb (Api.connected s) status) then
     Log Info ("Telegram connection status: "
               +:+ (if status then "Connected" else "Disconnected"))
     :: map (fun l => Notify l status) (Api.connectionListeners s)
   else []).
Proof.
  unfold Api.setConnected. msimpl.
  destruct (negb (eqb (Api.connected s) status)); [|reflexivity].
  msimpl. rewrite forEach_emit. reflexivity.
Qed.

(** In [src/api/telegramAPI.js], setting the state to the value it has
    calls no listener and leaves the object as it is. *)
Lemma Api_setConnected_same (s : Api.TelegramAPI) (c : nat) :
  Api.setConnected (Api.connected s) (s, c) = (Ret tt, (s, c), []).
Proof.
  rewrite Api_setConnected_eq.
  destruct s as [? ? ? ? []]; reflexivity.
Qed.

Lemma Legacy_setConnected_eq (status : bool) (s : Legacy.TelegramAPI) (c : nat) :
  Legacy.setConnected status (s, c) =
  (Ret tt, (Legacy.set_connected status s, c),
   map (fun l => Notify l status) (Legacy.connectionListeners s)).
Proof.
  unfold Legacy.setConnected. msimpl.
  rewrite forEach_emit. reflexivity.
Qed.

(** C9, at the failing input.  In the earlier copy of the class
    [setConnected] has no equality check: on an object that is already
    connected, [setConnected(true)] calls the subscribed listener again. *)
Theorem C9_legacy_setConnected_notifies_again :
  Legacy.connected legacy_connected = true /\
  notifications (trace (run (Legacy.setConnected true) legacy_connected 0))
  = [(0%nat, true)].
Proof. split; reflexivity. Qed.

(** ** The chat filter of [processUpdate] *)

Lemma try_catch_eq {S A} (m : M S A) (h : string -> M S A) w :
  try_catch m h w =
  match m w with
  | (Ret a, w1, t1) => (Ret a, w1, t1)
  | (Throw e, w1, t1) => prepend t1 (h e w1)
  | (ThrowNullish, w1, t1) => (Throw TypeError, w1, t1)
  end.
Proof.
  unfold try_catch, prepend.
  destruct (m w) as [[[a|e|] w1] t1]; [done| |done].
  by destruct (h e w1) as [[? ?] ?].
Qed.

Lemma Api_chatId_toString_eq (s : Api.TelegramAPI) c cid :
  Api.chatId s = Some cid ->
  Api.chatId_toString (s, c) = (Ret cid, (s, c), []).
Proof. intros H. unfold Api.chatId_toString. msimpl. by rewrite H. Qed.

(** In [src/api/telegramAPI.js] an update addressed elsewhere is dropped
    with a warning: no handler is invoked, nothing is sent, the object is
    unchanged. *)
Lemma Api_processUpdate_drops_foreign net (s : Api.TelegramAPI) c cid u :
  Api.chatId s = Some cid ->
  addressed_elsewhere cid u ->
  exists chat,
    Api.processUpdate net u (s, c) =
    (Ret tt, (s, c), [Log Warning chat]).
Proof.
  intros Hc Hu. unfold Api.processUpdate, Api.try_block. rewrite try_catch_eq.
  unfold Api.unauthorized_message, Api.unauthorized_callback.
  destruct (message u) as [m|] eqn:Em.
  - rewrite bind_assoc_eq, (bind_eq (Api.chatId_toString)),
      (Api_chatId_toString_eq _ _ _ Hc), prepend_nil.
    destruct (String.eqb (pretty (chat_id m)) cid) eqn:E; cbn [negb].
    + apply String.eqb_eq in E.
      destruct Hu as [(m' & Hm & Hne)|(cq & chat & Hq & Hch & Hne)];
        [congruence|].
      rewrite Hq, Hch. msimpl.
      rewrite (bind_eq (Api.chatId_toString)),
        (Api_chatId_toString_eq _ _ _ Hc), prepend_nil.
      apply String.eqb_neq in Hne. rewrite Hne. cbn [negb]. msimpl.
      by eexists.
    + msimpl. by eexists.
  - destruct Hu as [(m' & Hm & Hne)|(cq & chat & Hq & Hch & Hne)]; [congruence|].
    rewrite Hq, Hch. msimpl.
    rewrite (bind_eq (Api.chatId_toString)),
      (Api_chatId_toString_eq _ _ _ Hc), prepend_nil.
    apply String.eqb_neq in Hne. rewrite Hne. cbn [negb]. msimpl.
    by eexists.
Qed.

(** C3, at the failing input.  The earlier copy of [processUpdate] has no
    chat filter: a button press from chat 999 on an object configured for
    chat 42 is acknowledged and reaches the registered handler. *)
Theorem C3_legacy_processUpdate_dispatches_foreign :
  Legacy.chatId legacy_with_storage = Some "42" /\
  addressed_elsewhere "42" foreign_callback /\
  trace (run (Legacy.processUpdate quiet foreign_callback) legacy_with_storage 0)
  = [Http (AnswerCallbackQuery "q1");
     Invoke "storage"
       (ArgsCallback {| cq_id := "q1"; data := "storage";
                        cq_message_chat_id := Some 999 |})].
Proof.
  split; [reflexivity|]. split.
  - right. do 2 eexists. repeat split. by vm_compute.
  - by vm_compute.
Qed.

(** ** Computations that leave the object alone, and that always return *)

Lemma preserves_ret {S A} (a : A) : preserves (mret a : M S A).
Proof. by intros s c. Qed.

Lemma preserves_throw {S A} e : preserves (throw e : M S A).
Proof. by intros s c. Qed.

Lemma preserves_emit {S} e : preserves (emit e : M S unit).
Proof. by intros s c. Qed.

Lemma preserves_get {S} : preserves (get : M S S).
Proof. by intros s c. Qed.

Lemma preserves_attempt_index {S} : preserves (attempt_index : M S nat).
Proof. by intros s c. Qed.

Lemma preserves_bind {S A B} (m : M S A) (k : A -> M S B) :
  preserves m -> (forall a, preserves (k a)) -> preserves (m ≫= k).
Proof.
  intros Hm Hk s c. rewrite bind_eq. specialize (Hm s c).
  destruct (m (s, c)) as [[[a|e|] [s1 c1]] t1]; cbn in Hm; subst; [|done..].
  specialize (Hk a s c1). by destruct (k a (s, c1)) as [[? [? ?]] ?].
Qed.

Lemma preserves_try_catch {S A} (m : M S A) (h : string -> M S A) :
  preserves m -> (forall e, preserves (h e)) -> preserves (try_catch m h).
Proof.
  intros Hm Hh s c. rewrite try_catch_eq. specialize (Hm s c).
  destruct (m (s, c)) as [[[a|e|] [s1 c1]] t1]; cbn in Hm; subst;
    [done| |done].
  specialize (Hh e s c1). by destruct (h e (s, c1)) as [[? [? ?]] ?].
Qed.

Lemma preserves_try_finally {S A} (m : M S A) (f : M S unit) :
  preserves m -> preserves f -> preserves (try_finally m f).
Proof.
  intros Hm Hf s c. unfold try_finally. specialize (Hm s c).
  destruct (m (s, c)) as [[r [s1 c1]] t1]; cbn in Hm; subst.
  specialize (Hf s c1). by destruct (f (s, c1)) as [[[[]|?|] [? ?]] ?].
Qed.

Lemma preserves_forEach {S A} (body : A -> M S unit) (l : list A) :
  (forall x, preserves (body x)) -> preserves (forEach body l).
Proof.
  intros H. induction l as [|x l IH]; cbn [forEach].
  - apply preserves_ret.
  - apply preserves_bind; [apply H | by intros _].
Qed.

Lemma returns_ret {S A} (a : A) : returns_normally (mret a : M S A).
Proof. intros w. by exists a. Qed.

Lemma returns_emit {S} e : returns_normally (emit e : M S unit).
Proof. intros w. by exists tt. Qed.

Lemma returns_get {S} : returns_normally (get : M S S).
Proof. intros w. by eexists. Qed.

Lemma returns_bind {S A B} (m : M S A) (k : A -> M S B) :
  returns_normally m -> (forall a, returns_normally (k a)) ->
  returns_normally (m ≫= k).
Proof.
  intros Hm Hk w. rewrite bind_eq. destruct (Hm w) as [a Ha].
  destruct (m w) as [[[a'|e|] w1] t1]; cbn in Ha; [|done..].
  destruct (Hk a' w1) as [b Hb]. exists b.
  by destruct (k a' w1) as [[? ?] ?].
Qed.

Lemma returns_try_catch {S A} (m : M S A) (h : string -> M S A) :
  throws_errors m ->
  (forall e, returns_normally (h e)) -> returns_normally (try_catch m h).
Proof.
  intros Hm Hh w. rewrite try_catch_eq. specialize (Hm w).
  destruct (m w) as [[[a|e|] w1] t1]; [by exists a| |done].
  destruct (Hh e w1) as [b Hb]. exists b.
  by destruct (h e w1) as [[? ?] ?].
Qed.

Lemma returns_try_finally {S A} (m : M S A) (f : M S unit) :
  returns_normally m -> returns_normally f ->
  returns_normally (try_finally m f).
Proof.
  intros Hm Hf w. unfold try_finally. destruct (Hm w) as [a Ha].
  destruct (m w) as [[r w1] t1]; cbn in Ha; subst.
  destruct (Hf w1) as [[] Hb]. exists a.
  destruct (f w1) as [[[[]|?|] ?] ?]; [done|by cbn in Hb..].
Qed.

Lemma returns_forEach {S A} (body : A -> M S unit) (l : list A) :
  (forall x, returns_normally (body x)) -> returns_normally (forEach body l).
Proof.
  intros H. induction l as [|x l IH]; cbn [forEach].
  - apply returns_ret.
  - apply returns_bind; [apply H | by intros _].
Qed.

Lemma throws_errors_of_returns {S A} (m : M S A) :
  returns_normally m -> throws_errors m.
Proof. intros H w. destruct (H w) as [a Ha]. by rewrite Ha. Qed.

Lemma throws_errors_ret {S A} (a : A) : throws_errors (mret a : M S A).
Proof. by intros w. Qed.

Lemma throws_errors_throw {S A} e : throws_errors (throw e : M S A).
Proof. by intros w. Qed.

Lemma throws_errors_emit {S} e : throws_errors (emit e : M S unit).
Proof. by intros w. Qed.

Lemma throws_errors_get {S} : throws_errors (get : M S S).
Proof. by intros w. Qed.

Lemma throws_errors_put {S} s : throws_errors (put s : M S unit).
Proof. by intros w. Qed.

Lemma throws_errors_attempt_index {S} : throws_errors (attempt_index : M S nat).
Proof. by intros w. Qed.

Lemma throws_errors_bind {S A B} (m : M S A) (k : A -> M S B) :
  throws_errors m -> (forall a, throws_errors (k a)) -> throws_errors (m ≫= k).
Proof.
  intros Hm Hk w. rewrite bind_eq. specialize (Hm w).
  destruct (m w) as [[[a|e|] w1] t1]; [|done..].
  specialize (Hk a w1). unfold prepend, result in *. cbn [fst] in *.
  by destruct (k a w1) as [[? ?] ?].
Qed.

(** What a [catch] block lets out is what the block itself throws. *)
Lemma throws_errors_try_catch {S A} (m : M S A) (h : string -> M S A) :
  (forall e, throws_errors (h e)) -> throws_errors (try_catch m h).
Proof.
  intros Hh w. rewrite try_catch_eq.
  destruct (m w) as [[[a|e|] w1] t1]; [done| |done].
  specialize (Hh e w1). unfold prepend, result in *. cbn [fst] in *.
  by destruct (h e w1) as [[? ?] ?].
Qed.

Lemma throws_errors_try_finally {S A} (m : M S A) (f : M S unit) :
  throws_errors m -> throws_errors f -> throws_errors (try_finally m f).
Proof.
  intros Hm Hf w. unfold try_finally. specialize (Hm w).
  destruct (m w) as [[r w1] t1]. specialize (Hf w1).
  by destruct (f w1) as [[[[]|?|] ?] ?].
Qed.

Lemma throws_errors_forEach {S A} (body : A -> M S unit) (l : list A) :
  (forall x, throws_errors (body x)) -> throws_errors (forEach body l).
Proof.
  intros H. induction l as [|x l IH]; cbn [forEach].
  - apply throws_errors_ret.
  - apply throws_errors_bind; [apply H | by intros _].
Qed.

(** A run in which the object is kept and the computation returns. *)
Lemma run_shape {S A} (m : M S A) s c :
  preserves m -> returns_normally m ->
  exists a c', m (s, c) = (Ret a, (s, c'), trace (m (s, c))).
Proof.
  intros Hp Hr. specialize (Hp s c). destruct (Hr (s, c)) as [a Ha].
  destruct (m (s, c)) as [[r [s1 c1]] t1]; cbn in *; subst. by eauto.
Qed.

(** ** The transport *)

(** One attempt of an exchange, and what follows it. *)
Lemma exchange_eq {A} r (serve : nat -> reply A) left rc s c :
  Api.exchange r serve left rc (s, c) =
  prepend [Http r]
    match serve c with
    | Resolved a => (Ret a, (s, Datatypes.S c), [])
    | Rejected err =>
        if Api.retriable (status err) then
          match left with
          | Datatypes.S left' =>
              prepend
                [Log Warning ("Retrying Telegram API request ("
                              +:+ pretty (Datatypes.S rc) +:+ "/"
                              +:+ pretty Api.retry +:+ ") after "
                              +:+ pretty (2 ^ Z.of_nat (Datatypes.S rc) * 1000)
                              +:+ "ms");
                 Sleep (2 ^ Z.of_nat (Datatypes.S rc) * 1000)]
                (Api.exchange r serve left' (Datatypes.S rc) (s, Datatypes.S c))
          | O =>
              (Throw (err_message err), (s, Datatypes.S c),
               [Log Error ("Telegram API error after retries: "
                           +:+ Api.errorMessage err)])
          end
        else
          (Throw (err_message err), (s, Datatypes.S c),
           [Log Error ("Telegram API error after retries: "
                       +:+ Api.errorMessage err)])
    end.
Proof.
  destruct left as [|left']; cbn [Api.exchange]; rewrite bind_attempt_eq;
    cbv beta; rewrite bind_emit_eq; cbv beta; f_equal;
    (destruct (serve c) as [a|err]; [reflexivity|]);
    (destruct (Api.retriable (status err)); [|by msimpl]).
  - by msimpl.
  - cbv zeta. rewrite bind_emit_eq. cbv beta. rewrite bind_emit_eq. cbv beta.
    by rewrite prepend_prepend.
Qed.

Lemma exchange_preserves {A} r (serve : nat -> reply A) left rc :
  preserves (Api.exchange r serve left rc).
Proof.
  revert rc. induction left as [|left IH]; intros rc; cbn [Api.exchange];
    (apply preserves_bind; [apply preserves_attempt_index|]; intros t;
     apply preserves_bind; [apply preserves_emit|]; intros _;
     destruct (serve t) as [a|err]; [apply preserves_ret|];
     destruct (Api.retriable (status err));
     repeat first [ apply IH | apply preserves_throw | apply preserves_emit
                  | apply preserves_bind; [|intros _] ]).
Qed.

Lemma exchange_transport_events {A} r (serve : nat -> reply A) left rc w :
  Forall transport_event (trace (Api.exchange r serve left rc w)).
Proof.
  revert rc w. induction left as [|left IH]; intros rc [s c];
    cbn [Api.exchange]; msimpl;
    (destruct (serve c) as [a|err]; [by repeat constructor|]);
    (destruct (Api.retriable (status err)); msimpl;
       [|by repeat constructor]).
  - by repeat constructor.
  - specialize (IH (Datatypes.S rc) (s, Datatypes.S c)).
    destruct (Api.exchange _ _ _ _ _) as [[? ?] t]. cbn in *.
    by repeat constructor.
Qed.

Lemma send_preserves {A} r (serve : nat -> reply A) : preserves (Api.send r serve).
Proof.
  apply preserves_bind; [apply preserves_get|]. intros s.
  destruct (Api.api s); [apply exchange_preserves|apply preserves_throw].
Qed.

(** The transport throws errors only. *)
Lemma exchange_throws_errors {A} r (serve : nat -> reply A) left rc :
  throws_errors (Api.exchange r serve left rc).
Proof.
  revert rc. induction left as [|left IH]; intros rc; cbn [Api.exchange];
    (apply throws_errors_bind; [apply throws_errors_attempt_index|]; intros t;
     apply throws_errors_bind; [apply throws_errors_emit|]; intros _;
     destruct (serve t) as [a|err]; [apply throws_errors_ret|];
     destruct (Api.retriable (status err));
     repeat first [ apply IH | apply throws_errors_throw
                  | apply throws_errors_emit
                  | apply throws_errors_bind; [|intros _] ]).
Qed.

Lemma send_throws_errors {A} r (serve : nat -> reply A) :
  throws_errors (Api.send r serve).
Proof.
  apply throws_errors_bind; [apply throws_errors_get|]. intros s.
  destruct (Api.api s); [apply exchange_throws_errors|apply throws_errors_throw].
Qed.

Lemma send_transport_events {A} r (serve : nat -> reply A) w :
  Forall transport_event (trace (Api.send r serve w)).
Proof.
  destruct w as [s c]. unfold Api.send. msimpl.
  destruct (Api.api s); [apply exchange_transport_events|constructor].
Qed.

Lemma invocations_transport t : Forall transport_event t -> invocations t = [].
Proof.
  induction 1 as [|e t He _ IH]; [done|].
  unfold invocations in *. cbn. rewrite IH. by destruct e.
Qed.

Lemma invocations_app t1 t2 :
  invocations (t1 ++ t2) = invocations t1 ++ invocations t2.
Proof. apply omap_app. Qed.

Lemma trace_prepend {S A} t (x : outcome A * (S * nat) * list event) :
  trace (prepend t x) = t ++ trace x.
Proof. reflexivity. Qed.

Lemma result_prepend {S A} t (x : outcome A * (S * nat) * list event) :
  result (prepend t x) = result x.
Proof. reflexivity. Qed.

Lemma final_prepend {S A} t (x : outcome A * (S * nat) * list event) :
  final (prepend t x) = final x.
Proof. reflexivity. Qed.

(** ** [sendMessage] never throws and never touches the object *)

Lemma sendMessage_preserves net body : preserves (Api.sendMessage net body).
Proof.
  apply preserves_bind; [apply preserves_get|]. intros s.
  destruct (negb (Api.connected s)); [apply preserves_ret|].
  apply preserves_try_catch.
  - apply preserves_bind; [apply send_preserves|]. intros _. apply preserves_ret.
  - intros e. apply preserves_bind; [apply preserves_emit|]. intros _.
    apply preserves_ret.
Qed.

Lemma sendMessage_returns net body : returns_normally (Api.sendMessage net body).
Proof.
  apply returns_bind; [apply returns_get|]. intros s.
  destruct (negb (Api.connected s)); [apply returns_ret|].
  apply returns_try_catch.
  - apply throws_errors_bind; [apply send_throws_errors|]. intros _.
    apply throws_errors_ret.
  - intros e. apply returns_bind; [apply returns_emit|]. intros _.
    apply returns_ret.
Qed.

Lemma sendMessage_transport_events net body w :
  Forall transport_event (trace (Api.sendMessage net body w)).
Proof.
  destruct w as [s c]. unfold Api.sendMessage. msimpl.
  destruct (negb (Api.connected s)); [constructor|].
  rewrite try_catch_eq, bind_eq.
  pose proof (send_transport_events (SendMessage (Api.chatId s) body)
    (fun t => serve_post net t (SendMessage (Api.chatId s) body)) (s, c)) as H.
  destruct (Api.send _ _ _) as [[[[]|e|] w1] t1]; cbn in H; msimpl;
    unfold trace; cbn [snd]; rewrite ?app_nil_r; [done| |done].
  apply Forall_app. split; [done|]. by repeat constructor.
Qed.

(** When the object is connected, [sendMessage] puts the message on the
    wire: the first request of its run is the [sendMessage] post. *)
Lemma sendMessage_requests net body (s : Api.TelegramAPI) c tok :
  Api.connected s = true -> Api.api s = Some tok ->
  head (requests (trace (Api.sendMessage net body (s, c))))
  = Some (SendMessage (Api.chatId s) body).
Proof.
  intros Hc Ha. unfold Api.sendMessage. msimpl. rewrite Hc. cbn [negb].
  rewrite try_catch_eq, bind_eq. unfold Api.send. msimpl. rewrite Ha.
  rewrite exchange_eq.
  destruct (serve_post net c _) as [[]|err]; msimpl; [done|].
  destruct (Api.retriable (status err)); msimpl; [|done].
  unfold Api.retry.
  destruct (Api.exchange _ _ _ _ _) as [[[[]|e|] w1] t1]; msimpl; done.
Qed.

(** ** [processUpdate] returns, and leaves the object alone *)

Ltac preserves_tac :=
  repeat first
    [ apply preserves_ret | apply preserves_throw | apply preserves_emit
    | apply preserves_get | apply send_preserves | apply sendMessage_preserves
    | apply preserves_bind; [|intros ?]
    | apply preserves_try_catch; [|intros ?]
    | match goal with
      | |- preserves (match ?x with _ => _ end) => destruct x
      end ].

Lemma invoke_eq key h a (w : Api.TelegramAPI * nat) :
  Api.invoke key h a w =
  (match h a with
   | Ret _ => Ret tt
   | Throw e => Throw e
   | ThrowNullish => ThrowNullish
   end, w, [Invoke key a]).
Proof. unfold Api.invoke. msimpl. by destruct (h a) as [[]|e|]. Qed.

Lemma invoke_preserves key h a : preserves (Api.invoke key h a).
Proof. intros s c. by rewrite invoke_eq. Qed.

Lemma chatId_toString_preserves : preserves Api.chatId_toString.
Proof. unfold Api.chatId_toString. preserves_tac. Qed.

Lemma handle_callback_preserves net cq : preserves (Api.handle_callback net cq).
Proof.
  unfold Api.handle_callback.
  repeat first [ apply invoke_preserves | progress preserves_tac ].
Qed.

Lemma handle_message_preserves net m : preserves (Api.handle_message net m).
Proof.
  unfold Api.handle_message.
  repeat first [ apply invoke_preserves | progress preserves_tac ].
Qed.

(** The [catch] block of [processUpdate] returns, keeps the object and
    leaves only transport events. *)
Lemma report_error_preserves net e : preserves (Api.report_error net e).
Proof. unfold Api.report_error. preserves_tac. Qed.

Lemma report_error_returns net e : returns_normally (Api.report_error net e).
Proof.
  unfold Api.report_error.
  apply returns_bind; [apply returns_emit|]. intros _.
  apply returns_try_catch; [|intros e'; apply returns_emit].
  apply throws_errors_of_returns.
  apply returns_bind; [apply sendMessage_returns|]. intros _. apply returns_ret.
Qed.

Lemma report_error_eq net e (w : Api.TelegramAPI * nat) :
  Api.report_error net e w =
  prepend [Log Error ("Error processing update: " +:+ e)]
    (Ret tt, (Api.sendMessage net ("Error processing command: " +:+ e) w).1.2,
     trace (Api.sendMessage net ("Error processing command: " +:+ e) w)).
Proof.
  unfold Api.report_error. rewrite bind_emit_eq. cbv beta. f_equal.
  rewrite try_catch_eq, bind_eq.
  destruct (sendMessage_returns net ("Error processing command: " +:+ e) w)
    as [b Hb].
  destruct (Api.sendMessage _ _ _) as [[[b'|e'|] w1] t1]; [|done..].
  msimpl. unfold trace. cbn [snd]. by rewrite app_nil_r.
Qed.

Lemma report_error_transport_events net e (w : Api.TelegramAPI * nat) :
  Forall transport_event (trace (Api.report_error net e w)).
Proof.
  rewrite report_error_eq, trace_prepend. apply Forall_app.
  split; [by repeat constructor|]. apply sendMessage_transport_events.
Qed.

Lemma processUpdate_preserves net u : preserves (Api.processUpdate net u).
Proof.
  unfold Api.processUpdate, Api.try_block,
    Api.unauthorized_message, Api.unauthorized_callback.
  apply preserves_try_catch; [|intros e; apply report_error_preserves].
  repeat first [ apply handle_callback_preserves | apply handle_message_preserves
               | apply chatId_toString_preserves | progress preserves_tac ].
Qed.

(** What leaves [processUpdate] is an error: its [catch] block turns a
    thrown [null] or [undefined] into the [TypeError] of reading its
    message. *)
Lemma processUpdate_throws_errors net u : throws_errors (Api.processUpdate net u).
Proof.
  unfold Api.processUpdate. apply throws_errors_try_catch. intros e.
  apply throws_errors_of_returns, report_error_returns.
Qed.

(** ** Dispatch of text messages *)

Lemma unauthorized_message_eq (s : Api.TelegramAPI) c cid u :
  Api.chatId s = Some cid ->
  Api.unauthorized_message u (s, c) =
  match message u with
  | Some m =>
      if String.eqb (pretty (chat_id m)) cid then (Ret false, (s, c), [])
      else (Ret true, (s, c),
            [Log Warning ("Received message from unauthorized chat: "
                          +:+ pretty (chat_id m))])
  | None => (Ret false, (s, c), [])
  end.
Proof.
  intros H. unfold Api.unauthorized_message.
  destruct (message u) as [m|]; [|done].
  rewrite bind_eq, (Api_chatId_toString_eq _ _ _ H), prepend_nil.
  destruct (String.eqb _ _); cbn [negb]; by msimpl.
Qed.

Lemma unauthorized_callback_eq (s : Api.TelegramAPI) c cid u :
  Api.chatId s = Some cid ->
  Api.unauthorized_callback u (s, c) =
  match callback_query u with
  | Some cq =>
      match cq_message_chat_id cq with
      | None => (Throw TypeError, (s, c), [])
      | Some chat =>
          if String.eqb (pretty chat) cid then (Ret false, (s, c), [])
          else (Ret true, (s, c),
                [Log Warning ("Received callback from unauthorized chat: "
                              +:+ pretty chat)])
      end
  | None => (Ret false, (s, c), [])
  end.
Proof.
  intros H. unfold Api.unauthorized_callback.
  destruct (callback_query u) as [cq|]; [|done].
  destruct (cq_message_chat_id cq) as [chat|]; [|done].
  rewrite bind_eq, (Api_chatId_toString_eq _ _ _ H), prepend_nil.
  destruct (String.eqb _ _); cbn [negb]; by msimpl.
Qed.



(** ** Callback routing *)

Lemma join_split c s : JS.join (String c EmptyString) (JS.split c s) = s.
Proof.
  induction s as [|a r IH]; [reflexivity|]. cbn [JS.split].
  destruct (Ascii.eqb a c) eqn:E.
  - apply Ascii.eqb_eq in E. subst a.
    destruct (JS.split c r) as [|h t] eqn:Es; cbn in *; by subst.
  - destruct (JS.split c r) as [|h t] eqn:Es; cbn in *; [by subst|].
    destruct t; cbn in *; by subst.
Qed.

(** Splitting at every separator, taking the head and joining the rest is
    cutting at the first separator. *)
Lemma split_first_spec c s :
  match split_first c s with
  | Some (h, t) =>
      JS.includes c s = true /\
      exists params, JS.split c s = h :: params /\
                     JS.join (String c EmptyString) params = t
  | None => JS.includes c s = false
  end.
Proof.
  induction s as [|a r IH]; [reflexivity|]. cbn [split_first JS.includes JS.split].
  destruct (Ascii.eqb a c) eqn:E; cbn [orb].
  - split; [done|]. eexists. split; [done|]. apply join_split.
  - destruct (split_first c r) as [[h t]|]; [|done].
    destruct IH as (Hi & params & Hs & Hj). split; [done|].
    exists params. by rewrite Hs.
Qed.

(** The handler calls of the dispatch block of a callback query, once the
    acknowledgement has gone through, are those of [route]. *)
Lemma handle_callback_route net cq (s : Api.TelegramAPI) c :
  result (Api.send (AnswerCallbackQuery (cq_id cq))
            (fun t => serve_post net t (AnswerCallbackQuery (cq_id cq))) (s, c))
  = Ret tt ->
  invocations (trace (Api.handle_callback net cq (s, c)))
  = route (Api.commandHandlers s) cq.
Proof.
  intros Hack. unfold Api.handle_callback. rewrite bind_emit_eq. cbv beta.
  rewrite trace_prepend, invocations_app. cbn [invocations omap app].
  rewrite bind_eq.
  pose proof (send_preserves (AnswerCallbackQuery (cq_id cq))
    (fun t => serve_post net t (AnswerCallbackQuery (cq_id cq))) s c) as Hp.
  pose proof (send_transport_events (AnswerCallbackQuery (cq_id cq))
    (fun t => serve_post net t (AnswerCallbackQuery (cq_id cq))) (s, c)) as Ht.
  destruct (Api.send _ _ _) as [[r [s1 c1]] t1]. cbn in Hack, Hp, Ht. subst.
  rewrite trace_prepend, invocations_app, (invocations_transport _ Ht).
  rewrite bind_get_eq. unfold route. cbn [app].
  destruct (Api.commandHandlers s !! data cq) as [h|].
  { by rewrite invoke_eq. }
  pose proof (split_first_spec "_" (data cq)) as Hsp.
  destruct (split_first "_" (data cq)) as [[command param]|].
  - destruct Hsp as (Hi & params & Hs & Hj). rewrite Hi, Hs.
    destruct (Api.commandHandlers s !! command) as [h|].
    + rewrite invoke_eq. cbn. by rewrite Hj.
    + by rewrite emit_eq.
  - rewrite Hsp, bind_emit_eq. cbv beta.
    rewrite trace_prepend, invocations_app. cbn [invocations omap app].
    rewrite bind_eq.
    pose proof (sendMessage_transport_events net
      ("Command not implemented: " +:+ data cq) (s, c1)) as Hm.
    destruct (Api.sendMessage _ _ _) as [[[b|e|] w2] t2]; cbn in Hm; msimpl;
      unfold trace; cbn [snd]; rewrite ?app_nil_r;
      by apply invocations_transport.
Qed.

Lemma Legacy_send_eq {A} r (serve : nat -> reply A) (s : Legacy.TelegramAPI) c :
  Legacy.send r serve (s, c) =
  match Legacy.api s with
  | None => (Throw TypeError, (s, c), [])
  | Some _ =>
      match serve c with
      | Resolved a => (Ret a, (s, Datatypes.S c), [Http r])
      | Rejected err =>
          (Throw (err_message err), (s, Datatypes.S c),
           [Http r; Log Error ("Telegram API error: " +:+ Api.errorMessage err)])
      end
  end.
Proof.
  unfold Legacy.send. rewrite bind_get_eq.
  destruct (Legacy.api s); [|done]. msimpl.
  destruct (serve c); by msimpl.
Qed.

Lemma Legacy_invoke_eq key h a (w : Legacy.TelegramAPI * nat) :
  Legacy.invoke key h a w =
  (match h a with
   | Ret _ => Ret tt
   | Throw e => Throw e
   | ThrowNullish => ThrowNullish
   end, w, [Invoke key a]).
Proof. unfold Legacy.invoke. msimpl. by destruct (h a) as [[]|e|]. Qed.

(** The earlier copy routes callback queries the same way. *)
Lemma Legacy_processUpdate_route net u cq (s : Legacy.TelegramAPI) c :
  callback_query u = Some cq ->
  message u = None ->
  result (Legacy.send (AnswerCallbackQuery (cq_id cq))
            (fun t => serve_post net t (AnswerCallbackQuery (cq_id cq))) (s, c))
  = Ret tt ->
  invocations (trace (Legacy.processUpdate net u (s, c)))
  = route (Legacy.commandHandlers s) cq.
Proof.
  intros Hq Hm Hack. unfold Legacy.processUpdate.
  rewrite try_catch_eq, Hq, Hm, bind_assoc_eq, bind_eq.
  rewrite Legacy_send_eq in *.
  destruct (Legacy.api s); [|done].
  destruct (serve_post net c _) as [[]|err]; [|done].
  rewrite bind_assoc_eq, bind_get_eq. unfold route.
  destruct (Legacy.commandHandlers s !! data cq) as [h|].
  { rewrite bind_eq, Legacy_invoke_eq.
    destruct (h (ArgsCallback cq)) as [[]|e|]; by msimpl. }
  pose proof (split_first_spec "_" (data cq)) as Hsp.
  destruct (split_first "_" (data cq)) as [[command param]|].
  - destruct Hsp as (Hi & params & Hs & Hj). rewrite Hi, Hs.
    destruct (Legacy.commandHandlers s !! command) as [h|]; [|by msimpl].
    rewrite bind_eq, Legacy_invoke_eq, Hj.
    destruct (h (ArgsCallbackParam cq param)) as [[]|e|]; by msimpl.
  - rewrite Hsp. by msimpl.
Qed.

(** [processUpdate] on an authorized callback query is its dispatch block
    followed, when that throws, by the [catch] block. *)
Lemma processUpdate_authorized_callback net u cq chat (s : Api.TelegramAPI) c cid :
  callback_query u = Some cq ->
  message u = None ->
  Api.chatId s = Some cid ->
  cq_message_chat_id cq = Some chat ->
  pretty chat = cid ->
  Api.processUpdate net u (s, c) =
  match Api.handle_callback net cq (s, c) with
  | (Ret a, w1, t1) => (Ret a, w1, t1)
  | (Throw e, w1, t1) => prepend t1 (Api.report_error net e w1)
  | (ThrowNullish, w1, t1) => (Throw TypeError, w1, t1)
  end.
Proof.
  intros Hq Hm Hc Hchat Hid. unfold Api.processUpdate, Api.try_block.
  rewrite try_catch_eq, bind_eq, (unauthorized_message_eq _ _ _ _ Hc), Hm.
  rewrite prepend_nil, bind_eq, (unauthorized_callback_eq _ _ _ _ Hc), Hq, Hchat.
  apply String.eqb_eq in Hid. rewrite Hid, prepend_nil, bind_eq.
  destruct (Api.handle_callback net cq (s, c)) as [[[[]|e|] w1] t1]; [|done..].
  msimpl. by rewrite app_nil_r.
Qed.

(** C7.  A callback query that reaches the dispatch (it comes from the
    configured chat and its acknowledgement went through) is routed as the
    specification says: the handler registered under the whole data string
    if there is one; otherwise, when the data contains an underscore, the
    handler registered under what precedes the first underscore, called
    with what follows it; no other handler is called.  The earlier copy of
    the class, which has no chat filter, routes in the same way. *)
Theorem C7_callback_routing net (s : Api.TelegramAPI) (s' : Legacy.TelegramAPI)
    c cid u cq chat :
  callback_query u = Some cq ->
  message u = None ->
  Api.chatId s = Some cid ->
  cq_message_chat_id cq = Some chat ->
  pretty chat = cid ->
  result (Api.send (AnswerCallbackQuery (cq_id cq))
            (fun t => serve_post net t (AnswerCallbackQuery (cq_id cq))) (s, c))
  = Ret tt ->
  result (Legacy.send (AnswerCallbackQuery (cq_id cq))
            (fun t => serve_post net t (AnswerCallbackQuery (cq_id cq))) (s', c))
  = Ret tt ->
  invocations (trace (Api.processUpdate net u (s, c)))
  = route (Api.commandHandlers s) cq /\
  invocations (trace (Legacy.processUpdate net u (s', c)))
  = route (Legacy.commandHandlers s') cq.
Proof.
  intros Hq Hm Hc Hchat Hid Hack Hack'. split.
  - rewrite (processUpdate_authorized_callback _ _ _ _ _ _ _ Hq Hm Hc Hchat Hid).
    rewrite <- (handle_callback_route net cq s c Hack).
    destruct (Api.handle_callback net cq (s, c)) as [[[[]|e|] w1] t1];
      [done| |done].
    rewrite trace_prepend, invocations_app.
    rewrite (invocations_transport _ (report_error_transport_events _ _ _)).
    by rewrite app_nil_r.
  - by apply Legacy_processUpdate_route.
Qed.

(** The scenario of the specification: [file_42] with no handler for
    [file_42] and one for [file]. *)
Lemma C7_file_42_witness :
  Api.commandHandlers api_configured !! "file_42" = None /\
  invocations (trace (Api.processUpdate quiet file_42 (api_configured, 0%nat)))
  = [("file", ArgsCallbackParam file_42_query "42")] /\
  invocations (trace (Legacy.processUpdate quiet file_42 (legacy_configured, 0%nat)))
  = [("file", ArgsCallbackParam file_42_query "42")].
Proof.
  split; [by vm_compute|].
  apply (C7_callback_routing quiet api_configured legacy_configured 0%nat
           "42" file_42 file_42_query 42); by vm_compute.
Defined.

(** C7, as stated, fails for a press whose acknowledgement is refused.
    [file_42] comes from the configured chat, no handler is registered
    under [file_42] and one is under [file], but the service answers
    [answerCallbackQuery] with HTTP 400: the dispatcher awaits the
    acknowledgement before it looks for a handler, so neither copy of the
    class calls the [file] handler. *)
Lemma C7_refused_acknowledgement_counterexample :
  callback_query file_42 = Some file_42_query /\
  Api.commandHandlers api_configured !! "file_42" = None /\
  Api.commandHandlers api_configured !! "file" = Some returns /\
  route (Api.commandHandlers api_configured) file_42_query
  = [("file", ArgsCallbackParam file_42_query "42")] /\
  invocations
    (trace (Api.processUpdate expired_query file_42 (api_configured, 0%nat)))
  = [] /\
  invocations
    (trace (Legacy.processUpdate expired_query file_42
              (legacy_configured, 0%nat)))
  = [] /\
  ~ (forall net,
       invocations (trace (Api.processUpdate net file_42 (api_configured, 0%nat)))
       = route (Api.commandHandlers api_configured) file_42_query).
Proof.
  repeat apply conj; try by vm_compute.
  intros H. specialize (H expired_query). vm_compute in H. discriminate.
Qed.

(** ** Failure isolation *)

Lemma transport_not_invoke t key a :
  Forall transport_event t -> Invoke key a ∉ t.
Proof.
  intros H Hin. rewrite Forall_forall in H. by apply H in Hin.
Qed.

(** A handler that throws makes the dispatch block throw the same error. *)
Lemma handle_callback_throw net cq (s : Api.TelegramAPI) c key a h e :
  Api.commandHandlers s !! key = Some h ->
  h a = Throw e ->
  Invoke key a ∈ trace (Api.handle_callback net cq (s, c)) ->
  result (Api.handle_callback net cq (s, c)) = Throw e.
Proof.
  intros Hk Hh. unfold Api.handle_callback. rewrite bind_emit_eq. cbv beta.
  rewrite trace_prepend, result_prepend, bind_eq.
  pose proof (send_preserves (AnswerCallbackQuery (cq_id cq))
    (fun t => serve_post net t (AnswerCallbackQuery (cq_id cq))) s c) as Hp.
  pose proof (send_transport_events (AnswerCallbackQuery (cq_id cq))
    (fun t => serve_post net t (AnswerCallbackQuery (cq_id cq))) (s, c)) as Ht.
  destruct (Api.send _ _ _) as [[[[]|e0|] [s1 c1]] t1]; cbn in Hp, Ht; subst.
  2,3: by intros [Hin|Hin]%elem_of_app;
    [apply list_elem_of_singleton in Hin|apply transport_not_invoke in Hin].
  rewrite trace_prepend, result_prepend, bind_get_eq.
  assert (forall k h0 a0 (w : Api.TelegramAPI * nat),
    Api.commandHandlers s !! k = Some h0 ->
    Invoke key a ∈ [Log Info ("Received callback query: " +:+ data cq)]
                   ++ t1 ++ trace (Api.invoke k h0 a0 w) ->
    result (Api.invoke k h0 a0 w) = Throw e) as Hinv.
  { intros k h0 a0 w Hk0. rewrite invoke_eq.
    intros [Hin|[Hin|Hin]%elem_of_app]%elem_of_app.
    - by apply list_elem_of_singleton in Hin.
    - by apply transport_not_invoke in Hin.
    - apply list_elem_of_singleton in Hin. injection Hin as ? ?. subst.
      rewrite Hk in Hk0. injection Hk0 as <-. by rewrite Hh. }
  assert (forall t2, Forall transport_event t2 ->
    Invoke key a ∈ [Log Info ("Received callback query: " +:+ data cq)]
                   ++ t1 ++ t2 -> False) as Hno.
  { intros t2 H2 [Hin|[Hin|Hin]%elem_of_app]%elem_of_app.
    - by apply list_elem_of_singleton in Hin.
    - by apply transport_not_invoke in Hin.
    - by apply transport_not_invoke in Hin. }
  destruct (Api.commandHandlers s !! data cq) as [h0|] eqn:E0; [by apply Hinv|].
  destruct (JS.includes "_" (data cq)).
  - destruct (JS.split "_" (data cq)) as [|command params].
    { intros Hin. by apply Hno in Hin; [|constructor]. }
    destruct (Api.commandHandlers s !! command) as [h0|] eqn:E1; [by apply Hinv|].
    intros Hin. by apply Hno in Hin; [|repeat constructor].
  - intros Hin. exfalso. revert Hin. apply Hno.
    rewrite bind_emit_eq. cbv beta. rewrite trace_prepend.
    apply Forall_app. split; [by repeat constructor|]. rewrite bind_eq.
    pose proof (sendMessage_transport_events net
      ("Command not implemented: " +:+ data cq) (s, c1)) as Hm.
    destruct (Api.sendMessage _ _ _) as [[[b|e1|] w2] t2]; cbn in Hm; msimpl;
      unfold trace; cbn [snd]; by rewrite ?app_nil_r.
Qed.

Lemma handle_message_throw net m (s : Api.TelegramAPI) c key a h e :
  Api.commandHandlers s !! key = Some h ->
  h a = Throw e ->
  Invoke key a ∈ trace (Api.handle_message net m (s, c)) ->
  result (Api.handle_message net m (s, c)) = Throw e.
Proof.
  intros Hk Hh. unfold Api.handle_message.
  destruct (text m) as [[|ch txt]|]; [by intros ?%elem_of_nil| |by intros ?%elem_of_nil].
  rewrite bind_emit_eq. cbv beta. rewrite trace_prepend, result_prepend, bind_get_eq.
  assert (forall k h0 a0 t0 (w : Api.TelegramAPI * nat),
    Api.commandHandlers s !! k = Some h0 ->
    Forall transport_event t0 ->
    Invoke key a ∈ t0 ++ trace (Api.invoke k h0 a0 w) ->
    result (Api.invoke k h0 a0 w) = Throw e) as Hinv.
  { intros k h0 a0 t0 w Hk0 H0. rewrite invoke_eq.
    intros [Hin|Hin]%elem_of_app.
    - by apply transport_not_invoke in Hin.
    - apply list_elem_of_singleton in Hin. injection Hin as ? ?. subst.
      rewrite Hk in Hk0. injection Hk0 as <-. by rewrite Hh. }
  destruct (JS.startsWith "/" (String ch txt)).
  - cbv zeta.
    destruct (Api.commandHandlers s !! JS.toLowerCase _) as [h0|] eqn:E0.
    + rewrite bind_emit_eq. cbv beta. rewrite trace_prepend, result_prepend.
      rewrite app_assoc. apply Hinv; [done|by repeat constructor].
    + intros Hin. exfalso. revert Hin. apply transport_not_invoke.
      apply Forall_app. split; [by repeat constructor|].
      rewrite bind_emit_eq. cbv beta. rewrite trace_prepend.
      apply Forall_app. split; [by repeat constructor|]. rewrite bind_eq.
      match goal with |- context [Api.sendMessage net ?b ?w] =>
        pose proof (sendMessage_transport_events net b w) as Hm;
        destruct (Api.sendMessage net b w) as [[[b'|e1|] w2] t2] end;
        cbn in Hm; msimpl; unfold trace; cbn [snd]; by rewrite ?app_nil_r.
  - destruct (Api.commandHandlers s !! "message") as [h0|] eqn:E0.
    + apply Hinv; [done|by repeat constructor].
    + intros Hin. exfalso. revert Hin. apply transport_not_invoke.
      by repeat constructor.
Qed.

Lemma unauthorized_message_preserves u : preserves (Api.unauthorized_message u).
Proof.
  unfold Api.unauthorized_message.
  repeat first [ apply chatId_toString_preserves | progress preserves_tac ].
Qed.

Lemma unauthorized_callback_preserves u : preserves (Api.unauthorized_callback u).
Proof.
  unfold Api.unauthorized_callback.
  repeat first [ apply chatId_toString_preserves | progress preserves_tac ].
Qed.

Lemma unauthorized_message_events u (w : Api.TelegramAPI * nat) :
  Forall transport_event (trace (Api.unauthorized_message u w)).
Proof.
  destruct w as [s c]. unfold Api.unauthorized_message, Api.chatId_toString.
  destruct (message u); [|by constructor]. msimpl.
  destruct (Api.chatId s); msimpl; [|by constructor].
  destruct (negb _); msimpl; by repeat constructor.
Qed.

Lemma unauthorized_callback_events u (w : Api.TelegramAPI * nat) :
  Forall transport_event (trace (Api.unauthorized_callback u w)).
Proof.
  destruct w as [s c]. unfold Api.unauthorized_callback, Api.chatId_toString.
  destruct (callback_query u) as [cq|]; [|by constructor].
  destruct (cq_message_chat_id cq); [|by constructor]. msimpl.
  destruct (Api.chatId s); msimpl; [|by constructor].
  destruct (negb _); msimpl; by repeat constructor.
Qed.

(** A handler that throws makes the [try] block throw the same error. *)
Lemma try_block_throw net u (s : Api.TelegramAPI) c key a h e :
  Api.commandHandlers s !! key = Some h ->
  h a = Throw e ->
  Invoke key a ∈ trace (Api.try_block net u (s, c)) ->
  result (Api.try_block net u (s, c)) = Throw e.
Proof.
  intros Hk Hh. unfold Api.try_block. rewrite bind_eq.
  pose proof (unauthorized_message_preserves u s c) as Hp.
  pose proof (unauthorized_message_events u (s, c)) as Ht.
  destruct (Api.unauthorized_message u (s, c)) as [[[stop|e0|] [s1 c1]] t1];
    cbn in Hp, Ht; subst; [|by intros ?%transport_not_invoke..].
  destruct stop.
  { msimpl. unfold trace. cbn [snd]. rewrite app_nil_r.
    by intros ?%transport_not_invoke. }
  rewrite trace_prepend, result_prepend, bind_eq.
  pose proof (unauthorized_callback_preserves u s c1) as Hp.
  pose proof (unauthorized_callback_events u (s, c1)) as Ht2.
  destruct (Api.unauthorized_callback u (s, c1)) as [[[stop|e0|] [s2 c2]] t2];
    cbn in Hp, Ht2; subst.
  2,3: by intros [?%transport_not_invoke|?%transport_not_invoke]%elem_of_app.
  destruct stop.
  { msimpl. unfold trace. cbn [snd]. rewrite app_nil_r.
    intros [?%transport_not_invoke|?%transport_not_invoke]%elem_of_app; done. }
  rewrite trace_prepend, result_prepend, bind_eq.
  intros [Hin|[Hin|Hin]%elem_of_app]%elem_of_app;
    [by apply transport_not_invoke in Hin|by apply transport_not_invoke in Hin|].
  revert Hin.
  assert (forall (w : Api.TelegramAPI * nat) (t : list event),
    w.1 = s ->
    Invoke key a ∈ t ++ trace
      (match message u with
       | Some m => Api.handle_message net m
       | None => mret tt
       end w) ->
    result (match message u with
            | Some m => Api.handle_message net m
            | None => mret tt
            end w) = Throw e \/ Invoke key a ∈ t) as Hmsg.
  { intros [s3 c3] t Hs [Hin|Hin]%elem_of_app; [by right|]. left.
    cbn in Hs. subst s3. destruct (message u) as [m|].
    - by apply (handle_message_throw net m s c3 key a h e).
    - by apply elem_of_nil in Hin. }
  destruct (callback_query u) as [cq|].
  - pose proof (handle_callback_preserves net cq s c2) as Hp.
    pose proof (handle_callback_throw net cq s c2 key a h e Hk Hh) as Hcb.
    destruct (Api.handle_callback net cq (s, c2)) as [[[[]|e0|] [s3 c3]] t3];
      cbn in Hp; subst; [|exact Hcb..].
    rewrite trace_prepend, result_prepend.
    intros [Hr|Hin]%Hmsg; [done| |done]. by apply Hcb in Hin.
  - msimpl. intros [Hr|Hin]%(Hmsg _ []); [done| |done].
    by apply elem_of_nil in Hin.
Qed.

(** A [null] or [undefined] leaves the dispatch only when a registered
    handler threw it. *)
Lemma handle_callback_nullish net cq (s : Api.TelegramAPI) c :
  result (Api.handle_callback net cq (s, c)) = ThrowNullish ->
  exists key h a,
    Api.commandHandlers s !! key = Some h /\ h a = ThrowNullish /\
    Invoke key a ∈ trace (Api.handle_callback net cq (s, c)).
Proof.
  unfold Api.handle_callback. rewrite bind_emit_eq. cbv beta.
  rewrite trace_prepend, result_prepend, bind_eq.
  pose proof (send_preserves (AnswerCallbackQuery (cq_id cq))
    (fun t => serve_post net t (AnswerCallbackQuery (cq_id cq))) s c) as Hp.
  pose proof (send_throws_errors (AnswerCallbackQuery (cq_id cq))
    (fun t => serve_post net t (AnswerCallbackQuery (cq_id cq))) (s, c)) as Hn.
  destruct (Api.send _ _ _) as [[[[]|e0|] [s1 c1]] t1]; cbn in Hp, Hn; subst;
    [|done..].
  rewrite trace_prepend, result_prepend, bind_get_eq.
  assert (forall k h0 a0 (w : Api.TelegramAPI * nat),
    Api.commandHandlers s !! k = Some h0 ->
    result (Api.invoke k h0 a0 w) = ThrowNullish ->
    exists key h a,
      Api.commandHandlers s !! key = Some h /\ h a = ThrowNullish /\
      Invoke key a ∈ [Log Info ("Received callback query: " +:+ data cq)]
                     ++ t1 ++ trace (Api.invoke k h0 a0 w)) as Hinv.
  { intros k h0 a0 w Hk0. rewrite invoke_eq. unfold result, trace.
    cbn [fst snd]. intros Hr. exists k, h0, a0. split; [done|].
    split; [by destruct (h0 a0)|].
    apply elem_of_app. right. apply elem_of_app. right. apply list_elem_of_here. }
  destruct (Api.commandHandlers s !! data cq) as [h0|] eqn:E0; [by apply Hinv|].
  destruct (JS.includes "_" (data cq)).
  - destruct (JS.split "_" (data cq)) as [|command params]; [done|].
    destruct (Api.commandHandlers s !! command) as [h0|] eqn:E1;
      [by apply Hinv|done].
  - rewrite bind_emit_eq. cbv beta. rewrite result_prepend, bind_eq.
    match goal with |- context [Api.sendMessage net ?b ?w] =>
      destruct (sendMessage_returns net b w) as [r Hr];
      destruct (Api.sendMessage net b w) as [[[b'|e1|] w2] t2] end;
      by cbn in Hr |- *.
Qed.

Lemma handle_message_nullish net m (s : Api.TelegramAPI) c :
  result (Api.handle_message net m (s, c)) = ThrowNullish ->
  exists key h a,
    Api.commandHandlers s !! key = Some h /\ h a = ThrowNullish /\
    Invoke key a ∈ trace (Api.handle_message net m (s, c)).
Proof.
  unfold Api.handle_message.
  destruct (text m) as [[|ch txt]|]; [done| |done].
  rewrite bind_emit_eq. cbv beta. rewrite trace_prepend, result_prepend, bind_get_eq.
  assert (forall k h0 a0 t0 (w : Api.TelegramAPI * nat),
    Api.commandHandlers s !! k = Some h0 ->
    result (Api.invoke k h0 a0 w) = ThrowNullish ->
    exists key h a,
      Api.commandHandlers s !! key = Some h /\ h a = ThrowNullish /\
      Invoke key a ∈ t0 ++ trace (Api.invoke k h0 a0 w)) as Hinv.
  { intros k h0 a0 t0 w Hk0. rewrite invoke_eq. unfold result, trace.
    cbn [fst snd]. intros Hr. exists k, h0, a0. split; [done|].
    split; [by destruct (h0 a0)|].
    apply elem_of_app. right. apply list_elem_of_here. }
  destruct (JS.startsWith "/" (String ch txt)).
  - cbv zeta.
    destruct (Api.commandHandlers s !! JS.toLowerCase _) as [h0|] eqn:E0.
    + rewrite bind_emit_eq. cbv beta. rewrite trace_prepend, result_prepend.
      rewrite app_assoc. by apply Hinv.
    + rewrite bind_emit_eq. cbv beta. rewrite result_prepend, bind_eq.
      match goal with |- context [Api.sendMessage net ?b ?w] =>
      destruct (sendMessage_returns net b w) as [r Hr];
      destruct (Api.sendMessage net b w) as [[[b'|e1|] w2] t2] end;
      by cbn in Hr |- *.
  - destruct (Api.commandHandlers s !! "message") as [h0|] eqn:E0; [|done].
    by apply Hinv.
Qed.

Lemma try_block_nullish net u (s : Api.TelegramAPI) c :
  result (Api.try_block net u (s, c)) = ThrowNullish ->
  exists key h a,
    Api.commandHandlers s !! key = Some h /\ h a = ThrowNullish /\
    Invoke key a ∈ trace (Api.try_block net u (s, c)).
Proof.
  unfold Api.try_block. rewrite bind_eq.
  pose proof (unauthorized_message_preserves u s c) as Hp.
  destruct (Api.unauthorized_message u (s, c)) as [[[stop|e0|] [s1 c1]] t1] eqn:E1;
    cbn in Hp; subst; [|done|].
  2:{ exfalso. revert E1. unfold Api.unauthorized_message, Api.chatId_toString.
      destruct (message u); [|done]. rewrite bind_assoc_eq, bind_get_eq.
      destruct (Api.chatId s); [|done]. rewrite bind_ret_eq.
      destruct (negb _); by msimpl. }
  destruct stop; [by msimpl|].
  rewrite trace_prepend, result_prepend, bind_eq.
  pose proof (unauthorized_callback_preserves u s c1) as Hp.
  destruct (Api.unauthorized_callback u (s, c1)) as [[[stop|e0|] [s2 c2]] t2] eqn:E2;
    cbn in Hp; subst; [|done|].
  2:{ exfalso. revert E2. unfold Api.unauthorized_callback, Api.chatId_toString.
      destruct (callback_query u) as [cq|]; [|done].
      destruct (cq_message_chat_id cq); [|done].
      rewrite bind_assoc_eq, bind_get_eq.
      destruct (Api.chatId s); [|done]. rewrite bind_ret_eq.
      destruct (negb _); by msimpl. }
  destruct stop; [by msimpl|].
  rewrite trace_prepend, result_prepend, bind_eq.
  assert (forall t (x : outcome unit * (Api.TelegramAPI * nat) * list event),
    (exists key h a,
       Api.commandHandlers s !! key = Some h /\ h a = ThrowNullish /\
       Invoke key a ∈ trace x) ->
    exists key h a,
      Api.commandHandlers s !! key = Some h /\ h a = ThrowNullish /\
      Invoke key a ∈ t ++ trace x) as Hin.
  { intros t x (key & h & a & H1 & H2 & H3). exists key, h, a.
    split; [done|]. split; [done|]. apply elem_of_app. by right. }
  assert (forall (c' : nat),
    result (match message u with
            | Some m => Api.handle_message net m
            | None => mret tt
            end (s, c')) = ThrowNullish ->
    exists key h a,
      Api.commandHandlers s !! key = Some h /\ h a = ThrowNullish /\
      Invoke key a ∈ trace (match message u with
                            | Some m => Api.handle_message net m
                            | None => mret tt
                            end (s, c'))) as Hmsg.
  { intros c'. destruct (message u) as [m|]; [|done].
    apply handle_message_nullish. }
  destruct (callback_query u) as [cq|].
  - pose proof (handle_callback_preserves net cq s c2) as Hp.
    pose proof (handle_callback_nullish net cq s c2) as Hcb.
    destruct (Api.handle_callback net cq (s, c2)) as [[[[]|e0|] [s3 c3]] t3];
      cbn in Hp; subst.
    + rewrite trace_prepend, result_prepend. intros Hr.
      rewrite !app_assoc. apply Hin. by apply Hmsg.
    + done.
    + intros _. rewrite app_assoc. apply Hin. by apply Hcb.
  - rewrite ret_eq. cbn [prepend fst snd app].
    intros Hr. rewrite app_assoc. apply Hin. apply Hmsg.
    revert Hr. unfold result. cbn [fst]. by destruct (match message u with _ => _ end _) as [[? ?] ?].
Qed.

(** When no registered handler throws [null] or [undefined], every run of
    [processUpdate] returns normally with the object as it was: no
    exception escapes it. *)
Lemma processUpdate_shape net u (s : Api.TelegramAPI) c :
  handlers_throw_errors s ->
  exists c', Api.processUpdate net u (s, c)
             = (Ret tt, (s, c'), trace (Api.processUpdate net u (s, c))).
Proof.
  intros Hs. pose proof (processUpdate_preserves net u s c) as Hp.
  assert (exists a, result (Api.processUpdate net u (s, c)) = Ret a) as [[] Hr].
  { unfold Api.processUpdate. rewrite try_catch_eq.
    pose proof (try_block_nullish net u s c) as Hn.
    destruct (Api.try_block net u (s, c)) as [[[[]|e|] w1] t1].
    - by exists tt.
    - rewrite result_prepend. apply report_error_returns.
    - destruct Hn as (key & h & a & Hk & Hh & _); [done|].
      exfalso. exact (Hs key h a Hk Hh). }
  destruct (Api.processUpdate net u (s, c)) as [[r [s1 c1]] t1].
  unfold final, result, trace in *. cbn [fst snd] in *. subst. by exists c1.
Qed.

(** Whatever the handlers do, [processUpdate] leaves the object as it
    was, and what it ends in is a return or an error. *)
Lemma processUpdate_run net u (s : Api.TelegramAPI) c :
  exists r c',
    Api.processUpdate net u (s, c)
    = (r, (s, c'), trace (Api.processUpdate net u (s, c))) /\
    r <> ThrowNullish.
Proof.
  pose proof (processUpdate_preserves net u s c) as Hp.
  pose proof (processUpdate_throws_errors net u (s, c)) as Hn.
  destruct (Api.processUpdate net u (s, c)) as [[r [s1 c1]] t1].
  unfold final, result, trace in *. cbn [fst snd] in *. subst. by exists r, c1.
Qed.

(** A handler that throws while an update is processed is caught: the
    error is logged and, the object being connected, posted to the chat. *)
Lemma processUpdate_reports net u (s : Api.TelegramAPI) c key a h e tok :
  Api.commandHandlers s !! key = Some h ->
  h a = Throw e ->
  Api.connected s = true ->
  Api.api s = Some tok ->
  Invoke key a ∈ trace (Api.processUpdate net u (s, c)) ->
  Log Error ("Error processing update: " +:+ e)
    ∈ trace (Api.processUpdate net u (s, c)) /\
  Http (SendMessage (Api.chatId s) ("Error processing command: " +:+ e))
    ∈ trace (Api.processUpdate net u (s, c)).
Proof.
  intros Hk Hh Hc Ha. unfold Api.processUpdate. rewrite try_catch_eq.
  pose proof (try_block_throw net u s c key a h e Hk Hh) as Hthrow.
  pose proof (processUpdate_preserves net u s c) as Hp.
  unfold Api.processUpdate in Hp. rewrite try_catch_eq in Hp.
  destruct (Api.try_block net u (s, c)) as [[[[]|e0|] [s1 c1]] t1].
  { intros Hin. by apply Hthrow in Hin. }
  2:{ intros Hin. by apply Hthrow in Hin. }
  rewrite final_prepend in Hp.
  pose proof (report_error_preserves net e0 s1 c1) as Hp'.
  assert (s1 = s) as -> by (by rewrite <- Hp, Hp').
  rewrite trace_prepend.
  intros [Hin|Hin]%elem_of_app.
  2:{ by apply transport_not_invoke in Hin;
        [|apply report_error_transport_events]. }
  apply Hthrow in Hin. cbn in Hin. injection Hin as ->.
  rewrite report_error_eq, trace_prepend. split.
  - apply elem_of_app. right. apply elem_of_app. left. by apply list_elem_of_here.
  - apply elem_of_app. right. apply elem_of_app. right. cbn [trace snd].
    pose proof (sendMessage_requests net ("Error processing command: " +:+ e)
                  s c1 tok Hc Ha) as Hreq.
    unfold requests in Hreq.
    destruct (omap _ _) as [|r rs] eqn:E; [done|]. injection Hreq as ->.
    assert (SendMessage (Api.chatId s) ("Error processing command: " +:+ e)
              ∈ omap (fun e => match e with Http r => Some r | _ => None end)
                  (trace (Api.sendMessage net
                            ("Error processing command: " +:+ e) (s, c1))))
      as Hin by (rewrite E; apply list_elem_of_here).
    apply list_elem_of_omap in Hin as (ev & Hev & Hsome).
    destruct ev; try done. by injection Hsome as ->.
Qed.

(** When no registered handler throws [null] or [undefined], a batch is
    processed to its end: the run returns, keeps the object, and its trace
    is the traces of the updates one after the other. *)
Lemma forEach_processUpdate_returns net l (s : Api.TelegramAPI) c :
  handlers_throw_errors s ->
  result (forEach (Api.processUpdate net) l (s, c)) = Ret tt.
Proof.
  intros Hs. revert c. induction l as [|u l IH]; intros c; [done|].
  cbn [forEach]. rewrite bind_eq.
  destruct (processUpdate_shape net u s c Hs) as [c2 E2].
  set (t2 := trace (Api.processUpdate net u (s, c))) in *. clearbody t2.
  rewrite E2, result_prepend. apply IH.
Qed.

Lemma forEach_processUpdate_shape net l (s : Api.TelegramAPI) c :
  handlers_throw_errors s ->
  forEach (Api.processUpdate net) l (s, c)
  = (Ret tt, (s, after_batch net l s c),
     trace (forEach (Api.processUpdate net) l (s, c))).
Proof.
  intros Hs.
  pose proof (preserves_forEach (Api.processUpdate net) l
                (processUpdate_preserves net) s c) as Hp.
  pose proof (forEach_processUpdate_returns net l s c Hs) as Hr.
  unfold after_batch.
  destruct (forEach (Api.processUpdate net) l (s, c)) as [[r [s1 c1]] t1].
  unfold final, result, clock_of, trace in *. cbn [fst snd] in *. by subst.
Qed.

Lemma forEach_processUpdate_split net before u after (s : Api.TelegramAPI) c :
  handlers_throw_errors s ->
  forEach (Api.processUpdate net) (before ++ u :: after) (s, c) =
  (Ret tt,
   (s, after_batch net after s
         (clock_of (Api.processUpdate net u (s, after_batch net before s c)))),
   trace (forEach (Api.processUpdate net) before (s, c))
   ++ trace (Api.processUpdate net u (s, after_batch net before s c))
   ++ trace (forEach (Api.processUpdate net) after
               (s, clock_of (Api.processUpdate net u
                               (s, after_batch net before s c))))).
Proof.
  intros Hs.
  pose proof (forEach_processUpdate_shape net before s c Hs) as E1.
  set (t1 := trace (forEach (Api.processUpdate net) before (s, c))) in *.
  set (c1 := after_batch net before s c) in *. clearbody t1 c1.
  destruct (processUpdate_shape net u s c1 Hs) as [c2 E2].
  set (t2 := trace (Api.processUpdate net u (s, c1))) in *.
  replace (clock_of (Api.processUpdate net u (s, c1))) with c2
    by (by rewrite E2).
  clearbody t2.
  pose proof (forEach_processUpdate_shape net after s c2 Hs) as E3.
  set (t3 := trace (forEach (Api.processUpdate net) after (s, c2))) in *.
  set (c3 := after_batch net after s c2) in *. clearbody t3 c3.
  rewrite forEach_app, bind_eq, E1. cbn [forEach].
  rewrite bind_eq, E2, E3. msimpl. by rewrite <- app_assoc.
Qed.

Lemma returns_unit {S} (m : M S unit) w :
  returns_normally m -> result (m w) = Ret tt.
Proof. intros H. by destruct (H w) as [[] ->]. Qed.

Ltac throws_errors_tac :=
  repeat first
    [ apply throws_errors_ret | apply throws_errors_throw
    | apply throws_errors_emit | apply throws_errors_get
    | apply throws_errors_put | apply send_throws_errors
    | apply throws_errors_attempt_index
    | apply throws_errors_forEach; intros ?
    | apply throws_errors_bind; [|intros ?]
    | apply throws_errors_try_catch; intros ?
    | match goal with
      | |- throws_errors (match ?x with _ => _ end) => destruct x
      | |- throws_errors (if ?x then _ else _) => destruct x
      end ].

Lemma handleDisconnection_throws_errors : throws_errors Api.handleDisconnection.
Proof.
  unfold Api.handleDisconnection, Api.setConnected, Api.stopUpdatePolling.
  throws_errors_tac.
Qed.

Lemma getUpdates_throws_errors net : throws_errors (Api.getUpdates net).
Proof.
  unfold Api.getUpdates, Api.getUpdates_request.
  apply throws_errors_bind; [throws_errors_tac|]. intros [offset|];
    [|apply throws_errors_ret].
  apply throws_errors_bind; [by intros w; unfold Api.settle; destruct (Api.send _ _ w) as [[? ?] ?]|].
  intros r. unfold Api.getUpdates_settle.
  destruct r as [result|e|]; throws_errors_tac;
    apply handleDisconnection_throws_errors.
Qed.

Lemma interval_callback_returns net w :
  result (Api.interval_callback net w) = Ret tt.
Proof.
  apply returns_unit. unfold Api.interval_callback.
  apply returns_bind; [apply returns_get|]. intros s.
  destruct (Api.connected s); [|apply returns_ret].
  apply returns_try_catch; [|intros e; apply returns_emit].
  apply throws_errors_bind; [apply getUpdates_throws_errors|]. intros us.
  apply throws_errors_forEach, processUpdate_throws_errors.
Qed.

Lemma checkTelegramUpdates_returns net processing isConnected w :
  result (App.checkTelegramUpdates net processing isConnected w) = Ret tt.
Proof.
  apply returns_unit. unfold App.checkTelegramUpdates.
  destruct (processing || negb isConnected); [apply returns_ret|].
  apply returns_try_finally; [|apply returns_emit].
  apply returns_try_catch; [|intros e; apply returns_emit].
  apply throws_errors_bind; [apply throws_errors_emit|]. intros _.
  apply throws_errors_bind; [apply getUpdates_throws_errors|]. intros us.
  destruct (0 <? length us)%nat; [|apply throws_errors_ret].
  apply throws_errors_bind; [apply throws_errors_emit|]. intros _.
  apply throws_errors_bind; [apply throws_errors_emit|]. intros _.
  apply throws_errors_forEach, processUpdate_throws_errors.
Qed.

(** A cycle of the application that is not skipped ends by clearing the
    flag, however it went. *)
Lemma checkTelegramUpdates_clears_flag net w :
  last (trace (App.checkTelegramUpdates net false true w))
  = Some (SetProcessing false).
Proof.
  unfold App.checkTelegramUpdates. cbn [orb negb]. unfold try_finally.
  destruct (try_catch _ _ w) as [[r w1] t1]. rewrite emit_eq.
  unfold trace. cbn [snd]. apply last_snoc.
Qed.

(** In a batch [before ++ u :: after] processed on a connected object
    none of whose handlers throws [null] or [undefined], a handler that
    throws the error [e] while [u] is processed is caught: processing [u]
    returns normally and leaves the object as it was, the error is logged
    and posted to the chat, and the updates of [after] are processed after
    it; the whole batch returns normally.  Neither poll callback ever
    throws, and the application's one always ends by clearing its flag. *)
Lemma handler_error_is_contained
    net (s : Api.TelegramAPI) c before u after key a h e tok :
  handlers_throw_errors s ->
  Api.commandHandlers s !! key = Some h ->
  h a = Throw e ->
  Api.connected s = true ->
  Api.api s = Some tok ->
  Invoke key a ∈ trace (Api.processUpdate net u (s, after_batch net before s c)) ->
  result (Api.processUpdate net u (s, after_batch net before s c)) = Ret tt /\
  final (Api.processUpdate net u (s, after_batch net before s c)) = s /\
  Log Error ("Error processing update: " +:+ e)
    ∈ trace (Api.processUpdate net u (s, after_batch net before s c)) /\
  Http (SendMessage (Api.chatId s) ("Error processing command: " +:+ e))
    ∈ trace (Api.processUpdate net u (s, after_batch net before s c)) /\
  forEach (Api.processUpdate net) (before ++ u :: after) (s, c) =
  (Ret tt,
   (s, after_batch net after s
         (clock_of (Api.processUpdate net u (s, after_batch net before s c)))),
   trace (forEach (Api.processUpdate net) before (s, c))
   ++ trace (Api.processUpdate net u (s, after_batch net before s c))
   ++ trace (forEach (Api.processUpdate net) after
               (s, clock_of (Api.processUpdate net u
                               (s, after_batch net before s c))))) /\
  (forall w, result (Api.interval_callback net w) = Ret tt) /\
  (forall processing isConnected w,
     result (App.checkTelegramUpdates net processing isConnected w) = Ret tt) /\
  (forall w, last (trace (App.checkTelegramUpdates net false true w))
             = Some (SetProcessing false)).
Proof.
  intros Hs Hk Hh Hc Ha Hin.
  destruct (processUpdate_shape net u s (after_batch net before s c) Hs)
    as [c2 H2].
  split; [by rewrite H2|]. split; [by rewrite H2|].
  destruct (processUpdate_reports net u s _ key a h e tok Hk Hh Hc Ha Hin)
    as [Hlog Hsend].
  split; [done|]. split; [done|].
  split; [by apply forEach_processUpdate_split|].
  split; [apply interval_callback_returns|].
  split; [apply checkTelegramUpdates_returns|].
  apply checkTelegramUpdates_clears_flag.
Qed.

(** The two scenario objects whose handlers return or throw an error. *)
Lemma api_configured_throws_errors : handlers_throw_errors api_configured.
Proof.
  intros key h a Hk Hh. cbn in Hk.
  apply lookup_insert_Some in Hk as [[_ <-]|[_ Hk]]; [done|].
  apply lookup_insert_Some in Hk as [[_ <-]|[_ Hk]]; [done|].
  by rewrite lookup_empty in Hk.
Qed.

Lemma api_storage_fails_throws_errors : handlers_throw_errors api_storage_fails.
Proof.
  intros key h a Hk Hh. cbn in Hk.
  apply lookup_insert_Some in Hk as [[_ <-]|[_ Hk]]; [done|].
  apply lookup_insert_Some in Hk as [[_ <-]|[_ Hk]]; [done|].
  by rewrite lookup_empty in Hk.
Qed.

(** The batch [storage; file_42] on an object whose [storage] handler
    throws an error: the error is reported and [file_42] is still
    dispatched. *)
Example storage_error_is_contained :
  trace (forEach (Api.processUpdate quiet) [storage_press; file_42]
           (api_storage_fails, 0%nat))
  = [Log Info "Received callback query: storage";
     Http (AnswerCallbackQuery "q6");
     Invoke "storage" (ArgsCallback storage_query);
     Log Error "Error processing update: disk unreadable";
     Http (SendMessage (Some "42") "Error processing command: disk unreadable");
     Log Info "Received callback query: file_42";
     Http (AnswerCallbackQuery "q7");
     Invoke "file" (ArgsCallbackParam file_42_query "42")] /\
  Http (SendMessage (Some "42") "Error processing command: disk unreadable")
    ∈ trace (Api.processUpdate quiet storage_press (api_storage_fails, 0%nat)).
Proof.
  split; [by vm_compute|].
  apply (handler_error_is_contained quiet api_storage_fails 0%nat
           [] storage_press [file_42] "storage" (ArgsCallback storage_query)
           (throws "disk unreadable") "disk unreadable" "token");
    [apply api_storage_fails_throws_errors|by vm_compute
    |reflexivity|reflexivity|reflexivity|].
  vm_compute. apply elem_of_cons. right. apply elem_of_cons. right.
  apply list_elem_of_here.
Qed.

(** C6, at the failing input.  The [storage] handler throws [undefined]
    (or [null], or rejects its promise without a reason) and the poll
    returns the presses [storage] and [file_42].  The [catch] block of
    [processUpdate] reads [error.message] of the value it caught, which
    raises a [TypeError] outside any [try]: [processUpdate] throws, no
    error message is posted to the chat, and the loop over the batch ends.
    [file_42] is neither acknowledged nor dispatched although its handler
    is registered, and the cursor is already at 7, so it is not fetched
    again.  The same happens in the cycle of the application.  Only the
    callback itself survives: its own [catch] logs the [TypeError].  With
    a handler that throws an error object instead, [file_42] is
    dispatched. *)
Theorem C6_thrown_undefined_ends_the_batch :
  Api.commandHandlers api_storage_rejects !! "storage" = Some rejects /\
  Api.commandHandlers api_storage_rejects !! "file" = Some returns /\
  result (Api.processUpdate storage_then_file storage_press
            (api_storage_rejects, 1%nat))
  = Throw TypeError /\
  trace (Api.interval_callback storage_then_file (api_storage_rejects, 0%nat))
  = [Http (GetUpdates 1);
     Log Info "Received callback query: storage";
     Http (AnswerCallbackQuery "q6");
     Invoke "storage" (ArgsCallback storage_query);
     Log Error "Error in update polling: TypeError"] /\
  Api.lastUpdateId
    (final (Api.interval_callback storage_then_file (api_storage_rejects, 0%nat)))
  = 7 /\
  trace (app_interval storage_then_file (api_storage_rejects, 0%nat))
  = [SetProcessing true;
     Http (GetUpdates 1);
     SetLastUpdateTime;
     Log Info "Received 2 updates from Telegram";
     Log Info "Received callback query: storage";
     Http (AnswerCallbackQuery "q6");
     Invoke "storage" (ArgsCallback storage_query);
     Log Error "Update error: TypeError";
     SetProcessing false] /\
  invocations
    (trace (Api.interval_callback storage_then_file (api_storage_fails, 0%nat)))
  = [("storage", ArgsCallback storage_query);
     ("file", ArgsCallbackParam file_42_query "42")].
Proof. repeat apply conj; by vm_compute. Qed.

(** ** The poll cycle and the cursor *)

Lemma send_eq {A} r (serve : nat -> reply A) (s : Api.TelegramAPI) c :
  Api.send r serve (s, c) =
  match Api.api s with
  | None => (Throw TypeError, (s, c), [])
  | Some _ => Api.exchange r serve Api.retry 0 (s, c)
  end.
Proof. unfold Api.send. rewrite bind_get_eq. by destruct (Api.api s). Qed.

(** A [getUpdates] whose first attempt is answered with a batch. *)
Lemma getUpdates_batch net (s : Api.TelegramAPI) c tok us :
  Api.connected s = true ->
  Api.api s = Some tok ->
  serve_getUpdates net c (Api.lastUpdateId s + 1) = Resolved (Some us) ->
  Api.getUpdates net (s, c) =
  (Ret us,
   (match last us with
    | Some u => Api.set_lastUpdateId (update_id u) s
    | None => s
    end, Datatypes.S c),
   [Http (GetUpdates (Api.lastUpdateId s + 1))]).
Proof.
  intros Hc Ha Hs. unfold Api.getUpdates, Api.getUpdates_request.
  rewrite bind_assoc_eq, bind_get_eq, Hc. cbn [negb]. rewrite bind_ret_eq.
  rewrite bind_eq. unfold Api.settle. rewrite send_eq, Ha.
  rewrite exchange_eq, Hs. msimpl. unfold Api.getUpdates_settle.
  cbn [default]. rewrite bind_get_eq. unfold id.
  destruct (last us); by msimpl.
Qed.

(** A [getUpdates] whose request is answered, at the first attempt or
    after retries. *)
Lemma getUpdates_settled net (s : Api.TelegramAPI) c body :
  Api.connected s = true ->
  result (poll_request net s c) = Ret body ->
  Api.getUpdates net (s, c) =
  (Ret (default [] body),
   (match last (default [] body) with
    | Some u => Api.set_lastUpdateId (update_id u) s
    | None => s
    end, clock_of (poll_request net s c)),
   trace (poll_request net s c)).
Proof.
  unfold poll_request. intros Hc Hr. unfold Api.getUpdates, Api.getUpdates_request.
  rewrite bind_assoc_eq, bind_get_eq, Hc. cbn [negb]. rewrite bind_ret_eq.
  rewrite bind_eq. unfold Api.settle.
  pose proof (send_preserves (GetUpdates (Api.lastUpdateId s + 1))
    (fun t => serve_getUpdates net t (Api.lastUpdateId s + 1)) s c) as Hp.
  destruct (Api.send _ _ _) as [[[a|e0|] [s1 c1]] t1]; cbn in Hr, Hp; [|done..].
  injection Hr as ->. subst s1. msimpl. unfold Api.getUpdates_settle.
  rewrite bind_get_eq.
  destruct (last (default [] body)); msimpl; by rewrite ?app_nil_r.
Qed.

Lemma max_id_last l :
  ascending (map update_id l) = true ->
  max_id l = update_id <$> last l.
Proof.
  destruct l as [|u r]; [done|]. cbn [max_id]. revert u.
  induction r as [|v r IH]; intros u Hasc; [done|].
  cbn [map ascending] in Hasc. apply andb_true_iff in Hasc as [Huv Hasc].
  apply Z.leb_le in Huv. rewrite last_cons_cons, <- (IH v Hasc).
  cbn [foldl]. by rewrite Z.max_r.
Qed.

Lemma foldl_max_bounds a r :
  a <= foldl (fun acc v => Z.max acc (update_id v)) a r /\
  Forall (fun v => update_id v <= foldl (fun acc v => Z.max acc (update_id v)) a r) r.
Proof.
  revert a. induction r as [|v r IH]; intros a; cbn [foldl]; [by split|].
  destruct (IH (Z.max a (update_id v))) as [H1 H2].
  split; [lia|]. constructor; [lia|done].
Qed.

Lemma foldl_max_member a r :
  foldl (fun acc v => Z.max acc (update_id v)) a r = a \/
  exists v, v ∈ r /\
            update_id v = foldl (fun acc v => Z.max acc (update_id v)) a r.
Proof.
  revert a. induction r as [|v r IH]; intros a; cbn [foldl]; [by left|].
  destruct (IH (Z.max a (update_id v))) as [H|(x & Hx & Hid)].
  - rewrite H. destruct (Z.max_spec a (update_id v)) as [[_ ->]|[_ ->]].
    + right. exists v. split; [apply list_elem_of_here|done].
    + by left.
  - right. exists x. split; [by apply list_elem_of_further|done].
Qed.

(** [max_id] is the maximum: an upper bound that is attained. *)
Lemma max_id_upper l top :
  max_id l = Some top -> Forall (fun u => update_id u <= top) l.
Proof.
  destruct l as [|u r]; [done|]. cbn [max_id]. intros [= <-].
  destruct (foldl_max_bounds (update_id u) r). by constructor.
Qed.

Lemma max_id_member l top :
  max_id l = Some top -> exists u, u ∈ l /\ update_id u = top.
Proof.
  destruct l as [|u r]; [done|]. cbn [max_id]. intros [= <-].
  destruct (foldl_max_member (update_id u) r) as [->|(x & Hx & Hid)].
  - exists u. split; [apply list_elem_of_here|done].
  - exists x. split; [by apply list_elem_of_further|done].
Qed.

Lemma trace_forEach_processUpdate net l (s : Api.TelegramAPI) c :
  handlers_throw_errors s ->
  trace (forEach (Api.processUpdate net) l (s, c))
  = concat (dispatch_traces net s c l).
Proof.
  intros Hs. revert c. induction l as [|u r IH]; intros c; [done|].
  cbn [forEach dispatch_traces concat]. rewrite bind_eq.
  destruct (processUpdate_shape net u s c Hs) as [c2 E2].
  replace (clock_of (Api.processUpdate net u (s, c))) with c2 by (by rewrite E2).
  rewrite E2 at 1. by rewrite trace_prepend, IH.
Qed.

(** The cursor after a cycle that fetched a non-empty batch. *)
Lemma cursor_after_batch net (s : Api.TelegramAPI) c us :
  Api.connected s = true ->
  result (poll_request net s c) = Ret (Some us) ->
  us <> [] ->
  ascending (map update_id us) = true ->
  Forall (fun u => Api.lastUpdateId s + 1 <= update_id u) us ->
  max_id us
  = Some (Api.lastUpdateId (final (Api.interval_callback net (s, c)))) /\
  Api.lastUpdateId s
  < Api.lastUpdateId (final (Api.interval_callback net (s, c))).
Proof.
  intros Hc Hs Hne Hasc Hfrom.
  pose proof (max_id_last us Hasc) as Hmax.
  destruct (last us) as [u|] eqn:Hlast;
    [|by apply last_None in Hlast]. cbn in Hmax.
  pose proof (getUpdates_settled net s c (Some us) Hc Hs) as Hget.
  change (default [] (Some us)) with us in Hget. rewrite Hlast in Hget.
  assert (Api.lastUpdateId (final (Api.interval_callback net (s, c)))
          = update_id u) as ->.
  { unfold Api.interval_callback. rewrite bind_get_eq, Hc, try_catch_eq.
    rewrite bind_eq, Hget.
    pose proof (preserves_forEach (Api.processUpdate net) us
                  (processUpdate_preserves net)
                  (Api.set_lastUpdateId (update_id u) s)
                  (clock_of (poll_request net s c))) as Hp.
    destruct (forEach _ us _) as [[[[]|e|] [s1 c1]] t1];
      unfold final in *; cbn [prepend fst snd] in *; by subst. }
  split; [done|].
  destruct (max_id_member us _ Hmax) as (x & Hx & Hid).
  rewrite Forall_forall in Hfrom. specialize (Hfrom x Hx). lia.
Qed.

(** One poll cycle, run alone, on an object none of whose handlers throws
    [null] or [undefined].  When its request is answered (at the first
    attempt or after retries) with a non-empty batch in ascending order,
    of updates from the requested offset on: the cursor is set to the
    largest [update_id] of the batch when [getUpdates] returns, before
    anything is dispatched; the updates are then processed one after the
    other in array order, each from where the previous one finished; the
    cursor is still that maximum when the cycle ends; and the next offset
    is larger than the one just sent and than every [update_id] of the
    batch. *)
Lemma cycle_sets_cursor_then_dispatches net (s : Api.TelegramAPI) c us :
  handlers_throw_errors s ->
  Api.connected s = true ->
  result (poll_request net s c) = Ret (Some us) ->
  us <> [] ->
  ascending (map update_id us) = true ->
  Forall (fun u => Api.lastUpdateId s + 1 <= update_id u) us ->
  exists top,
    max_id us = Some top /\
    Api.getUpdates net (s, c)
    = (Ret us, (Api.set_lastUpdateId top s, clock_of (poll_request net s c)),
       trace (poll_request net s c)) /\
    Api.interval_callback net (s, c)
    = prepend (trace (poll_request net s c))
        (forEach (Api.processUpdate net) us
           (Api.set_lastUpdateId top s, clock_of (poll_request net s c))) /\
    trace (Api.interval_callback net (s, c))
    = trace (poll_request net s c)
      ++ concat (dispatch_traces net (Api.set_lastUpdateId top s)
                   (clock_of (poll_request net s c)) us) /\
    Api.lastUpdateId (final (Api.interval_callback net (s, c))) = top /\
    Api.lastUpdateId s + 1 < top + 1 /\
    Forall (fun u => update_id u < top + 1) us.
Proof.
  intros Hpolite Hc Hs Hne Hasc Hfrom.
  pose proof (max_id_last us Hasc) as Hmax.
  destruct (last us) as [u|] eqn:Hlast;
    [|by apply last_None in Hlast]. cbn in Hmax.
  assert (handlers_throw_errors (Api.set_lastUpdateId (update_id u) s))
    as Hpolite' by exact Hpolite.
  exists (update_id u). split; [done|].
  pose proof (getUpdates_settled net s c (Some us) Hc Hs) as Hget.
  change (default [] (Some us)) with us in Hget. rewrite Hlast in Hget. split; [done|].
  assert (Api.interval_callback net (s, c)
          = prepend (trace (poll_request net s c))
              (forEach (Api.processUpdate net) us
                 (Api.set_lastUpdateId (update_id u) s,
                  clock_of (poll_request net s c)))) as Hcyc.
  { unfold Api.interval_callback. rewrite bind_get_eq, Hc, try_catch_eq.
    rewrite bind_eq, Hget, (forEach_processUpdate_shape _ _ _ _ Hpolite').
    by msimpl. }
  split; [done|]. rewrite Hcyc, trace_prepend, final_prepend.
  split; [by rewrite trace_forEach_processUpdate|].
  split; [by rewrite (forEach_processUpdate_shape _ _ _ _ Hpolite')|].
  pose proof (max_id_upper us _ Hmax) as Hup.
  split.
  - destruct (max_id_member us _ Hmax) as (x & Hx & Hid).
    rewrite Forall_forall in Hfrom. specialize (Hfrom x Hx). lia.
  - eapply Forall_impl; [exact Hup|]. cbn. intros; lia.
Qed.

(** The cycle that fetches [file_42] (update 7) with the cursor at 0: the
    cursor becomes 7 and the next offset is 8. *)
Example cycle_file_42 :
  trace (Api.interval_callback one_pending (api_configured, 0%nat))
  = [Http (GetUpdates 1); Log Info "Received callback query: file_42";
     Http (AnswerCallbackQuery "q7");
     Invoke "file" (ArgsCallbackParam file_42_query "42")] /\
  exists top,
    max_id [file_42] = Some top /\
    Api.lastUpdateId (final (Api.interval_callback one_pending
                               (api_configured, 0%nat))) = top /\
    Api.lastUpdateId api_configured + 1 < top + 1.
Proof.
  split; [by vm_compute|].
  destruct (cycle_sets_cursor_then_dispatches one_pending api_configured 0%nat
              [file_42] api_configured_throws_errors)
    as (top & Hmax & _ & _ & _ & Hfin & Hlt & _);
    [reflexivity|by vm_compute|done|reflexivity|by repeat constructor|].
  exists top. by repeat split.
Qed.

(** One cycle on an object none of whose handlers throws [null] or
    [undefined], whatever the batch: every update of the batch is
    processed, in order, and the callback returns with the object as the
    poll left it. *)
Lemma cycle_dispatches_every_update net (s : Api.TelegramAPI) c us :
  handlers_throw_errors s ->
  Api.connected s = true ->
  result (poll_request net s c) = Ret (Some us) ->
  Api.interval_callback net (s, c)
  = (Ret tt,
     (polled s us,
      after_batch net us (polled s us) (clock_of (poll_request net s c))),
     trace (poll_request net s c)
     ++ concat (dispatch_traces net (polled s us)
                  (clock_of (poll_request net s c)) us)).
Proof.
  intros Hpolite Hc Hr.
  unfold Api.interval_callback. rewrite bind_get_eq, Hc, try_catch_eq.
  rewrite bind_eq, (getUpdates_settled net s c (Some us) Hc Hr).
  cbn [default]. fold (polled s us).
  assert (handlers_throw_errors (polled s us)) as Hpolite'.
  { unfold polled. destruct (last us); exact Hpolite. }
  rewrite (forEach_processUpdate_shape _ _ _ _ Hpolite').
  cbn [prepend fst snd].
  by rewrite (trace_forEach_processUpdate _ _ _ _ Hpolite').
Qed.

(** A firing on a connected object that has its axios instance starts by
    requesting the updates after the cursor: as long as the interval is
    armed and the object connected, the next cycle takes place. *)
Lemma firing_starts_with_poll net (s : Api.TelegramAPI) c tok :
  Api.connected s = true ->
  Api.api s = Some tok ->
  head (trace (Api.interval_callback net (s, c)))
  = Some (Http (GetUpdates (Api.lastUpdateId s + 1))).
Proof.
  intros Hc Ha.
  unfold Api.interval_callback. rewrite bind_get_eq, Hc, try_catch_eq.
  unfold Api.getUpdates, Api.getUpdates_request.
  rewrite !bind_assoc_eq, bind_get_eq, Hc. cbn [negb]. rewrite bind_ret_eq.
  rewrite bind_assoc_eq, bind_eq. unfold Api.settle. rewrite send_eq, Ha.
  cbn [Api.exchange Api.retry]. rewrite bind_attempt_eq, bind_emit_eq.
  cbv beta.
  match goal with
  | |- context [prepend [Http ?r] ?x] => destruct x as [[r0 w0] t0]
  end.
  cbn [prepend fst snd app].
  destruct ((Api.getUpdates_settle r0 ≫= _) w0) as [[[a|e|] w1] t1];
    by cbn [fst snd prepend app].
Qed.

(** C2, at the failing inputs.  The earlier application keeps the cursor
    in a hook, and the interval its effect arms keeps firing the callback
    of the render that armed it, which reads [lastUpdateId = 0] for good:
    two successive firings, the second after the first has finished, both
    request offset 1, both record the cursor 7 and both handle the update
    [file_42].  On the object of [telegramAPI.js] the cursor is a field,
    and two successive cycles request offset 1 and then offset 8; but a
    firing of its interval while the previous request is pending requests
    offset 1 again, and when both requests are answered the update is
    dispatched twice. *)
Theorem C2_same_offset_is_requested_again :
  LegacyApp.effect one_pending false true 0
  = Some (LegacyApp.checkTelegramUpdates one_pending false true 0) /\
  trace ((legacy_app_interval one_pending;; legacy_app_interval one_pending)
           (tt, 0%nat))
  = [SetProcessing true; Http (GetUpdates 1); SetLastUpdateId 7;
     Http (AnswerCallbackQuery "q7"); Log Info "Received command: file_42";
     Action "handleFileSelection"; SetProcessing false;
     SetProcessing true; Http (GetUpdates 1); SetLastUpdateId 7;
     Http (AnswerCallbackQuery "q7"); Log Info "Received command: file_42";
     Action "handleFileSelection"; SetProcessing false] /\
  requests
    (trace ((Api.interval_callback one_pending;;
             Api.interval_callback one_pending) (api_configured, 0%nat)))
  = [GetUpdates 1; AnswerCallbackQuery "q7";
     GetUpdates 8; AnswerCallbackQuery "q7"] /\
  result (Api.interval_fire (api_configured, 0%nat)) = Ret (Some 1) /\
  result ((Api.interval_fire;; Api.interval_fire) (api_configured, 0%nat))
  = Ret (Some 1) /\
  invocations
    (trace ((Api.interval_fire;; Api.interval_fire;;
             Api.interval_resume quiet (Ret (Some [file_42]));;
             Api.interval_resume quiet (Ret (Some [file_42])))
              (api_configured, 0%nat)))
  = [("file", ArgsCallbackParam file_42_query "42");
     ("file", ArgsCallbackParam file_42_query "42")].
Proof. repeat apply conj; by vm_compute. Qed.

(** The application's own cycle fetches and dispatches in the same way,
    between setting and clearing its flag. *)
Lemma App_checkTelegramUpdates_batch net (s : Api.TelegramAPI) c tok us u :
  handlers_throw_errors s ->
  Api.connected s = true ->
  Api.api s = Some tok ->
  serve_getUpdates net c (Api.lastUpdateId s + 1) = Resolved (Some us) ->
  last us = Some u ->
  trace (App.checkTelegramUpdates net false true (s, c))
  = [SetProcessing true; Http (GetUpdates (Api.lastUpdateId s + 1));
     SetLastUpdateTime;
     Log Info ("Received " +:+ pretty (length us) +:+ " updates from Telegram")]
    ++ concat (dispatch_traces net (Api.set_lastUpdateId (update_id u) s)
                 (Datatypes.S c) us)
    ++ [SetProcessing false].
Proof.
  intros Hpolite Hc Ha Hs Hlast.
  assert (handlers_throw_errors (Api.set_lastUpdateId (update_id u) s))
    as Hpolite' by exact Hpolite. unfold App.checkTelegramUpdates. cbn [orb negb].
  unfold try_finally. rewrite try_catch_eq, bind_emit_eq. cbv beta.
  rewrite bind_eq, (getUpdates_batch net s c tok us Hc Ha Hs), Hlast.
  assert ((0 <? length us)%nat = true) as ->.
  { destruct us; [done|]. by apply Nat.ltb_lt; cbn; lia. }
  msimpl. rewrite (forEach_processUpdate_shape _ _ _ _ Hpolite'). msimpl.
  by rewrite trace_forEach_processUpdate.
Qed.

(** ** The reentrancy guard *)

(** The application's callback is a no-op when the flag it reads is set,
    or when it reads that the application is not connected. *)
Lemma checkTelegramUpdates_guard net processing isConnected w :
  processing = true \/ isConnected = false ->
  App.checkTelegramUpdates net processing isConnected w = (Ret tt, w, []).
Proof.
  intros [-> | ->]; unfold App.checkTelegramUpdates;
    [|destruct processing]; reflexivity.
Qed.

(** Otherwise it sets the flag before anything else. *)
Lemma checkTelegramUpdates_sets_flag net w :
  head (trace (App.checkTelegramUpdates net false true w))
  = Some (SetProcessing true).
Proof.
  unfold App.checkTelegramUpdates. cbn [orb negb]. unfold try_finally.
  rewrite try_catch_eq, bind_emit_eq. cbv beta.
  match goal with
  | |- context [prepend [SetProcessing true] ?x] =>
      destruct x as [[[[]|e|] w1] t1]
  end; by msimpl.
Qed.

(** The flag a firing of the application's interval reads is the one of
    the render that armed the interval: the callback armed by a render
    that reads [processing = false] passes the guard at every firing,
    whatever [setProcessing] has been called with in between. *)
Lemma app_interval_passes_guard net w :
  App.startMonitoring net false true
  = Some (App.checkTelegramUpdates net false true) /\
  head (trace (app_interval net w)) = Some (SetProcessing true).
Proof. split; [done|]. apply checkTelegramUpdates_sets_flag. Qed.

(** The callback of the interval armed by [startUpdatePolling] reads no
    flag: on a connected object every firing sends a request, whether or
    not an earlier one has settled, and leaves the object as it is. *)
Lemma interval_fire_eq (s : Api.TelegramAPI) c :
  Api.connected s = true ->
  Api.interval_fire (s, c) = (Ret (Some (Api.lastUpdateId s + 1)), (s, c), []).
Proof.
  intros H. unfold Api.interval_fire, Api.getUpdates_request.
  rewrite bind_get_eq, H, bind_get_eq, H. reflexivity.
Qed.

(** C1, at the failing input.  On the connected object with the cursor at
    0, the interval of [startUpdatePolling] fires twice before any
    response has arrived: the first firing requests offset 1, and so does
    the second, which is not a no-op; two poll cycles are in flight. *)
Theorem C1_interval_firings_overlap :
  Api.connected api_configured = true /\
  Api.isPolling api_configured = true /\
  result (Api.interval_fire (api_configured, 0%nat)) = Ret (Some 1) /\
  result ((Api.interval_fire;; Api.interval_fire) (api_configured, 0%nat))
  = Ret (Some 1).
Proof. repeat split. Qed.

(** When the two requests are both answered with the pending update, it
    is dispatched twice. *)
Lemma overlapping_cycles_dispatch_twice :
  invocations
    (trace ((Api.interval_fire;; Api.interval_fire;;
             Api.interval_resume quiet (Ret (Some [file_42]));;
             Api.interval_resume quiet (Ret (Some [file_42])))
              (api_configured, 0%nat)))
  = [("file", ArgsCallbackParam file_42_query "42");
     ("file", ArgsCallbackParam file_42_query "42")].
Proof. by vm_compute. Qed.

(** ** Reconnection with backoff *)

Lemma timeouts_app t1 t2 : timeouts (t1 ++ t2) = timeouts t1 ++ timeouts t2.
Proof. apply omap_app. Qed.

Lemma timeouts_transport t : Forall transport_event t -> timeouts t = [].
Proof.
  induction 1 as [|e t He _ IH]; [done|].
  unfold timeouts in *. cbn. rewrite IH. by destruct e.
Qed.

Lemma timeouts_cons e t :
  timeouts (e :: t)
  = match e with SetTimeout d => d :: timeouts t | _ => timeouts t end.
Proof. by destruct e. Qed.

Lemma timeouts_notifications (status : bool) (ls : list listener) :
  timeouts (map (fun l => Notify l status) ls) = [].
Proof. by induction ls. Qed.

Lemma stopUpdatePolling_eq (s : Api.TelegramAPI) c :
  Api.stopUpdatePolling (s, c) =
  (Ret tt, (Api.set_polling None false s, c),
   match Api.updatePollingInterval s with
   | Some _ => [ClearInterval]
   | None => []
   end).
Proof.
  unfold Api.stopUpdatePolling. rewrite bind_get_eq.
  destruct (Api.updatePollingInterval s) eqn:E; by msimpl.
Qed.

(** [handleDisconnection] arms one timer while attempts remain, and none
    afterwards. *)
Lemma handleDisconnection_spec (s : Api.TelegramAPI) c :
  exists t,
    Api.handleDisconnection (s, c) = (Ret tt, (disconnected s, c), t) /\
    timeouts t =
    if Api.reconnectAttempts s <? Api.maxReconnectAttempts s
    then [Z.min 30000 (2 ^ Api.reconnectAttempts s * 1000)] else [].
Proof.
  unfold Api.handleDisconnection, disconnected.
  rewrite bind_eq, Api_setConnected_eq, bind_eq, stopUpdatePolling_eq.
  rewrite bind_get_eq.
  cbn [Api.reconnectTimer Api.set_polling Api.set_connected
       Api.updatePollingInterval Api.reconnectAttempts
       Api.maxReconnectAttempts].
  destruct (negb (eqb (Api.connected s) false)),
    (Api.updatePollingInterval s), (Api.reconnectTimer s), (_ <? _);
    msimpl; eexists; (split; [reflexivity|]);
    repeat first [ rewrite timeouts_app | rewrite timeouts_cons
                 | rewrite timeouts_notifications ];
    reflexivity.
Qed.

Lemma exchange_all_rejected {A} r (serve : nat -> reply A) left rc w :
  (forall t, exists err, serve t = Rejected err) ->
  exists e, result (Api.exchange r serve left rc w) = Throw e.
Proof.
  intros Hrej. revert rc w. induction left as [|left IH]; intros rc [s c];
    rewrite exchange_eq, result_prepend; destruct (Hrej c) as [err ->];
    destruct (Api.retriable (status err)); try by eexists.
  rewrite result_prepend. apply IH.
Qed.

(** A liveness check that the transport gives up on ends in
    [handleDisconnection]. *)
Lemma testConnection_fails net (s : Api.TelegramAPI) c e :
  result (Api.send GetMe (serve_getMe net) (s, c)) = Throw e ->
  exists c' t,
    Api.testConnection net (s, c) = (Ret false, (disconnected s, c'), t) /\
    timeouts t =
    if Api.reconnectAttempts s <? Api.maxReconnectAttempts s
    then [Z.min 30000 (2 ^ Api.reconnectAttempts s * 1000)] else [].
Proof.
  intros Hthrow. unfold Api.testConnection. rewrite try_catch_eq, bind_eq.
  pose proof (send_preserves GetMe (serve_getMe net) s c) as Hp.
  pose proof (send_transport_events GetMe (serve_getMe net) (s, c)) as Ht.
  destruct (Api.send _ _ _) as [[[a|e0|] [s1 c1]] t1]; cbn in Hthrow, Hp, Ht;
    [done| |done]. subst s1.
  destruct (handleDisconnection_spec s c1) as (t2 & Hd & Ht2).
  rewrite bind_emit_eq. cbv beta. rewrite bind_eq, Hd. msimpl.
  do 2 eexists. split; [reflexivity|].
  rewrite !timeouts_app, (timeouts_transport _ Ht), Ht2. cbn.
  by rewrite app_nil_r.
Qed.

(** One firing of the reconnect timer against a service that rejects the
    liveness check. *)
Lemma reconnect_callback_fails net (s : Api.TelegramAPI) c :
  JS.truthy (Api.token s) = true ->
  JS.truthy (Api.chatId s) = true ->
  (forall t, exists err, serve_getMe net t = Rejected err) ->
  exists s' c' t,
    Api.reconnect_callback net (s, c) = (Ret tt, (s', c'), t) /\
    Api.reconnectAttempts s' = Api.reconnectAttempts s + 1 /\
    Api.maxReconnectAttempts s' = Api.maxReconnectAttempts s /\
    Api.token s' = Api.token s /\
    Api.chatId s' = Api.chatId s /\
    timeouts t =
    if Api.reconnectAttempts s + 1 <? Api.maxReconnectAttempts s
    then [Z.min 30000 (2 ^ (Api.reconnectAttempts s + 1) * 1000)] else [].
Proof.
  intros Htok Hchat Hrej. unfold Api.reconnect_callback.
  rewrite bind_get_eq, bind_put_eq, bind_get_eq.
  cbn [Api.token Api.chatId Api.set_reconnectAttempts].
  rewrite Htok, Hchat. cbn [andb]. rewrite bind_put_eq, bind_eq.
  set (s1 := Api.set_api _ _).
  assert (exists e, result (Api.send GetMe (serve_getMe net) (s1, c)) = Throw e)
    as [e He].
  { rewrite send_eq. destruct (Api.api s1); [|by eexists].
    by apply exchange_all_rejected. }
  destruct (testConnection_fails net s1 c e He) as (c' & t & Htest & Ht).
  rewrite Htest. msimpl. exists (disconnected s1), c', t.
  split; [by rewrite app_nil_r|].
  unfold disconnected. subst s1.
  cbn [Api.reconnectAttempts Api.maxReconnectAttempts Api.set_api
       Api.set_credentials Api.set_reconnectAttempts] in *.
  destruct (_ <? _); done.
Qed.

Lemma seq_snoc_Z (n : nat) :
  map Z.of_nat (seq 1 (Datatypes.S n))
  = map Z.of_nat (seq 1 n) ++ [Z.of_nat (Datatypes.S n)].
Proof. by rewrite seq_S, map_app. Qed.

(** After a connection loss and [k] failed reconnect attempts, the timers
    armed so far are those of attempts 1 to [min (k + 1) 10]. *)
Lemma failed_reconnects_spec net (s : Api.TelegramAPI) c k :
  Api.reconnectAttempts s = 0 ->
  Api.maxReconnectAttempts s = 10 ->
  JS.truthy (Api.token s) = true ->
  JS.truthy (Api.chatId s) = true ->
  (forall t, exists err, serve_getMe net t = Rejected err) ->
  exists s' c' t,
    failed_reconnects net k (s, c) = (Ret tt, (s', c'), t) /\
    Api.reconnectAttempts s' = Z.of_nat k /\
    Api.maxReconnectAttempts s' = 10 /\
    Api.token s' = Api.token s /\
    Api.chatId s' = Api.chatId s /\
    timeouts t
    = map reconnect_delay (map Z.of_nat (seq 1 (Nat.min (Datatypes.S k) 10))).
Proof.
  intros Ha Hmax Htok Hchat Hrej. induction k as [|k IH].
  - cbn [failed_reconnects]. destruct (handleDisconnection_spec s c) as (t & Hd & Ht).
    exists (disconnected s), c, t. rewrite Hd, Ht, Ha, Hmax. unfold disconnected.
    rewrite Ha, Hmax. by repeat split.
  - destruct IH as (s1 & c1 & t1 & E1 & Ha1 & Hmax1 & Htok1 & Hchat1 & Ht1).
    cbn [failed_reconnects]. rewrite bind_eq, E1.
    destruct (reconnect_callback_fails net s1 c1) as
      (s2 & c2 & t2 & E2 & Ha2 & Hmax2 & Htok2 & Hchat2 & Ht2);
      [congruence|congruence|done|].
    rewrite E2. msimpl. exists s2, c2, (t1 ++ t2).
    split; [done|]. split; [lia|]. split; [congruence|].
    split; [congruence|]. split; [congruence|].
    rewrite timeouts_app, Ht1, Ht2, Ha1, Hmax1.
    destruct (Z.ltb_spec (Z.of_nat k + 1) 10) as [Hlt|Hge].
    + replace (Nat.min (Datatypes.S (Datatypes.S k)) 10)
        with (Datatypes.S (Datatypes.S k)) by lia.
      replace (Nat.min (Datatypes.S k) 10) with (Datatypes.S k) by lia.
      rewrite (seq_snoc_Z (Datatypes.S k)), map_app. f_equal. cbn [map].
      unfold reconnect_delay. do 2 f_equal.
      replace (Z.of_nat (Datatypes.S (Datatypes.S k)) - 1) with (Z.of_nat k + 1)
        by lia.
      lia.
    + replace (Nat.min (Datatypes.S (Datatypes.S k)) 10) with 10%nat by lia.
      replace (Nat.min (Datatypes.S k) 10) with 10%nat by lia.
      by rewrite app_nil_r.
Qed.

(** C4, as stated, fails at the first attempt: after a connection loss on
    a freshly configured object the first reconnect attempt (the log line
    calls it attempt 1) is scheduled after 1000 ms, not after
    [min(30000, 1000 * 2^1)] = 2000 ms. *)
Lemma C4_first_delay_counterexample :
  timeouts (trace (Api.handleDisconnection (api_configured, 0%nat))) = [1000] /\
  claimed_delay 1 = 2000 /\
  ~ (forall n : nat, (1 <= n <= 10)%nat ->
       timeouts (trace (failed_reconnects unreachable 9 (api_configured, 0%nat)))
         !! (n - 1)%nat = Some (claimed_delay (Z.of_nat n))).
Proof.
  split; [by vm_compute|]. split; [by vm_compute|].
  intros H. specialize (H 1%nat ltac:(lia)). vm_compute in H. discriminate.
Qed.

(** C4, amended.  After a connection loss followed by [k] consecutive
    failed reconnect attempts, the timers armed so far are exactly those of
    attempts 1 to [min (k + 1) 10], attempt [n] after
    [min (30000, 1000 * 2^(n-1))] ms: 1, 2, 4, 8, 16 s and then 30 s.  In
    particular the tenth failed attempt arms no timer. *)
Theorem C4_reconnect_backoff net (s : Api.TelegramAPI) c k :
  Api.reconnectAttempts s = 0 ->
  Api.maxReconnectAttempts s = 10 ->
  JS.truthy (Api.token s) = true ->
  JS.truthy (Api.chatId s) = true ->
  (forall t, exists err, serve_getMe net t = Rejected err) ->
  timeouts (trace (failed_reconnects net k (s, c)))
  = map reconnect_delay (map Z.of_nat (seq 1 (Nat.min (Datatypes.S k) 10))).
Proof.
  intros Ha Hmax Htok Hchat Hrej.
  destruct (failed_reconnects_spec net s c k Ha Hmax Htok Hchat Hrej)
    as (s' & c' & t & E & _ & _ & _ & _ & Ht).
  by rewrite E.
Qed.

(** Nine and ten failed attempts against an unreachable service arm the
    same ten timers. *)
Lemma C4_ten_attempts_witness :
  timeouts (trace (failed_reconnects unreachable 9 (api_configured, 0%nat)))
  = [1000; 2000; 4000; 8000; 16000; 30000; 30000; 30000; 30000; 30000] /\
  timeouts (trace (failed_reconnects unreachable 10 (api_configured, 0%nat)))
  = [1000; 2000; 4000; 8000; 16000; 30000; 30000; 30000; 30000; 30000].
Proof.
  split.
  - apply (C4_reconnect_backoff unreachable api_configured 0%nat 9%nat);
      try reflexivity. intros t. by eexists.
  - apply (C4_reconnect_backoff unreachable api_configured 0%nat 10%nat);
      try reflexivity. intros t. by eexists.
Defined.

(** ** Initialisation and the liveness check *)

Lemma startUpdatePolling_eq (s : Api.TelegramAPI) c :
  Api.startUpdatePolling (s, c) =
  if Api.isPolling s then (Ret tt, (s, c), [])
  else (Ret tt, (Api.set_polling (Some 3000) true s, c), [SetInterval 3000]).
Proof.
  unfold Api.startUpdatePolling. rewrite bind_get_eq.
  destruct (Api.isPolling s); by msimpl.
Qed.

Lemma truthy_createTelegramAPI tok :
  match Api.createTelegramAPI tok with
  | Some _ => true
  | None => false
  end = JS.truthy tok.
Proof. by destruct tok as [[|a r]|]. Qed.

(** [initialize] does not wait for the service: what it returns, the
    state it leaves and its events depend on the two fields only. *)
Lemma initialize_eq (s : Api.TelegramAPI) c tok chat :
  Api.initialize tok chat (s, c)
  = (Ret (JS.truthy tok && JS.truthy chat), (initialized tok chat s, c),
     initialize_trace tok chat s).
Proof.
  unfold Api.initialize, initialized, initialize_trace.
  rewrite bind_get_eq, bind_put_eq, bind_get_eq.
  cbn [Api.api Api.chatId Api.set_credentials].
  pose proof (truthy_createTelegramAPI tok) as Hapi.
  destruct (Api.createTelegramAPI tok) as [a|] eqn:Ea; rewrite <- Hapi;
    cbn [andb]; [destruct (JS.truthy chat) eqn:Hchat|].
  - rewrite bind_assoc_eq, bind_eq, Api_setConnected_eq, bind_assoc_eq, bind_eq,
      startUpdatePolling_eq.
    cbn [Api.connected Api.set_connected Api.isPolling Api.connectionListeners
         Api.set_credentials].
    destruct (Api.isPolling s); msimpl;
      cbn [Api.connected Api.set_connected Api.set_polling];
      rewrite ?app_nil_r, <- ?app_assoc; reflexivity.
  - rewrite bind_eq, Api_setConnected_eq. msimpl.
    cbn [Api.connected Api.set_connected Api.connectionListeners
         Api.set_credentials]. rewrite ?app_nil_r. reflexivity.
  - rewrite bind_eq, Api_setConnected_eq. msimpl.
    cbn [Api.connected Api.set_connected Api.connectionListeners
         Api.set_credentials]. rewrite ?app_nil_r. reflexivity.
Qed.

Lemma requests_notifications (status : bool) (ls : list listener) :
  requests (map (fun l => Notify l status) ls) = [].
Proof. by induction ls. Qed.

Lemma requests_app t1 t2 : requests (t1 ++ t2) = requests t1 ++ requests t2.
Proof. apply omap_app. Qed.

Lemma initialize_trace_requests tok chat s :
  requests (initialize_trace tok chat s) = [].
Proof.
  unfold initialize_trace.
  destruct (_ && _), (negb _), (Api.isPolling s);
    rewrite ?requests_app; cbn; by rewrite ?requests_notifications.
Qed.

Lemma initialize_trace_timeouts tok chat s :
  timeouts (initialize_trace tok chat s) = [].
Proof.
  unfold initialize_trace.
  destruct (_ && _), (negb _), (Api.isPolling s);
    repeat first [ rewrite timeouts_app | rewrite timeouts_cons
                 | rewrite timeouts_notifications ]; reflexivity.
Qed.

Lemma initialize_trace_floating tok chat s :
  Floating "testConnection" ∈ initialize_trace tok chat s
  <-> JS.truthy tok && JS.truthy chat = true.
Proof.
  unfold initialize_trace. destruct (_ && _).
  - split; [done|intros _]. rewrite !elem_of_app. right. right.
    apply list_elem_of_here.
  - split; [|done]. destruct (negb _); [|by intros ?%elem_of_nil].
    intros [?|Hin]%elem_of_cons; [done|].
    apply list_elem_of_fmap in Hin as (l & ? & _). done.
Qed.

Lemma testConnection_succeeds net (s : Api.TelegramAPI) c info :
  result (Api.send GetMe (serve_getMe net) (s, c)) = Ret (Some info) ->
  bot_id info <> 0 ->
  exists c' t,
    Api.testConnection net (s, c)
    = (Ret true, (Api.set_reconnectAttempts 0 s, c'), t) /\
    timeouts t = [].
Proof.
  intros Hok Hid. unfold Api.testConnection. rewrite try_catch_eq, bind_eq.
  pose proof (send_preserves GetMe (serve_getMe net) s c) as Hp.
  pose proof (send_transport_events GetMe (serve_getMe net) (s, c)) as Ht.
  destruct (Api.send _ _ _) as [[[a|e0|] [s1 c1]] t1]; cbn in Hok, Hp, Ht;
    [|done..]. injection Hok as ->. subst s1.
  apply Z.eqb_neq in Hid. rewrite Hid. msimpl.
  do 2 eexists. split; [reflexivity|].
  rewrite !timeouts_app, (timeouts_transport _ Ht). reflexivity.
Qed.

Lemma initialized_ready tok chat (s : Api.TelegramAPI) :
  match Api.api (initialized tok chat s) with
  | Some _ => JS.truthy (Api.chatId (initialized tok chat s))
  | None => false
  end = JS.truthy tok && JS.truthy chat.
Proof.
  unfold initialized.
  destruct tok as [[|a r]|], (JS.truthy chat) eqn:E; cbn; rewrite ?E;
    try reflexivity; by destruct (Api.isPolling s); cbn; rewrite ?E.
Qed.

Lemma initialized_connected tok chat (s : Api.TelegramAPI) :
  Api.connected (initialized tok chat s) = JS.truthy tok && JS.truthy chat.
Proof.
  unfold initialized. destruct (_ && _); [|done].
  by destruct (Api.isPolling _).
Qed.

Lemma initialized_isPolling tok chat (s : Api.TelegramAPI) :
  JS.truthy tok && JS.truthy chat = true ->
  Api.isPolling (initialized tok chat s) = true.
Proof.
  intros H. unfold initialized. rewrite H.
  cbn [Api.isPolling Api.set_connected Api.set_credentials].
  by destruct (Api.isPolling s) eqn:E.
Qed.

Lemma initialized_attempts tok chat (s : Api.TelegramAPI) :
  Api.reconnectAttempts (initialized tok chat s) = Api.reconnectAttempts s /\
  Api.maxReconnectAttempts (initialized tok chat s) = Api.maxReconnectAttempts s.
Proof.
  unfold initialized. destruct (_ && _); [|done].
  by destruct (Api.isPolling _).
Qed.

Lemma initialize_settled_eq net tok chat (s : Api.TelegramAPI) c :
  Api.initialize_settled net tok chat (s, c) =
  prepend (initialize_trace tok chat s)
    (if JS.truthy tok && JS.truthy chat then
       (Api.testConnection net;; mret true) (initialized tok chat s, c)
     else (Ret false, (initialized tok chat s, c), [])).
Proof.
  unfold Api.initialize_settled. rewrite bind_eq, initialize_eq, bind_get_eq.
  rewrite initialized_ready. f_equal.
  destruct (_ && _); [|by msimpl].
  rewrite bind_assoc_eq, !(bind_eq (Api.testConnection net)).
  destruct (Api.testConnection _ _) as [[[b|e|] w1] t1]; by msimpl.
Qed.

(** C5, as stated, fails: on a fresh object with one listener,
    [initialize] with both fields present returns [true] and has told the
    listener "connected" before any request has been made; against an
    unreachable service the liveness check then fails, and the listener
    has seen the state go to connected and back. *)
Lemma C5_connected_before_check_counterexample :
  Api.initialize (Some "token") (Some "42") (fresh_with_listener, 0%nat)
  = (Ret true,
     (initialized (Some "token") (Some "42") fresh_with_listener, 0%nat),
     [Log Info "Telegram connection status: Connected"; Notify 0%nat true;
      SetInterval 3000; Floating "testConnection"]) /\
  Api.connected (initialized (Some "token") (Some "42") fresh_with_listener)
  = true /\
  notifications
    (trace (Api.initialize_settled unreachable (Some "token") (Some "42")
              (fresh_with_listener, 0%nat)))
  = [(0%nat, true); (0%nat, false)].
Proof. repeat split; by vm_compute. Qed.

(** C5, amended.  [initialize] checks that both fields are present.  When
    one is missing it returns [false], the state is Disconnected and no
    liveness check is started.  When both are present it declares the
    state Connected at once and returns [true], with polling started and
    the liveness check started but no request settled yet; if that check
    then fails with a transport error the state becomes Disconnected
    (polling stopped, reconnection scheduled while attempts remain); if it
    succeeds the state stays Connected and the attempt counter is reset. *)
Theorem C5_initialize_connects_then_checks
    net (s : Api.TelegramAPI) c tok chat :
  Api.initialize tok chat (s, c)
  = (Ret (JS.truthy tok && JS.truthy chat), (initialized tok chat s, c),
     initialize_trace tok chat s) /\
  Api.connected (initialized tok chat s) = JS.truthy tok && JS.truthy chat /\
  requests (initialize_trace tok chat s) = [] /\
  (Floating "testConnection" ∈ initialize_trace tok chat s
   <-> JS.truthy tok && JS.truthy chat = true) /\
  (JS.truthy tok && JS.truthy chat = true ->
   Api.isPolling (initialized tok chat s) = true) /\
  (JS.truthy tok && JS.truthy chat = false ->
   Api.initialize_settled net tok chat (s, c)
   = (Ret false, (initialized tok chat s, c), initialize_trace tok chat s)) /\
  (JS.truthy tok && JS.truthy chat = true ->
   forall e,
     result (Api.send GetMe (serve_getMe net) (initialized tok chat s, c))
     = Throw e ->
     result (Api.initialize_settled net tok chat (s, c)) = Ret true /\
     final (Api.initialize_settled net tok chat (s, c))
     = disconnected (initialized tok chat s) /\
     Api.connected (final (Api.initialize_settled net tok chat (s, c))) = false /\
     Api.isPolling (final (Api.initialize_settled net tok chat (s, c))) = false /\
     timeouts (trace (Api.initialize_settled net tok chat (s, c)))
     = if Api.reconnectAttempts s <? Api.maxReconnectAttempts s
       then [Z.min 30000 (2 ^ Api.reconnectAttempts s * 1000)] else []) /\
  (JS.truthy tok && JS.truthy chat = true ->
   forall info,
     result (Api.send GetMe (serve_getMe net) (initialized tok chat s, c))
     = Ret (Some info) ->
     bot_id info <> 0 ->
     result (Api.initialize_settled net tok chat (s, c)) = Ret true /\
     Api.connected (final (Api.initialize_settled net tok chat (s, c))) = true /\
     Api.reconnectAttempts (final (Api.initialize_settled net tok chat (s, c)))
     = 0).
Proof.
  split; [apply initialize_eq|].
  split; [apply initialized_connected|].
  split; [apply initialize_trace_requests|].
  split; [apply initialize_trace_floating|].
  split; [apply initialized_isPolling|].
  rewrite initialize_settled_eq.
  split; [|split].
  - intros ->. by rewrite prepend_triple, app_nil_r.
  - intros Hr e He. rewrite Hr, result_prepend, final_prepend, trace_prepend.
    destruct (testConnection_fails net _ c e He) as (c' & t & Htest & Ht).
    rewrite bind_eq, Htest. msimpl. unfold result, final, trace. cbn [fst snd].
    split; [done|]. split; [done|].
    destruct (initialized_attempts tok chat s) as [Ea Em].
    rewrite timeouts_app, initialize_trace_timeouts, app_nil_r, Ht, Ea, Em.
    unfold disconnected. by destruct (_ <? _).
  - intros Hr info Hok Hid.
    rewrite Hr, result_prepend, final_prepend.
    destruct (testConnection_succeeds net _ c info Hok Hid) as (c' & t & Htest & Ht).
    rewrite bind_eq, Htest. msimpl. unfold result, final. cbn [fst snd].
    split; [done|]. split; [|done].
    cbn [Api.connected Api.set_reconnectAttempts].
    by rewrite initialized_connected.
Qed.

(** The three cases on the fresh object: a missing chat id; both fields
    with an unreachable service; both fields with a service that answers. *)
Lemma C5_initialize_witness :
  result (Api.initialize (Some "token") None (fresh_with_listener, 0%nat))
  = Ret false /\
  Api.connected
    (final (Api.initialize_settled unreachable (Some "token") (Some "42")
              (fresh_with_listener, 0%nat))) = false /\
  Api.connected
    (final (Api.initialize_settled quiet (Some "token") (Some "42")
              (fresh_with_listener, 0%nat))) = true.
Proof.
  split; [|split].
  - by rewrite (proj1 (C5_initialize_connects_then_checks quiet
                         fresh_with_listener 0%nat (Some "token") None)).
  - apply (proj2 (proj2 (proj2 (proj2 (proj2 (proj2
             (C5_initialize_connects_then_checks unreachable
                fresh_with_listener 0%nat (Some "token") (Some "42"))))))))
      with (e := "Network Error"); by vm_compute.
  - apply (proj2 (proj2 (proj2 (proj2 (proj2 (proj2 (proj2
             (C5_initialize_connects_then_checks quiet
                fresh_with_listener 0%nat (Some "token") (Some "42")))))))))
      with (info := {| bot_id := 7; username := "bot" |}); by vm_compute.
Defined.

(** ** The retry policy of the transport and what its callers do *)



(** A poll whose request the transport gives up on ends in
    [handleDisconnection] and returns no update. *)
Lemma getUpdates_fails net (s : Api.TelegramAPI) c e :
  Api.connected s = true ->
  result (Api.send (GetUpdates (Api.lastUpdateId s + 1))
            (fun t => serve_getUpdates net t (Api.lastUpdateId s + 1)) (s, c))
  = Throw e ->
  exists c' t,
    Api.getUpdates net (s, c) = (Ret [], (disconnected s, c'), t) /\
    timeouts t =
    if Api.reconnectAttempts s <? Api.maxReconnectAttempts s
    then [Z.min 30000 (2 ^ Api.reconnectAttempts s * 1000)] else [].
Proof.
  intros Hc Hthrow. unfold Api.getUpdates, Api.getUpdates_request.
  rewrite bind_assoc_eq, bind_get_eq, Hc. cbn [negb]. rewrite bind_ret_eq.
  rewrite bind_eq. unfold Api.settle.
  pose proof (send_preserves (GetUpdates (Api.lastUpdateId s + 1))
    (fun t => serve_getUpdates net t (Api.lastUpdateId s + 1)) s c) as Hp.
  pose proof (send_transport_events (GetUpdates (Api.lastUpdateId s + 1))
    (fun t => serve_getUpdates net t (Api.lastUpdateId s + 1)) (s, c)) as Ht.
  destruct (Api.send _ _ _) as [[[a|e0|] [s1 c1]] t1]; cbn in Hthrow, Hp, Ht;
    [done| |done]. subst s1. msimpl. unfold Api.getUpdates_settle.
  destruct (handleDisconnection_spec s c1) as (t2 & Hd & Ht2).
  rewrite bind_emit_eq. cbv beta. rewrite bind_eq, Hd. msimpl.
  do 2 eexists. split; [reflexivity|].
  rewrite !timeouts_app, (timeouts_transport _ Ht), Ht2. cbn.
  by rewrite app_nil_r.
Qed.





(** ** The earlier application's cycle *)

Lemma LegacyApp_handleUpdate_returns net u :
  returns_normally (LegacyApp.handleUpdate net u).
Proof.
  unfold LegacyApp.handleUpdate. destruct (callback_query u); [|apply returns_ret].
  apply returns_try_catch; [|intros e; apply returns_emit].
  unfold LegacyApp.axios. throws_errors_tac.
Qed.

(** One cycle of the earlier application, read at the values its callback
    sees: it requests the updates after the cursor it reads, records the
    [update_id] of the last element of the batch before handling anything,
    handles the updates in array order and clears its flag. *)
Lemma LegacyApp_checkTelegramUpdates_batch net lastUpdateId c us u :
  serve_getUpdates net c (lastUpdateId + 1) = Resolved (Some us) ->
  last us = Some u ->
  trace (LegacyApp.checkTelegramUpdates net false true lastUpdateId (tt, c))
  = [SetProcessing true; Http (GetUpdates (lastUpdateId + 1));
     SetLastUpdateId (update_id u)]
    ++ trace (forEach (LegacyApp.handleUpdate net) us (tt, Datatypes.S c))
    ++ [SetProcessing false].
Proof.
  intros Hs Hlast. unfold LegacyApp.checkTelegramUpdates. cbn [orb negb].
  unfold try_finally. rewrite try_catch_eq, bind_emit_eq. cbv beta.
  unfold LegacyApp.axios. rewrite !bind_assoc_eq, bind_attempt_eq.
  rewrite bind_assoc_eq, bind_emit_eq. cbv beta. rewrite Hs, bind_ret_eq, Hlast.
  rewrite bind_emit_eq. cbv beta.
  pose proof (returns_unit (forEach (LegacyApp.handleUpdate net) us)
                (tt, Datatypes.S c)
                (returns_forEach _ _ (LegacyApp_handleUpdate_returns net))) as Hr.
  destruct (forEach _ us _) as [[[[]|e|] w1] t1]; [|done..].
  by msimpl.
Qed.

(** Over any poll cycle whatever, the cursor does not move back as long
    as the service answers with updates from the requested offset on, in
    ascending order: an empty answer, a failed request and a skipped cycle
    leave it where it was. *)
Lemma cursor_never_moves_back net (s : Api.TelegramAPI) c :
  (forall us, result (poll_request net s c) = Ret (Some us) ->
     ascending (map update_id us) = true /\
     Forall (fun u => Api.lastUpdateId s + 1 <= update_id u) us) ->
  Api.lastUpdateId s
  <= Api.lastUpdateId (final (Api.interval_callback net (s, c))).
Proof.
  intros Hcontract.
  destruct (Api.connected s) eqn:Hc.
  2:{ unfold Api.interval_callback. rewrite bind_get_eq, Hc. cbn. lia. }
  destruct (result (poll_request net s c)) as [[us|]|e|] eqn:Hr;
    [| | |by destruct (send_throws_errors _ _ _ Hr)].
  - destruct us as [|u0 us'] eqn:Eus.
    + unfold Api.interval_callback. rewrite bind_get_eq, Hc, try_catch_eq.
      rewrite bind_eq, (getUpdates_settled net s c (Some []) Hc Hr).
      cbn. lia.
    + destruct (Hcontract _ eq_refl) as [Hasc Hfrom].
      destruct (cursor_after_batch net s c (u0 :: us') Hc Hr
                  ltac:(done) Hasc Hfrom) as [Hfin Hlt].
      lia.
  - unfold Api.interval_callback. rewrite bind_get_eq, Hc, try_catch_eq.
    rewrite bind_eq, (getUpdates_settled net s c None Hc Hr). cbn. lia.
  - destruct (getUpdates_fails net s c e Hc Hr) as (c' & t & E & _).
    unfold Api.interval_callback. rewrite bind_get_eq, Hc, try_catch_eq.
    rewrite bind_eq, E. cbn. unfold disconnected.
    destruct (_ <? _); cbn; lia.
Qed.

(** ** The scenarios of the specification, evaluated *)

(** Two button presses, [storage] then [back], with the cursor at 4: both
    are acknowledged, the two handlers run in that order, and the cursor
    ends at 6. *)
Example scenario_storage_then_back :
  requests (trace (Api.interval_callback storage_then_back (api_at_4, 0%nat)))
  = [GetUpdates 5; AnswerCallbackQuery "a"; AnswerCallbackQuery "b"] /\
  map fst (invocations
             (trace (Api.interval_callback storage_then_back (api_at_4, 0%nat))))
  = ["storage"; "back"] /\
  Api.lastUpdateId
    (final (Api.interval_callback storage_then_back (api_at_4, 0%nat))) = 6.
Proof. repeat split; by vm_compute. Qed.

(** The text [/sms_logs] invokes the handler registered under [sms_logs]
    with no parameter. *)
Example scenario_sms_logs :
  invocations
    (trace (Api.processUpdate quiet
              {| update_id := 9; message := Some sms_logs_message;
                 callback_query := None |} (api_at_4, 0%nat)))
  = [("sms_logs", ArgsCommand sms_logs_message [])].
Proof. by vm_compute. Qed.

(** * Further properties of the embedded code

    [commandHandlers] is read as the finite map of the handlers found by a
    lookup; the property names a JavaScript object inherits from
    [Object.prototype] ([constructor], [toString], ...), which a lookup in
    a plain object finds as well, are not part of the embedding. *)

(** ** What a disconnected object still sends *)

Lemma emits_ret {A} P (s : Api.TelegramAPI) (a : A) : emits_at P s (mret a).
Proof. intros c. by split; [|constructor]. Qed.

Lemma emits_throw {A} P (s : Api.TelegramAPI) e :
  emits_at P s (throw e : M Api.TelegramAPI A).
Proof. intros c. by split; [|constructor]. Qed.

Lemma emits_throw_nullish {A} P (s : Api.TelegramAPI) :
  emits_at P s (throw_nullish : M Api.TelegramAPI A).
Proof. intros c. by split; [|constructor]. Qed.

Lemma emits_emit (P : event -> Prop) (s : Api.TelegramAPI) e :
  P e -> emits_at P s (emit e).
Proof. intros H c. split; [done|]. by repeat constructor. Qed.

Lemma emits_bind {A B} P (s : Api.TelegramAPI) (m : M Api.TelegramAPI A)
    (k : A -> M Api.TelegramAPI B) :
  emits_at P s m -> (forall a, emits_at P s (k a)) -> emits_at P s (m ≫= k).
Proof.
  intros Hm Hk c. rewrite bind_eq. destruct (Hm c) as [H1 H2].
  destruct (m (s, c)) as [[[a|e|] [s1 c1]] t1]; [|done..].
  unfold final, trace in H1, H2. cbn [fst snd] in H1, H2. subst s1.
  destruct (Hk a c1) as [H3 H4].
  rewrite final_prepend, trace_prepend. split; [done|].
  by apply Forall_app.
Qed.

Lemma emits_get_bind {B} P (s : Api.TelegramAPI)
    (k : Api.TelegramAPI -> M Api.TelegramAPI B) :
  emits_at P s (k s) -> emits_at P s (get ≫= k).
Proof. intros H c. rewrite bind_get_eq. apply H. Qed.

Lemma emits_try_catch {A} P (s : Api.TelegramAPI) (m : M Api.TelegramAPI A)
    (h : string -> M Api.TelegramAPI A) :
  emits_at P s m -> (forall e, emits_at P s (h e)) ->
  emits_at P s (try_catch m h).
Proof.
  intros Hm Hh c. rewrite try_catch_eq. destruct (Hm c) as [H1 H2].
  destruct (m (s, c)) as [[[a|e|] [s1 c1]] t1]; [done| |done].
  unfold final, trace in H1, H2. cbn [fst snd] in H1, H2. subst s1.
  destruct (Hh e c1) as [H3 H4].
  rewrite final_prepend, trace_prepend. split; [done|].
  by apply Forall_app.
Qed.

Lemma emits_attempt_bind {B} P (s : Api.TelegramAPI)
    (k : nat -> M Api.TelegramAPI B) :
  (forall t, emits_at P s (k t)) -> emits_at P s (attempt_index ≫= k).
Proof. intros H c. rewrite bind_attempt_eq. apply H. Qed.

(** A request through the transport puts on the trace this request, as
    many times as it is attempted, log lines and pauses. *)
Lemma emits_exchange {A} (P : event -> Prop) (s : Api.TelegramAPI)
    r (serve : nat -> reply A) left rc :
  P (Http r) -> (forall lv msg, P (Log lv msg)) -> (forall ms, P (Sleep ms)) ->
  emits_at P s (Api.exchange r serve left rc).
Proof.
  intros Hr Hlog Hsleep. revert rc.
  induction left as [|left IH]; intros rc; cbn [Api.exchange];
    (apply emits_attempt_bind; intros t;
     apply emits_bind; [by apply emits_emit|]; intros _;
     destruct (serve t) as [a|err]; [apply emits_ret|];
     destruct (Api.retriable (status err)); cbv zeta;
     repeat first [ apply IH | apply emits_throw
                  | apply emits_emit; solve [apply Hlog|apply Hsleep]
                  | apply emits_bind; [|intros _] ]).
Qed.

Lemma emits_send {A} (P : event -> Prop) (s : Api.TelegramAPI)
    r (serve : nat -> reply A) :
  P (Http r) -> (forall lv msg, P (Log lv msg)) -> (forall ms, P (Sleep ms)) ->
  emits_at P s (Api.send r serve).
Proof.
  intros Hr Hlog Hsleep. apply emits_get_bind.
  destruct (Api.api s); [by apply emits_exchange|apply emits_throw].
Qed.

Lemma emits_invoke (P : event -> Prop) (s : Api.TelegramAPI) key h a :
  P (Invoke key a) -> emits_at P s (Api.invoke key h a).
Proof.
  intros H. unfold Api.invoke.
  apply emits_bind; [by apply emits_emit|]. intros _.
  destruct (h a);
    [apply emits_ret|apply emits_throw|apply emits_throw_nullish].
Qed.

(** [sendMessage] on a disconnected object does nothing. *)
Lemma emits_sendMessage_disconnected P net (s : Api.TelegramAPI) body :
  Api.connected s = false -> emits_at P s (Api.sendMessage net body).
Proof.
  intros Hc. unfold Api.sendMessage. apply emits_get_bind.
  rewrite Hc. apply emits_ret.
Qed.

Ltac emits_tac :=
  repeat first
    [ apply emits_ret | apply emits_throw
    | apply emits_emit; exact I
    | apply emits_invoke; exact I
    | apply emits_sendMessage_disconnected; assumption
    | apply emits_get_bind
    | apply emits_bind; [|intros ?]
    | apply emits_try_catch; [|intros ?]
    | match goal with
      | |- emits_at _ _ (match ?x with _ => _ end) => destruct x
      | |- emits_at _ _ (if ?x then _ else _) => destruct x
      end ].

(** On a disconnected object [processUpdate] still acknowledges a button
    press, and that is the only request it makes. *)
Lemma processUpdate_disconnected net u (s : Api.TelegramAPI) :
  Api.connected s = false ->
  emits_at (acknowledges u) s (Api.processUpdate net u).
Proof.
  intros Hc. unfold Api.processUpdate. apply emits_try_catch.
  2:{ intros e. unfold Api.report_error. emits_tac. }
  unfold Api.try_block.
  apply emits_bind.
  { unfold Api.unauthorized_message, Api.chatId_toString. emits_tac. }
  intros [|]; [apply emits_ret|].
  apply emits_bind.
  { unfold Api.unauthorized_callback, Api.chatId_toString. emits_tac. }
  intros [|]; [apply emits_ret|].
  apply emits_bind.
  - destruct (callback_query u) as [cq|] eqn:Eq; [|apply emits_ret].
    unfold Api.handle_callback.
    apply emits_bind; [by apply emits_emit|]. intros _.
    apply emits_bind.
    { apply emits_send; [by exists cq|done..]. }
    intros _. emits_tac.
  - intros _. destruct (message u) as [m|]; [|apply emits_ret].
    unfold Api.handle_message. cbv zeta. emits_tac.
Qed.

(** The first event of an exchange is its request. *)
Lemma exchange_starts {A} r (serve : nat -> reply A) left rc
    (w : Api.TelegramAPI * nat) :
  exists r0 w0 t0, Api.exchange r serve left rc w = (r0, w0, Http r :: t0).
Proof.
  destruct w as [s c].
  destruct left; cbn [Api.exchange]; rewrite bind_attempt_eq, bind_emit_eq;
    cbv beta;
    match goal with
    | |- context [prepend [Http r] ?x] => destruct x as [[r0 w0] t0]
    end; cbn [prepend fst snd app]; by eauto.
Qed.

(** The acknowledgement is the first thing a press from the configured
    chat puts on the wire, whatever the state of the connection. *)
Lemma handle_callback_starts net cq (s : Api.TelegramAPI) c tok :
  Api.api s = Some tok ->
  exists t,
    trace (Api.handle_callback net cq (s, c))
    = Log Info ("Received callback query: " +:+ data cq)
      :: Http (AnswerCallbackQuery (cq_id cq)) :: t.
Proof.
  intros Ha. unfold Api.handle_callback.
  rewrite bind_emit_eq. cbv beta. rewrite trace_prepend, bind_eq, send_eq, Ha.
  destruct (exchange_starts (AnswerCallbackQuery (cq_id cq))
              (fun t => serve_post net t (AnswerCallbackQuery (cq_id cq)))
              Api.retry 0 (s, c)) as (r0 & w0 & t0 & ->).
  destruct r0 as [a|e|]; [|by eexists..].
  match goal with
  | |- context [prepend (Http _ :: t0) ?x] => destruct x as [[? ?] ?]
  end.
  cbn [prepend fst snd app trace]. by eexists.
Qed.

(** X1.  What a disconnected object still sends.  While the object is not
    connected, a poll returns an empty batch and any number of firings of
    the polling interval and any sequence of [sendMessage] calls make no
    request, emit nothing and leave the object, the cursor and the attempt
    clock as they are.  [processUpdate] does not test the connection: it
    leaves the object as it is, and of the requests it makes for an update
    only the acknowledgement of the update's button press is left (the
    replies it sends through [sendMessage] are not posted); for a press
    from the configured chat, on an object that has its axios instance,
    that acknowledgement is posted. *)
Theorem disconnected_makes_no_request net n bodies (s : Api.TelegramAPI) c :
  Api.connected s = false ->
  Api.getUpdates net (s, c) = (Ret [], (s, c), []) /\
  Api.interval_fire (s, c) = (Ret None, (s, c), []) /\
  firings net n (s, c) = (Ret tt, (s, c), []) /\
  posts net bodies (s, c) = (Ret tt, (s, c), []) /\
  (forall u,
     final (Api.processUpdate net u (s, c)) = s /\
     Forall (acknowledges u) (trace (Api.processUpdate net u (s, c)))) /\
  (forall u cq chat cid tok,
     callback_query u = Some cq ->
     message u = None ->
     Api.chatId s = Some cid ->
     cq_message_chat_id cq = Some chat ->
     pretty chat = cid ->
     Api.api s = Some tok ->
     head (requests (trace (Api.processUpdate net u (s, c))))
     = Some (AnswerCallbackQuery (cq_id cq))).
Proof.
  intros Hc. repeat apply conj.
  - unfold Api.getUpdates, Api.getUpdates_request.
    rewrite bind_assoc_eq, bind_get_eq, Hc. by msimpl.
  - unfold Api.interval_fire. by rewrite bind_get_eq, Hc.
  - induction n as [|n IH]; [done|]. cbn [firings].
    rewrite bind_eq. unfold Api.interval_callback at 1.
    rewrite bind_get_eq, Hc, ret_eq. cbn [prepend fst snd app].
    by rewrite IH.
  - unfold posts. induction bodies as [|body bodies IH]; [done|].
    cbn [forEach]. rewrite bind_eq, bind_eq. unfold Api.sendMessage at 1.
    rewrite bind_get_eq, Hc. cbn [negb]. rewrite !ret_eq.
    cbn [prepend fst snd app]. by rewrite IH.
  - intros u. apply (processUpdate_disconnected net u s Hc).
  - intros u cq chat cid tok Hq Hm Hcid Hchat Hid Ha.
    rewrite (processUpdate_authorized_callback _ _ _ _ _ _ _ Hq Hm Hcid Hchat Hid).
    destruct (handle_callback_starts net cq s c tok Ha) as [t Ht].
    destruct (Api.handle_callback net cq (s, c)) as [[[[]|e|] w1] t1];
      unfold trace in Ht; cbn [snd] in Ht; subst t1;
      rewrite ?trace_prepend; reflexivity.
Qed.

(** After a connection loss on the configured object: polling and
    [sendMessage] send nothing, and the press [file_42] is still
    acknowledged and dispatched. *)
Lemma disconnected_makes_no_request_witness :
  firings unreachable 3 (final (Api.handleDisconnection (api_configured, 0%nat)), 0%nat)
  = (Ret tt, (final (Api.handleDisconnection (api_configured, 0%nat)), 0%nat), []) /\
  posts unreachable ["ping"; "pong"]
    (final (Api.handleDisconnection (api_configured, 0%nat)), 0%nat)
  = (Ret tt, (final (Api.handleDisconnection (api_configured, 0%nat)), 0%nat), []) /\
  head (requests
          (trace (Api.processUpdate unreachable file_42
                    (final (Api.handleDisconnection (api_configured, 0%nat)),
                     0%nat))))
  = Some (AnswerCallbackQuery "q7").
Proof.
  destruct (disconnected_makes_no_request unreachable 3 ["ping"; "pong"]
              (final (Api.handleDisconnection (api_configured, 0%nat))) 0%nat)
    as (_ & _ & H1 & H2 & _ & H3); [reflexivity|].
  split; [exact H1|]. split; [exact H2|].
  by apply (H3 file_42 file_42_query 42 "42" "token").
Defined.

(** ** Connection listeners *)

Lemma notifications_app t1 t2 :
  notifications (t1 ++ t2) = notifications t1 ++ notifications t2.
Proof. apply omap_app. Qed.

Lemma notifications_map (status : bool) (ls : list listener) :
  notifications (map (fun l => Notify l status) ls)
  = map (fun l => (l, status)) ls.
Proof. induction ls as [|l ls IH]; [done|]. cbn. by f_equal. Qed.

Lemma setConnected_notifications status (s : Api.TelegramAPI) c :
  notifications (trace (Api.setConnected status (s, c)))
  = if negb (eqb (Api.connected s) status)
    then map (fun l => (l, status)) (Api.connectionListeners s) else [].
Proof.
  rewrite Api_setConnected_eq. unfold trace. cbn [snd].
  destruct (negb _); [|done]. apply notifications_map.
Qed.

(** X2.  A listener that subscribes is called once, at once, with the
    current state, and nobody else is; at the next change of state every
    listener is called once with the new state, in the order of
    subscription, the new one last. *)
Theorem subscriber_gets_state_then_changes l (s : Api.TelegramAPI) c :
  notifications (trace (Api.addConnectionListener l (s, c)))
  = [(l, Api.connected s)] /\
  notifications
    (trace ((Api.addConnectionListener l;;
             Api.setConnected (negb (Api.connected s))) (s, c)))
  = (l, Api.connected s)
    :: map (fun x => (x, negb (Api.connected s)))
         (Api.connectionListeners s ++ [l]).
Proof.
  assert (Api.addConnectionListener l (s, c)
          = (Ret tt,
             (Api.set_connectionListeners (Api.connectionListeners s ++ [l]) s, c),
             [Notify l (Api.connected s)])) as Hadd.
  { unfold Api.addConnectionListener. by msimpl. }
  split; [by rewrite Hadd|].
  rewrite bind_eq, Hadd, trace_prepend, notifications_app.
  rewrite setConnected_notifications.
  cbn [Api.connected Api.set_connectionListeners Api.connectionListeners].
  by destruct (Api.connected s).
Qed.

(** X3.  Once a listener has been removed, a change of state does not
    call it any more (however often it had subscribed); the others are
    called as they would have been, in the same order. *)
Theorem removed_listener_is_not_called l status (s : Api.TelegramAPI) c :
  notifications
    (trace ((Api.removeConnectionListener l;; Api.setConnected status) (s, c)))
  = filter (fun p => p.1 ≠ l)
      (notifications (trace (Api.setConnected status (s, c)))) /\
  (l, status) ∉ notifications
    (trace ((Api.removeConnectionListener l;; Api.setConnected status) (s, c))).
Proof.
  assert (notifications
    (trace ((Api.removeConnectionListener l;; Api.setConnected status) (s, c)))
  = filter (fun p => p.1 ≠ l)
      (notifications (trace (Api.setConnected status (s, c))))) as H.
  { unfold Api.removeConnectionListener.
    rewrite bind_assoc_eq, bind_get_eq, bind_put_eq.
    rewrite !setConnected_notifications.
    cbn [Api.connected Api.set_connectionListeners Api.connectionListeners].
    destruct (negb _); [|done].
    induction (Api.connectionListeners s) as [|x ls IH]; [done|].
    rewrite filter_cons. cbn [map]. rewrite filter_cons. cbn [fst].
    destruct (decide (x ≠ l)); cbn [map]; by rewrite IH. }
  split; [done|]. rewrite H. intros Hin%list_elem_of_filter. by destruct Hin.
Qed.

(** ** At most one polling interval *)

Lemma intervals_delta_cons e t :
  intervals_delta (e :: t)
  = match e with
    | SetInterval _ => intervals_delta t + 1
    | ClearInterval => intervals_delta t - 1
    | _ => intervals_delta t
    end.
Proof. reflexivity. Qed.

Lemma intervals_delta_app t1 t2 :
  intervals_delta (t1 ++ t2) = intervals_delta t1 + intervals_delta t2.
Proof.
  induction t1 as [|e t1 IH]; [reflexivity|].
  cbn [app]. rewrite !intervals_delta_cons, IH. destruct e; lia.
Qed.

Lemma intervals_delta_transport t :
  Forall transport_event t -> intervals_delta t = 0.
Proof.
  induction 1 as [|e t He _ IH]; [done|].
  rewrite intervals_delta_cons. by destruct e.
Qed.

Lemma intervals_delta_notifications (status : bool) (ls : list listener) :
  intervals_delta (map (fun l => Notify l status) ls) = 0.
Proof. by induction ls. Qed.

(** A computation that leaves the object alone and emits only transport
    events keeps the interval. *)
Lemma keeps_of_transport {A} (m : M Api.TelegramAPI A) :
  preserves m -> (forall w, Forall transport_event (trace (m w))) ->
  keeps_interval m.
Proof.
  intros Hp Ht s c Hs. rewrite (Hp s c).
  rewrite (intervals_delta_transport _ (Ht (s, c))). split; [done|]. lia.
Qed.

Lemma keeps_ret {A} (a : A) : keeps_interval (mret a).
Proof. apply keeps_of_transport; [apply preserves_ret|by intros w; constructor]. Qed.

Lemma keeps_throw {A} e : keeps_interval (throw e : M Api.TelegramAPI A).
Proof. apply keeps_of_transport; [apply preserves_throw|by intros w; constructor]. Qed.

Lemma keeps_bind {A B} (s : Api.TelegramAPI) (m : M Api.TelegramAPI A)
    (k : A -> M Api.TelegramAPI B) :
  keeps_interval_at s m -> (forall a, keeps_interval (k a)) ->
  keeps_interval_at s (m ≫= k).
Proof.
  intros Hm Hk c Hs. rewrite bind_eq. destruct (Hm c Hs) as [H1 H2].
  destruct (m (s, c)) as [[[a|e|] [s1 c1]] t1]; [|done..].
  unfold final, trace in H1, H2. cbn [fst snd] in H1, H2. destruct (Hk a s1 c1 H1) as [H3 H4].
  rewrite final_prepend, trace_prepend, intervals_delta_app.
  split; [done|]. lia.
Qed.

Lemma keeps_try_catch {A} (s : Api.TelegramAPI) (m : M Api.TelegramAPI A)
    (h : string -> M Api.TelegramAPI A) :
  keeps_interval_at s m -> (forall e, keeps_interval (h e)) ->
  keeps_interval_at s (try_catch m h).
Proof.
  intros Hm Hh c Hs. rewrite try_catch_eq. destruct (Hm c Hs) as [H1 H2].
  destruct (m (s, c)) as [[[a|e|] [s1 c1]] t1]; [done| |done].
  unfold final, trace in H1, H2. cbn [fst snd] in H1, H2. destruct (Hh e s1 c1 H1) as [H3 H4].
  rewrite final_prepend, trace_prepend, intervals_delta_app.
  split; [done|]. lia.
Qed.

Lemma keeps_get_bind {B} (s : Api.TelegramAPI)
    (k : Api.TelegramAPI -> M Api.TelegramAPI B) :
  keeps_interval_at s (k s) -> keeps_interval_at s (get ≫= k).
Proof. intros H c Hs. rewrite bind_get_eq. by apply H. Qed.

Lemma keeps_ret_bind {A B} (s : Api.TelegramAPI) (a : A)
    (k : A -> M Api.TelegramAPI B) :
  keeps_interval_at s (k a) -> keeps_interval_at s (mret a ≫= k).
Proof. intros H c Hs. rewrite bind_ret_eq. by apply H. Qed.

Lemma keeps_put_bind {B} (s s' : Api.TelegramAPI)
    (k : unit -> M Api.TelegramAPI B) :
  Api.isPolling s' = Api.isPolling s ->
  Api.updatePollingInterval s' = Api.updatePollingInterval s ->
  keeps_interval_at s' (k tt) -> keeps_interval_at s (put s' ≫= k).
Proof.
  intros Hp Hi H c Hs. rewrite bind_put_eq.
  assert (timer_consistent s') as Hs' by (unfold timer_consistent; by rewrite Hp, Hi).
  destruct (H c Hs') as [H1 H2]. split; [done|].
  unfold armed in *. by rewrite <- Hi.
Qed.

Lemma keeps_put (s s' : Api.TelegramAPI) :
  Api.isPolling s' = Api.isPolling s ->
  Api.updatePollingInterval s' = Api.updatePollingInterval s ->
  keeps_interval_at s (put s').
Proof.
  intros Hp Hi c Hs. unfold timer_consistent, armed in *.
  unfold final, trace, put. cbn [fst snd]. rewrite Hp, Hi. split; [done|].
  change (intervals_delta []) with 0. lia.
Qed.

Lemma keeps_emit_bind {B} (s : Api.TelegramAPI) e
    (k : unit -> M Api.TelegramAPI B) :
  intervals_delta [e] = 0 ->
  keeps_interval_at s (k tt) -> keeps_interval_at s (emit e ≫= k).
Proof.
  intros He H c Hs. rewrite bind_emit_eq. destruct (H c Hs) as [H1 H2].
  rewrite final_prepend, trace_prepend, intervals_delta_app, He.
  split; [done|]. lia.
Qed.

Lemma keeps_emit (s : Api.TelegramAPI) e :
  intervals_delta [e] = 0 -> keeps_interval_at s (emit e).
Proof.
  intros He c Hs. split; [done|]. rewrite emit_eq.
  unfold final, trace. cbn [fst snd]. lia.
Qed.

Lemma keeps_send {A} r (serve : nat -> reply A) : keeps_interval (Api.send r serve).
Proof.
  apply keeps_of_transport; [apply send_preserves|apply send_transport_events].
Qed.

Lemma keeps_sendMessage net body : keeps_interval (Api.sendMessage net body).
Proof.
  apply keeps_of_transport;
    [apply sendMessage_preserves|apply sendMessage_transport_events].
Qed.

Lemma keeps_invoke key h a : keeps_interval (Api.invoke key h a).
Proof.
  intros s c Hs. rewrite invoke_eq. split; [done|].
  unfold final, trace. cbn [fst snd].
  change (intervals_delta [Invoke key a]) with 0. lia.
Qed.

Lemma keeps_forEach {A} (body : A -> M Api.TelegramAPI unit) l :
  (forall x, keeps_interval (body x)) -> keeps_interval (forEach body l).
Proof.
  intros H. induction l as [|x l IH]; cbn [forEach]; [apply keeps_ret|].
  intros s. apply keeps_bind; [apply H|by intros _].
Qed.

Ltac keeps_tac :=
  repeat first
    [ apply keeps_ret | apply keeps_throw | apply keeps_send
    | apply keeps_sendMessage | apply keeps_invoke
    | apply keeps_get_bind
    | apply keeps_put; reflexivity
    | apply keeps_put_bind; [reflexivity|reflexivity|]
    | apply keeps_emit; reflexivity
    | apply keeps_emit_bind; [reflexivity|]
    | apply keeps_ret_bind
    | match goal with
      | |- keeps_interval_at _ ((match ?x with _ => _ end) ≫= _) => destruct x
      end
    | apply keeps_bind; [|intros ? ?]
    | apply keeps_try_catch; [|intros ? ?]
    | match goal with
      | |- keeps_interval _ => intros ?
      | |- keeps_interval_at _ (match ?x with _ => _ end) => destruct x
      end ].

Lemma keeps_setConnected status : keeps_interval (Api.setConnected status).
Proof.
  intros s c Hs. rewrite Api_setConnected_eq. unfold final, trace. cbn [fst snd].
  split; [done|]. unfold armed. cbn [Api.updatePollingInterval Api.set_connected].
  destruct (negb _);
    [rewrite intervals_delta_cons, intervals_delta_notifications
    |change (intervals_delta []) with 0]; lia.
Qed.

Lemma keeps_startUpdatePolling : keeps_interval Api.startUpdatePolling.
Proof.
  intros s c Hs. rewrite startUpdatePolling_eq. unfold timer_consistent, armed in *.
  destruct (Api.isPolling s) eqn:E; unfold final, trace; cbn [fst snd].
  - rewrite E. split; [done|]. change (intervals_delta []) with 0. lia.
  - cbn [Api.isPolling Api.updatePollingInterval Api.set_polling].
    split; [done|]. change (intervals_delta [SetInterval 3000]) with 1.
    destruct (Api.updatePollingInterval s); [done|lia].
Qed.

Lemma keeps_stopUpdatePolling : keeps_interval Api.stopUpdatePolling.
Proof.
  intros s c Hs. rewrite stopUpdatePolling_eq. unfold timer_consistent, armed in *.
  unfold final, trace. cbn [fst snd Api.isPolling Api.updatePollingInterval
                             Api.set_polling].
  split; [done|].
  destruct (Api.updatePollingInterval s);
    [change (intervals_delta [ClearInterval]) with (-1)
    |change (intervals_delta []) with 0]; lia.
Qed.

Lemma keeps_handleDisconnection : keeps_interval Api.handleDisconnection.
Proof.
  intros s. unfold Api.handleDisconnection.
  apply keeps_bind; [apply keeps_setConnected|]. intros _ s1.
  apply keeps_bind; [apply keeps_stopUpdatePolling|]. intros _ s2.
  keeps_tac.
Qed.

Lemma keeps_testConnection net : keeps_interval (Api.testConnection net).
Proof.
  intros s. unfold Api.testConnection. apply keeps_try_catch.
  - keeps_tac.
  - intros e s1. apply keeps_emit_bind; [reflexivity|].
    apply keeps_bind; [apply keeps_handleDisconnection|]. intros _. apply keeps_ret.
Qed.

Lemma keeps_reconnect_callback net : keeps_interval (Api.reconnect_callback net).
Proof.
  intros s. unfold Api.reconnect_callback.
  apply keeps_get_bind. apply keeps_put_bind; [reflexivity|reflexivity|].
  apply keeps_get_bind. destruct (_ && _); [|apply keeps_ret].
  apply keeps_put_bind; [reflexivity|reflexivity|].
  apply keeps_bind; [apply keeps_testConnection|]. intros [] s1; [|apply keeps_ret].
  apply keeps_bind; [apply keeps_setConnected|]. intros _.
  apply keeps_startUpdatePolling.
Qed.

Lemma keeps_initialize tok chat : keeps_interval (Api.initialize tok chat).
Proof.
  intros s. unfold Api.initialize.
  apply keeps_get_bind. apply keeps_put_bind; [reflexivity|reflexivity|].
  apply keeps_get_bind. apply keeps_bind.
  - destruct (match Api.api _ with Some _ => _ | None => _ end).
    + apply keeps_bind; [apply keeps_setConnected|]. intros _ s1.
      apply keeps_bind; [apply keeps_startUpdatePolling|]. intros _ s2.
      by apply keeps_emit.
    + apply keeps_setConnected.
  - intros _ s1. keeps_tac.
Qed.

Lemma keeps_settle {A} (s : Api.TelegramAPI) (m : M Api.TelegramAPI A) :
  keeps_interval_at s m -> keeps_interval_at s (Api.settle m).
Proof.
  intros Hm c Hs. destruct (Hm c Hs) as [H1 H2]. unfold Api.settle.
  by destruct (m (s, c)) as [[r w1] t1].
Qed.

Lemma keeps_getUpdates net : keeps_interval (Api.getUpdates net).
Proof.
  intros s. unfold Api.getUpdates, Api.getUpdates_request,
    Api.getUpdates_settle.
  apply keeps_bind; [keeps_tac|]. intros [offset|] s1; [|apply keeps_ret].
  apply keeps_bind; [apply keeps_settle, keeps_send|]. intros [result|e|] s2.
  - keeps_tac.
  - apply keeps_emit_bind; [reflexivity|].
    apply keeps_bind; [apply keeps_handleDisconnection|]. intros _. apply keeps_ret.
  - apply keeps_throw.
Qed.

Lemma keeps_processUpdate net u : keeps_interval (Api.processUpdate net u).
Proof.
  intros s. unfold Api.processUpdate, Api.try_block, Api.report_error,
    Api.unauthorized_message, Api.unauthorized_callback, Api.chatId_toString,
    Api.handle_callback, Api.handle_message.
  keeps_tac.
Qed.

Lemma keeps_interval_callback net : keeps_interval (Api.interval_callback net).
Proof.
  intros s. unfold Api.interval_callback. apply keeps_get_bind.
  destruct (Api.connected s); [|apply keeps_ret].
  apply keeps_try_catch.
  - apply keeps_bind; [apply keeps_getUpdates|]. intros us.
    apply keeps_forEach. apply keeps_processUpdate.
  - intros e s1. by apply keeps_emit.
Qed.

Lemma keeps_addConnectionListener l : keeps_interval (Api.addConnectionListener l).
Proof. intros s. unfold Api.addConnectionListener. keeps_tac. Qed.

Lemma keeps_removeConnectionListener l :
  keeps_interval (Api.removeConnectionListener l).
Proof. intros s. unfold Api.removeConnectionListener. keeps_tac. Qed.

Lemma keeps_registerCommandHandler key h :
  keeps_interval (Api.registerCommandHandler key h).
Proof. intros s. unfold Api.registerCommandHandler. keeps_tac. Qed.

Lemma keeps_initialize_settled net tok chat :
  keeps_interval (Api.initialize_settled net tok chat).
Proof.
  intros s. unfold Api.initialize_settled.
  apply keeps_bind; [apply keeps_initialize|]. intros r s1.
  apply keeps_get_bind. apply keeps_bind; [|intros ? ?; apply keeps_ret].
  destruct (match Api.api s1 with Some _ => _ | None => _ end); [|apply keeps_ret].
  apply keeps_bind; [apply keeps_testConnection|]. intros ? ?. apply keeps_ret.
Qed.

(** X4.  Every method of the class keeps the flag [isPolling] and the
    interval handle in agreement and accounts for the intervals it creates
    and clears: from an object whose flag and handle agree, the intervals
    held before plus those created minus those cleared are the intervals
    held after, which is 0 or 1.  The object never holds two polling
    intervals, whatever the order of calls and whatever the service
    answers. *)
Theorem one_polling_interval net tok chat status body u l key h :
  keeps_interval (Api.initialize tok chat) /\
  keeps_interval (Api.initialize_settled net tok chat) /\
  keeps_interval (Api.testConnection net) /\
  keeps_interval Api.handleDisconnection /\
  keeps_interval (Api.reconnect_callback net) /\
  keeps_interval Api.startUpdatePolling /\
  keeps_interval Api.stopUpdatePolling /\
  keeps_interval (Api.setConnected status) /\
  keeps_interval (Api.getUpdates net) /\
  keeps_interval (Api.processUpdate net u) /\
  keeps_interval (Api.sendMessage net body) /\
  keeps_interval (Api.interval_callback net) /\
  keeps_interval (Api.addConnectionListener l) /\
  keeps_interval (Api.removeConnectionListener l) /\
  keeps_interval (Api.registerCommandHandler key h).
Proof.
  repeat apply conj.
  - apply keeps_initialize.
  - apply keeps_initialize_settled.
  - apply keeps_testConnection.
  - apply keeps_handleDisconnection.
  - apply keeps_reconnect_callback.
  - apply keeps_startUpdatePolling.
  - apply keeps_stopUpdatePolling.
  - apply keeps_setConnected.
  - apply keeps_getUpdates.
  - apply keeps_processUpdate.
  - apply keeps_sendMessage.
  - apply keeps_interval_callback.
  - apply keeps_addConnectionListener.
  - apply keeps_removeConnectionListener.
  - apply keeps_registerCommandHandler.
Qed.

(** Initialising twice in a row arms one interval, not two. *)
Lemma one_polling_interval_witness :
  intervals_delta
    (trace ((Api.initialize (Some "token") (Some "42");;
             Api.initialize (Some "token") (Some "42")) (Api.constructor, 0%nat)))
  = 1 /\
  armed (final (Api.initialize (Some "token") (Some "42") (Api.constructor, 0%nat)))
  = 1.
Proof.
  split; [by vm_compute|].
  destruct (proj1 (one_polling_interval quiet (Some "token") (Some "42")
                     true "ping" hello 0%nat "file" returns)
              Api.constructor 0%nat eq_refl) as [_ H].
  rewrite <- H. by vm_compute.
Defined.

(** ** The liveness check that names no bot *)

Lemma notifications_transport (t : list event) :
  Forall transport_event t -> notifications t = [].
Proof.
  induction 1 as [|e t He _ IH]; [done|].
  unfold notifications in *. cbn. rewrite IH. by destruct e.
Qed.

Lemma testConnection_names_no_bot net (s : Api.TelegramAPI) c :
  names_no_bot (result (Api.send GetMe (serve_getMe net) (s, c))) = true ->
  exists c' t,
    Api.testConnection net (s, c) = (Ret false, (s, c'), t) /\
    Forall transport_event t.
Proof.
  intros Hno. unfold Api.testConnection. rewrite try_catch_eq, bind_eq.
  pose proof (send_preserves GetMe (serve_getMe net) s c) as Hp.
  pose proof (send_transport_events GetMe (serve_getMe net) (s, c)) as Ht.
  destruct (Api.send _ _ _) as [[[[info|]|e0|] [s1 c1]] t1];
    unfold result, final, trace in Hno, Hp, Ht; cbn [fst snd names_no_bot] in *;
    [|subst s1; msimpl; rewrite app_nil_r; by eauto|done..].
  rewrite Hno. subst s1. msimpl. rewrite app_nil_r. by eauto.
Qed.

(** X5.  When the [getMe] of a reconnect attempt goes through but its
    answer names no bot, the attempt is counted and nothing else happens:
    the state stays as it was (Disconnected), no listener is called, no
    polling interval and no further reconnect timer is armed.  Automatic
    reconnection ends there without having reached its tenth attempt. *)
Theorem reconnect_stalls_without_bot_id net (s : Api.TelegramAPI) c :
  JS.truthy (Api.token s) = true ->
  JS.truthy (Api.chatId s) = true ->
  names_no_bot (result (Api.send GetMe (serve_getMe net) (reconnecting s, c)))
  = true ->
  result (Api.reconnect_callback net (s, c)) = Ret tt /\
  final (Api.reconnect_callback net (s, c)) = reconnecting s /\
  Api.connected (final (Api.reconnect_callback net (s, c))) = Api.connected s /\
  Api.reconnectAttempts (final (Api.reconnect_callback net (s, c)))
  = Api.reconnectAttempts s + 1 /\
  timeouts (trace (Api.reconnect_callback net (s, c))) = [] /\
  intervals_delta (trace (Api.reconnect_callback net (s, c))) = 0 /\
  notifications (trace (Api.reconnect_callback net (s, c))) = [].
Proof.
  intros Htok Hchat Hno.
  destruct (testConnection_names_no_bot net _ c Hno) as (c' & t & Htest & Ht).
  assert (Api.reconnect_callback net (s, c) = (Ret tt, (reconnecting s, c'), t)) as E.
  { unfold Api.reconnect_callback.
    rewrite bind_get_eq, bind_put_eq, bind_get_eq.
    cbn [Api.token Api.chatId Api.set_reconnectAttempts].
    rewrite Htok, Hchat. cbn [andb]. rewrite bind_put_eq, bind_eq.
    fold (reconnecting s). rewrite Htest. msimpl. by rewrite app_nil_r. }
  rewrite E. unfold result, final, trace. cbn [fst snd].
  repeat split.
  - apply timeouts_transport, Ht.
  - apply intervals_delta_transport, Ht.
  - apply notifications_transport, Ht.
Qed.

Lemma reconnect_stalls_without_bot_id_witness :
  final (Api.reconnect_callback anonymous (api_lost, 0%nat))
  = reconnecting api_lost /\
  Api.connected (reconnecting api_lost) = false /\
  timeouts (trace (Api.reconnect_callback anonymous (api_lost, 0%nat))) = [].
Proof.
  destruct (reconnect_stalls_without_bot_id anonymous api_lost 0%nat)
    as (_ & H1 & _ & _ & H2 & _); [reflexivity|reflexivity|by vm_compute|].
  split; [exact H1|]. split; [reflexivity|exact H2].
Defined.

(** ** The reconnect attempt that succeeds *)

Lemma testConnection_succeeds_trace net (s : Api.TelegramAPI) c info :
  result (Api.send GetMe (serve_getMe net) (s, c)) = Ret (Some info) ->
  bot_id info <> 0 ->
  exists c' t,
    Api.testConnection net (s, c)
    = (Ret true, (Api.set_reconnectAttempts 0 s, c'),
       t ++ [Log Success ("Connected to Telegram bot: " +:+ username info)]) /\
    Forall transport_event t.
Proof.
  intros Hok Hid. unfold Api.testConnection. rewrite try_catch_eq, bind_eq.
  pose proof (send_preserves GetMe (serve_getMe net) s c) as Hp.
  pose proof (send_transport_events GetMe (serve_getMe net) (s, c)) as Ht.
  destruct (Api.send _ _ _) as [[[a|e0|] [s1 c1]] t1];
    unfold result, final, trace in Hok, Hp, Ht; cbn [fst snd] in *; [|done..].
  injection Hok as ->. subst s1.
  apply Z.eqb_neq in Hid. rewrite Hid. msimpl. rewrite app_nil_r. by eauto.
Qed.

(** X6.  When the [getMe] of a reconnect attempt names a bot, service is
    restored in full: the state is Connected, every listener is told so
    once, in order, one polling interval is armed, no timer is left to
    arm, and the attempt counter is back at 0, so that a later connection
    loss waits 1 second again, whatever the number of attempts the
    recovery took. *)
Theorem reconnect_restores_service net (s : Api.TelegramAPI) c info :
  JS.truthy (Api.token s) = true ->
  JS.truthy (Api.chatId s) = true ->
  Api.connected s = false ->
  Api.isPolling s = false ->
  0 < Api.maxReconnectAttempts s ->
  result (Api.send GetMe (serve_getMe net) (reconnecting s, c)) = Ret (Some info) ->
  bot_id info <> 0 ->
  result (Api.reconnect_callback net (s, c)) = Ret tt /\
  final (Api.reconnect_callback net (s, c)) = reconnected s /\
  notifications (trace (Api.reconnect_callback net (s, c)))
  = map (fun l => (l, true)) (Api.connectionListeners s) /\
  intervals_delta (trace (Api.reconnect_callback net (s, c))) = 1 /\
  timeouts (trace (Api.reconnect_callback net (s, c))) = [] /\
  forall c',
    timeouts (trace (Api.handleDisconnection (reconnected s, c'))) = [1000].
Proof.
  intros Htok Hchat Hconn Hpoll Hmax Hok Hid.
  destruct (testConnection_succeeds_trace net _ c info Hok Hid)
    as (c' & t & Htest & Ht).
  assert (Api.reconnect_callback net (s, c)
          = (Ret tt, (reconnected s, c'),
             (t ++ [Log Success ("Connected to Telegram bot: " +:+ username info)])
             ++ (Log Info "Telegram connection status: Connected"
                 :: map (fun l => Notify l true) (Api.connectionListeners s))
             ++ [SetInterval 3000])) as E.
  { unfold Api.reconnect_callback.
    rewrite bind_get_eq, bind_put_eq, bind_get_eq.
    cbn [Api.token Api.chatId Api.set_reconnectAttempts].
    rewrite Htok, Hchat. cbn [andb]. rewrite bind_put_eq, bind_eq.
    fold (reconnecting s). rewrite Htest.
    cbn [prepend]. rewrite bind_eq, Api_setConnected_eq.
    change (Api.connected (Api.set_reconnectAttempts 0 (reconnecting s)))
      with (Api.connected s).
    change (Api.connectionListeners (Api.set_reconnectAttempts 0 (reconnecting s)))
      with (Api.connectionListeners s).
    rewrite Hconn. cbn [negb eqb prepend]. rewrite startUpdatePolling_eq.
    change (Api.isPolling (Api.set_connected true
              (Api.set_reconnectAttempts 0 (reconnecting s))))
      with (Api.isPolling s).
    rewrite Hpoll. cbn [prepend]. reflexivity. }
  rewrite E. unfold result, final, trace. cbn [fst snd].
  repeat apply conj.
  - reflexivity.
  - reflexivity.
  - rewrite !notifications_app, (notifications_transport _ Ht).
    change (notifications [Log Success _]) with (@nil (listener * bool)).
    change (notifications (Log Info ?x :: ?l)) with (notifications l).
    change (notifications [SetInterval 3000]) with (@nil (listener * bool)).
    rewrite notifications_map. cbn [app]. by rewrite app_nil_r.
  - rewrite !intervals_delta_app, (intervals_delta_transport _ Ht).
    change (intervals_delta (Log Info ?x :: ?l)) with (intervals_delta l).
    rewrite intervals_delta_notifications. reflexivity.
  - rewrite !timeouts_app, (timeouts_transport _ Ht).
    change (timeouts (Log Info ?x :: ?l)) with (timeouts l).
    rewrite timeouts_notifications. reflexivity.
  - intros c0. destruct (handleDisconnection_spec (reconnected s) c0) as (t0 & E0 & H0).
    rewrite E0. unfold trace. cbn [snd]. rewrite H0.
    change (Api.reconnectAttempts (reconnected s)) with 0.
    change (Api.maxReconnectAttempts (reconnected s))
      with (Api.maxReconnectAttempts s).
    apply Z.ltb_lt in Hmax. by rewrite Hmax.
Qed.

Lemma reconnect_restores_service_witness :
  final (Api.reconnect_callback quiet (api_lost, 0%nat)) = reconnected api_lost /\
  notifications (trace (Api.reconnect_callback quiet (api_lost, 0%nat)))
  = [(0%nat, true)].
Proof.
  destruct (reconnect_restores_service quiet api_lost 0%nat
              {| bot_id := 7; username := "bot" |})
    as (_ & H1 & H2 & _);
    [reflexivity|reflexivity|reflexivity|reflexivity|reflexivity
    |by vm_compute|done|].
  split; [exact H1|exact H2].
Defined.

(** ** Every handler call is justified *)

Lemma split_cons c s : exists h t, JS.split c s = h :: t.
Proof.
  destruct s as [|a r]; cbn [JS.split]; [by eauto|].
  destruct (Ascii.eqb a c); [by eauto|]. destruct (JS.split c r); by eauto.
Qed.

Lemma split_Forall c s :
  Forall (fun x => JS.includes c x = false) (JS.split c s).
Proof.
  induction s as [|a r IH]; cbn [JS.split]; [by repeat constructor|].
  destruct (Ascii.eqb a c) eqn:E; [by constructor|].
  destruct (JS.split c r) as [|h t]; [by repeat constructor; cbn; rewrite E|].
  inversion IH as [|? ? Hh Ht]; subst. constructor; [|done].
  cbn. by rewrite E.
Qed.

Lemma split_includes c s :
  JS.includes c s = true -> exists h p ps, JS.split c s = h :: p :: ps.
Proof.
  induction s as [|a r IH]; cbn [JS.split JS.includes]; [done|].
  destruct (Ascii.eqb a c); cbn [orb].
  - intros _. destruct (split_cons c r) as (h & t & ->). by eauto.
  - intros (h & p & ps & ->)%IH. by eauto.
Qed.

Lemma join_cons2 sep h p ps :
  JS.join sep (h :: p :: ps) = h +:+ sep +:+ JS.join sep (p :: ps).
Proof. reflexivity. Qed.

Lemma handle_callback_inv net cq (s : Api.TelegramAPI) c key a :
  Invoke key a ∈ trace (Api.handle_callback net cq (s, c)) ->
  is_Some (Api.commandHandlers s !! key) /\
  match a with
  | ArgsCallback cq' => cq' = cq /\ key = data cq
  | ArgsCallbackParam cq' p =>
      cq' = cq /\ data cq = key +:+ "_" +:+ p /\
      JS.includes "_" key = false /\
      Api.commandHandlers s !! data cq = None
  | _ => False
  end.
Proof.
  unfold Api.handle_callback. rewrite bind_emit_eq. cbv beta.
  rewrite trace_prepend, bind_eq.
  pose proof (send_preserves (AnswerCallbackQuery (cq_id cq))
    (fun t => serve_post net t (AnswerCallbackQuery (cq_id cq))) s c) as Hp.
  pose proof (send_transport_events (AnswerCallbackQuery (cq_id cq))
    (fun t => serve_post net t (AnswerCallbackQuery (cq_id cq))) (s, c)) as Ht.
  destruct (Api.send _ _ _) as [[[[]|e0|] [s1 c1]] t1]; cbn in Hp, Ht; subst.
  2,3: by intros [Hin|Hin]%elem_of_app;
    [apply list_elem_of_singleton in Hin|apply transport_not_invoke in Hin].
  rewrite trace_prepend, bind_get_eq.
  assert (forall t2, Forall transport_event t2 ->
    Invoke key a ∈ [Log Info ("Received callback query: " +:+ data cq)]
                   ++ t1 ++ t2 -> False) as Hno.
  { intros t2 H2 [Hin|[Hin|Hin]%elem_of_app]%elem_of_app.
    - by apply list_elem_of_singleton in Hin.
    - by apply transport_not_invoke in Hin.
    - by apply transport_not_invoke in Hin. }
  assert (forall k h0 a0 (w : Api.TelegramAPI * nat),
    Invoke key a ∈ [Log Info ("Received callback query: " +:+ data cq)]
                   ++ t1 ++ trace (Api.invoke k h0 a0 w) ->
    key = k /\ a = a0) as Hinv.
  { intros k h0 a0 w. rewrite invoke_eq.
    intros [Hin|[Hin|Hin]%elem_of_app]%elem_of_app.
    - by apply list_elem_of_singleton in Hin.
    - by apply transport_not_invoke in Hin.
    - apply list_elem_of_singleton in Hin. by injection Hin as ? ?. }
  destruct (Api.commandHandlers s !! data cq) as [h0|] eqn:E0.
  { intros [-> ->]%Hinv. by rewrite E0. }
  destruct (JS.includes "_" (data cq)) eqn:Ei.
  - destruct (split_includes _ _ Ei) as (command & p & ps & Es).
    pose proof (join_split "_" (data cq)) as Hj.
    pose proof (split_Forall "_" (data cq)) as Hf.
    rewrite Es in Hj, Hf |- *. rewrite join_cons2 in Hj.
    destruct (Api.commandHandlers s !! command) as [h0|] eqn:E1.
    + intros [-> ->]%Hinv. rewrite E1. split; [done|].
      split; [done|]. split; [done|]. split; [|done].
      by inversion Hf.
    + intros Hin. by apply Hno in Hin; [|repeat constructor].
  - intros Hin. exfalso. revert Hin. apply Hno.
    rewrite bind_emit_eq. cbv beta. rewrite trace_prepend.
    apply Forall_app. split; [by repeat constructor|]. rewrite bind_eq.
    pose proof (sendMessage_transport_events net
      ("Command not implemented: " +:+ data cq) (s, c1)) as Hm.
    destruct (Api.sendMessage _ _ _) as [[[b|e1|] w2] t2]; cbn in Hm; msimpl;
      unfold trace; cbn [snd]; by rewrite ?app_nil_r.
Qed.

Lemma handle_message_inv net m (s : Api.TelegramAPI) c key a :
  Invoke key a ∈ trace (Api.handle_message net m (s, c)) ->
  is_Some (Api.commandHandlers s !! key) /\
  match a with
  | ArgsCommand m' ps =>
      m' = m /\
      exists w, text m = Some ("/" +:+ JS.join " " (w :: ps)) /\
                key = JS.toLowerCase w /\
                Forall (fun x => JS.includes " " x = false) (w :: ps)
  | ArgsMessage m' =>
      m' = m /\ key = "message" /\
      exists txt, text m = Some txt /\ txt <> EmptyString /\
                  JS.startsWith "/" txt = false
  | _ => False
  end.
Proof.
  unfold Api.handle_message.
  destruct (text m) as [[|ch txt]|] eqn:Etxt;
    [by intros ?%elem_of_nil| |by intros ?%elem_of_nil].
  rewrite bind_emit_eq. cbv beta. rewrite trace_prepend, bind_get_eq.
  assert (forall k h0 a0 t0 (w : Api.TelegramAPI * nat),
    Forall transport_event t0 ->
    Invoke key a ∈ t0 ++ trace (Api.invoke k h0 a0 w) ->
    key = k /\ a = a0) as Hinv.
  { intros k h0 a0 t0 w H0. rewrite invoke_eq.
    intros [Hin|Hin]%elem_of_app.
    - by apply transport_not_invoke in Hin.
    - apply list_elem_of_singleton in Hin. by injection Hin as ? ?. }
  destruct (JS.startsWith "/" (String ch txt)) eqn:Eslash.
  - cbv zeta. cbn [JS.substring1].
    destruct (split_cons " " txt) as (w & ps & Es).
    pose proof (join_split " " txt) as Hj.
    pose proof (split_Forall " " txt) as Hf.
    rewrite Es in Hj, Hf |- *.
    change (default EmptyString (head (w :: ps))) with w.
    change (tail (w :: ps)) with ps.
    cbn [JS.startsWith] in Eslash. apply Ascii.eqb_eq in Eslash. subst ch.
    destruct (Api.commandHandlers s !! JS.toLowerCase w) as [h0|] eqn:E0.
    + rewrite bind_emit_eq. cbv beta. rewrite trace_prepend, app_assoc.
      intros [-> ->]%Hinv; [|by repeat constructor].
      rewrite E0. split; [done|]. split; [done|]. exists w.
      split; [|done]. by rewrite Hj.
    + intros Hin. exfalso. revert Hin. apply transport_not_invoke.
      apply Forall_app. split; [by repeat constructor|].
      rewrite bind_emit_eq. cbv beta. rewrite trace_prepend.
      apply Forall_app. split; [by repeat constructor|]. rewrite bind_eq.
      match goal with |- context [Api.sendMessage net ?b ?w] =>
        pose proof (sendMessage_transport_events net b w) as Hm;
        destruct (Api.sendMessage net b w) as [[[b'|e1|] w2] t2] end;
        cbn in Hm; msimpl; unfold trace; cbn [snd]; by rewrite ?app_nil_r.
  - destruct (Api.commandHandlers s !! "message") as [h0|] eqn:E0.
    + intros [-> ->]%Hinv; [|by repeat constructor].
      rewrite E0. split; [done|]. split; [done|]. split; [done|].
      by exists (String ch txt).
    + intros Hin. exfalso. revert Hin. apply transport_not_invoke.
      by repeat constructor.
Qed.


Lemma dispatch_inv net u (s : Api.TelegramAPI) c key a :
  Invoke key a ∈ trace
    ((match callback_query u with
      | Some cq => Api.handle_callback net cq
      | None => mret tt
      end;;
      match message u with
      | Some m => Api.handle_message net m
      | None => mret tt
      end) (s, c)) ->
  is_Some (Api.commandHandlers s !! key) /\ asked u s key a.
Proof.
  rewrite bind_eq.
  assert (forall c',
    Invoke key a ∈ trace
      (match message u with
       | Some m => Api.handle_message net m
       | None => mret tt
       end (s, c')) ->
    is_Some (Api.commandHandlers s !! key) /\ asked u s key a) as Hmsg.
  { intros c'. destruct (message u) as [m|] eqn:Em; [|by intros ?%elem_of_nil].
    intros [Hs Ha]%handle_message_inv. split; [done|].
    destruct a as [| |m' ps|m']; try done; destruct Ha as [-> Ha]; by split. }
  destruct (callback_query u) as [cq|] eqn:Eq.
  - pose proof (handle_callback_preserves net cq s c) as Hp.
    pose proof (handle_callback_inv net cq s c key a) as Hcb.
    assert (forall t, t = trace (Api.handle_callback net cq (s, c)) ->
      Invoke key a ∈ t ->
      is_Some (Api.commandHandlers s !! key) /\ asked u s key a) as Hcq.
    { intros t -> [Hs Ha]%Hcb. split; [done|].
      destruct a as [cq'|cq' p| |]; try done; destruct Ha as [-> Ha]; by split. }
    destruct (Api.handle_callback net cq (s, c)) as [[[[]|e0|] [s3 c3]] t3];
      cbn in Hp; subst; [|by apply Hcq..].
    rewrite trace_prepend. intros [Hin|Hin]%elem_of_app;
      [by apply (Hcq t3)|by apply (Hmsg c3)].
  - rewrite ret_eq. cbn [prepend app]. rewrite trace_prepend. cbn [app].
    apply Hmsg.
Qed.

Lemma try_block_inv net u (s : Api.TelegramAPI) c key a :
  Invoke key a ∈ trace (Api.try_block net u (s, c)) -> justified u s key a.
Proof.
  unfold Api.try_block. destruct (Api.chatId s) as [cid|] eqn:Ec.
  - rewrite bind_eq, (unauthorized_message_eq _ _ _ _ Ec).
    assert (forall c' t, Forall transport_event t ->
      (forall m, message u = Some m -> pretty (chat_id m) = cid) ->
      Invoke key a ∈ t ++ trace
        ((stop ← Api.unauthorized_callback u;
          if stop : bool then mret tt
          else
            match callback_query u with
            | Some cq => Api.handle_callback net cq
            | None => mret tt
            end;;
            match message u with
            | Some m => Api.handle_message net m
            | None => mret tt
            end) (s, c')) ->
      justified u s key a) as Hrest.
    { intros c' t Ht Hm [Hin|Hin]%elem_of_app;
        [by apply transport_not_invoke in Hin|]. revert Hin.
      rewrite bind_eq, (unauthorized_callback_eq _ _ _ _ Ec).
      destruct (callback_query u) as [cq|] eqn:Eq.
      - destruct (cq_message_chat_id cq) as [chat|] eqn:Echat;
          [|by intros ?%elem_of_nil].
        destruct (String.eqb (pretty chat) cid) eqn:Eid.
        + cbn [prepend app]. rewrite trace_prepend. cbn [app].
          intros Hin.
          destruct (dispatch_inv net u s c' key a) as [Hs Ha];
            [rewrite Eq; exact Hin|].
          split; [done|]. split; [|done].
          exists cid. split; [done|]. split; [done|].
          intros cq' Hq'. rewrite Eq in Hq'. injection Hq' as <-.
          exists chat. split; [done|]. by apply String.eqb_eq.
        + rewrite ret_eq. cbn [prepend app]. unfold trace. cbn [snd].
          intros Hin. exfalso. revert Hin. apply transport_not_invoke.
          by repeat constructor.
      - cbn [prepend app]. rewrite trace_prepend. cbn [app].
        intros Hin.
        destruct (dispatch_inv net u s c' key a) as [Hs Ha];
          [rewrite Eq; exact Hin|].
        split; [done|]. split; [|done].
        exists cid. split; [done|]. split; [done|].
        intros cq' Hq'. by rewrite Eq in Hq'. }
    destruct (message u) as [m|] eqn:Em.
    + destruct (String.eqb (pretty (chat_id m)) cid) eqn:Eid.
      * cbn [prepend]. apply Hrest; [by constructor|].
        intros m' Hm'. injection Hm' as <-. by apply String.eqb_eq.
      * rewrite ret_eq. cbn [prepend app]. unfold trace. cbn [snd].
        intros Hin. exfalso. revert Hin. apply transport_not_invoke.
        by repeat constructor.
    + cbn [prepend]. apply Hrest; [by constructor|done].
  - unfold Api.unauthorized_message, Api.unauthorized_callback,
      Api.chatId_toString.
    destruct (message u) as [m|], (callback_query u) as [cq|];
      try destruct (cq_message_chat_id cq); msimpl; rewrite ?Ec; msimpl;
      unfold trace; cbn [snd]; try (by intros ?%elem_of_nil).
Qed.

Lemma processUpdate_invocation_inv net u (s : Api.TelegramAPI) c key a :
  Invoke key a ∈ trace (Api.processUpdate net u (s, c)) -> justified u s key a.
Proof.
  unfold Api.processUpdate. rewrite try_catch_eq.
  pose proof (try_block_inv net u s c key a) as H.
  destruct (Api.try_block net u (s, c)) as [[[[]|e|] w1] t1]; [exact H| |exact H].
  rewrite trace_prepend. intros [Hin|Hin]%elem_of_app; [by apply H|].
  exfalso. revert Hin. apply transport_not_invoke, report_error_transport_events.
Qed.


(** X7.  For an update whose message text, if it has one, is ASCII, and
    whatever the state of the object and the answers of the service,
    [processUpdate] calls a handler only when all of this holds: a handler
    is registered under that key; the update comes from the configured
    chat; and the update asks for that call: the whole callback data is
    the key, or the data is the key, an underscore and the parameter, the
    key having no underscore and the whole data no handler, or the message
    text is a slash, a word whose lower case is the key, and the
    parameters separated by single spaces, or the text does not start
    with a slash and the key is [message]. *)
Theorem every_handler_call_is_justified net u (s : Api.TelegramAPI) c key a :
  ascii_text u = true ->
  Invoke key a ∈ trace (Api.processUpdate net u (s, c)) ->
  justified u s key a.
Proof. intros _. apply processUpdate_invocation_inv. Qed.

(** The command [/HELP me Now] and the handler registered under [help]. *)
Lemma every_handler_call_is_justified_witness :
  justified (says 9 "/HELP me Now") api_with_help "help"
    (ArgsCommand help_me_now ["me"; "Now"]).
Proof.
  apply (every_handler_call_is_justified quiet (says 9 "/HELP me Now")
           api_with_help 0%nat); [reflexivity|].
  vm_compute. apply list_elem_of_further, list_elem_of_further, list_elem_of_here.
Defined.

Lemma lower_idem a : JS.lower (JS.lower a) = JS.lower a.
Proof. by destruct a as [[] [] [] [] [] [] [] []]. Qed.

Lemma toLowerCase_idem s : JS.toLowerCase (JS.toLowerCase s) = JS.toLowerCase s.
Proof.
  induction s as [|a r IH]; [done|]. cbn [JS.toLowerCase].
  by rewrite lower_idem, IH.
Qed.

(** X8.  Registrations that the dispatcher cannot reach.  A handler
    registered under a key that is not in lower case is never called for a
    slash command, whatever the command's spelling; a handler whose key
    contains an underscore is never called with a callback parameter (it
    is reached by the exact data only); and no key but [message] receives
    a plain text message. *)
Theorem unreachable_registrations net u (s : Api.TelegramAPI) c key :
  (JS.toLowerCase key <> key ->
   forall m ps, Invoke key (ArgsCommand m ps)
                ∉ trace (Api.processUpdate net u (s, c))) /\
  (JS.includes "_" key = true ->
   forall cq p, Invoke key (ArgsCallbackParam cq p)
                ∉ trace (Api.processUpdate net u (s, c))) /\
  (key <> "message" ->
   forall m, Invoke key (ArgsMessage m)
             ∉ trace (Api.processUpdate net u (s, c))).
Proof.
  repeat apply conj.
  - intros Hk m ps (_ & _ & _ & w & _ & -> & _)%processUpdate_invocation_inv.
    by rewrite toLowerCase_idem in Hk.
  - intros Hk cq p (_ & _ & _ & _ & Hi & _)%processUpdate_invocation_inv.
    by rewrite Hk in Hi.
  - by intros Hk m (_ & _ & _ & -> & _)%processUpdate_invocation_inv.
Qed.

Lemma unreachable_registrations_witness :
  Invoke "Help" (ArgsCommand {| chat_id := 42; text := Some "/Help" |} [])
  ∉ trace (Api.processUpdate quiet (says 9 "/Help") (api_with_help, 0%nat)).
Proof.
  apply (proj1 (unreachable_registrations quiet (says 9 "/Help") api_with_help
                  0%nat "Help")).
  by vm_compute.
Defined.


(** ** Slash commands *)

Lemma split_none c w : JS.includes c w = false -> JS.split c w = [w].
Proof.
  induction w as [|a r IH]; [done|]. cbn [JS.includes JS.split].
  destruct (Ascii.eqb a c); [done|]. cbn [orb]. by intros ->%IH.
Qed.

Lemma split_app_sep c w rest :
  JS.includes c w = false ->
  JS.split c (w +:+ String c rest) = w :: JS.split c rest.
Proof.
  induction w as [|a r IH]; cbn [JS.includes].
  - intros _. change (EmptyString +:+ String c rest) with (String c rest).
    cbn [JS.split]. by rewrite Ascii.eqb_refl.
  - destruct (Ascii.eqb a c) eqn:E; [done|]. cbn [orb]. intros Hr.
    change (String a r +:+ String c rest) with (String a (r +:+ String c rest)).
    cbn [JS.split]. by rewrite E, (IH Hr).
Qed.

(** Splitting what was joined gives the words back when no word holds the
    separator. *)
Lemma split_join c w ps :
  Forall (fun x => JS.includes c x = false) (w :: ps) ->
  JS.split c (JS.join (String c EmptyString) (w :: ps)) = w :: ps.
Proof.
  revert w. induction ps as [|p ps IH]; intros w Hf.
  - inversion Hf; subst. by apply split_none.
  - inversion Hf as [|? ? Hw Hps]; subst. rewrite join_cons2.
    change (String c EmptyString +:+ ?x) with (String c x).
    rewrite (split_app_sep _ _ _ Hw). by rewrite (IH p Hps).
Qed.

Lemma processUpdate_authorized_message net u m (s : Api.TelegramAPI) c cid :
  callback_query u = None ->
  message u = Some m ->
  Api.chatId s = Some cid ->
  pretty (chat_id m) = cid ->
  Api.processUpdate net u (s, c) =
  match Api.handle_message net m (s, c) with
  | (Ret a, w1, t1) => (Ret a, w1, t1)
  | (Throw e, w1, t1) => prepend t1 (Api.report_error net e w1)
  | (ThrowNullish, w1, t1) => (Throw TypeError, w1, t1)
  end.
Proof.
  intros Hq Hm Hc Hid.
  unfold Api.processUpdate, Api.try_block. rewrite try_catch_eq, bind_eq.
  rewrite (unauthorized_message_eq _ _ _ _ Hc), Hm.
  apply String.eqb_eq in Hid. rewrite Hid, prepend_nil, bind_eq.
  rewrite (unauthorized_callback_eq _ _ _ _ Hc), Hq, prepend_nil.
  by rewrite bind_ret_eq.
Qed.

Lemma processUpdate_slash_command
    net (s : Api.TelegramAPI) c cid u m w ps :
  Api.chatId s = Some cid ->
  callback_query u = None ->
  message u = Some m ->
  pretty (chat_id m) = cid ->
  text m = Some ("/" +:+ JS.join " " (w :: ps)) ->
  Forall (fun x => JS.includes " " x = false) (w :: ps) ->
  match Api.commandHandlers s !! JS.toLowerCase w with
  | Some h =>
      invocations (trace (Api.processUpdate net u (s, c)))
      = [(JS.toLowerCase w, ArgsCommand m ps)]
  | None =>
      invocations (trace (Api.processUpdate net u (s, c))) = [] /\
      (Api.connected s = true -> is_Some (Api.api s) ->
       head (requests (trace (Api.processUpdate net u (s, c))))
       = Some (SendMessage (Api.chatId s)
                 ("Unknown command: /" +:+ JS.toLowerCase w +:+ JS.newline
                  +:+ "Type /help for available commands.")))
  end.
Proof.
  intros Hc Hq Hm Hid Ht Hf.
  rewrite (processUpdate_authorized_message _ _ _ _ _ _ Hq Hm Hc Hid).
  unfold Api.handle_message. rewrite Ht.
  change ("/" +:+ JS.join " " (w :: ps)) with (String "/" (JS.join " " (w :: ps))).
  cbv beta iota. rewrite bind_emit_eq. cbv beta. rewrite bind_get_eq.
  change (JS.startsWith "/" (String "/" (JS.join " " (w :: ps)))) with true.
  cbv zeta. cbn [JS.substring1]. rewrite (split_join _ _ _ Hf).
  change (default EmptyString (head (w :: ps))) with w.
  change (tail (w :: ps)) with ps.
  destruct (Api.commandHandlers s !! JS.toLowerCase w) as [h|].
  - rewrite bind_emit_eq. cbv beta. rewrite invoke_eq.
    destruct (h (ArgsCommand m ps)) as [[]|e|]; cbn [prepend app fst snd]; [done| |done].
    rewrite trace_prepend, invocations_app.
    by rewrite (invocations_transport _ (report_error_transport_events _ _ _)).
  - rewrite bind_emit_eq. cbv beta. rewrite bind_eq.
    match goal with |- context [Api.sendMessage net ?b ?w] =>
      pose proof (sendMessage_transport_events net b w) as Hm';
      pose proof (sendMessage_returns net b w) as [r Hr];
      pose proof (sendMessage_requests net b s c) as Hreq;
      destruct (Api.sendMessage net b w) as [[[b'|e1|] w2] t2] end;
      unfold result, trace in Hm', Hr, Hreq; cbn [fst snd] in Hm', Hr, Hreq;
      [|done..].
    cbn [prepend app]. rewrite ret_eq. cbn [prepend app fst snd].
    unfold trace. cbn [snd]. rewrite app_nil_r. split.
    + apply invocations_transport. by repeat constructor.
    + intros Hconn [tok Htok]. cbn [requests omap].
      by apply (Hreq tok).
Qed.

(** X9.  A slash command reaches its handler with its parameters intact.
    For the text made of a slash, an ASCII word [w] and parameters [ps]
    joined by single spaces (none of them holding a space), sent from the
    configured chat: when a handler is registered under the lower case of [w] it is
    called exactly once, with the message and the list [ps] as written
    (the parameters keep their case); when none is, no handler is called,
    and a connected object posts the reply that names the unknown
    command. *)
Theorem slash_command_round_trip
    net (s : Api.TelegramAPI) c cid u m w ps :
  Api.chatId s = Some cid ->
  callback_query u = None ->
  message u = Some m ->
  pretty (chat_id m) = cid ->
  text m = Some ("/" +:+ JS.join " " (w :: ps)) ->
  JS.isASCII w = true ->
  Forall (fun x => JS.includes " " x = false) (w :: ps) ->
  match Api.commandHandlers s !! JS.toLowerCase w with
  | Some h =>
      invocations (trace (Api.processUpdate net u (s, c)))
      = [(JS.toLowerCase w, ArgsCommand m ps)]
  | None =>
      invocations (trace (Api.processUpdate net u (s, c))) = [] /\
      (Api.connected s = true -> is_Some (Api.api s) ->
       head (requests (trace (Api.processUpdate net u (s, c))))
       = Some (SendMessage (Api.chatId s)
                 ("Unknown command: /" +:+ JS.toLowerCase w +:+ JS.newline
                  +:+ "Type /help for available commands.")))
  end.
Proof.
  intros Hc Hq Hm Hid Ht _. by apply (processUpdate_slash_command net s c cid).
Qed.

Lemma slash_command_round_trip_witness :
  JS.isASCII "HELP" = true /\
  invocations (trace (Api.processUpdate quiet (says 9 "/HELP me Now")
                        (api_with_help, 0%nat)))
  = [("help", ArgsCommand help_me_now ["me"; "Now"])].
Proof.
  split; [reflexivity|].
  apply (slash_command_round_trip quiet api_with_help 0%nat "42"
           (says 9 "/HELP me Now") help_me_now "HELP" ["me"; "Now"]);
    try reflexivity.
  by repeat constructor.
Defined.

(** X10.  A button press whose acknowledgement fails is dropped: although
    it comes from the configured chat and whatever handlers are
    registered, none is called; the failure is logged as an error of the
    update and [processUpdate] returns normally. *)
Theorem unacknowledged_press_is_dropped
    net (s : Api.TelegramAPI) c cid u cq chat e :
  callback_query u = Some cq ->
  message u = None ->
  Api.chatId s = Some cid ->
  cq_message_chat_id cq = Some chat ->
  pretty chat = cid ->
  result (Api.send (AnswerCallbackQuery (cq_id cq))
            (fun t => serve_post net t (AnswerCallbackQuery (cq_id cq))) (s, c))
  = Throw e ->
  invocations (trace (Api.processUpdate net u (s, c))) = [] /\
  Log Error ("Error processing update: " +:+ e)
    ∈ trace (Api.processUpdate net u (s, c)) /\
  result (Api.processUpdate net u (s, c)) = Ret tt /\
  final (Api.processUpdate net u (s, c)) = s.
Proof.
  intros Hq Hm Hc Hchat Hid Hack.
  pose proof (processUpdate_preserves net u s c) as Hfin.
  split; [|split; [|split; [|exact Hfin]]].
  - rewrite (processUpdate_authorized_callback _ _ _ _ _ _ _ Hq Hm Hc Hchat Hid).
    unfold Api.handle_callback. rewrite bind_emit_eq. cbv beta. rewrite bind_eq.
    pose proof (send_transport_events (AnswerCallbackQuery (cq_id cq))
      (fun t => serve_post net t (AnswerCallbackQuery (cq_id cq))) (s, c)) as Ht.
    destruct (Api.send _ _ _) as [[[[]|e0|] w1] t1];
      unfold result, trace in Hack, Ht; cbn [fst snd] in Hack, Ht; [done| |done].
    destruct w1 as [s1 c1]. cbn [prepend app fst snd].
    rewrite trace_prepend, !invocations_app.
    change (invocations (Log Info ?x :: ?l)) with (invocations l).
    rewrite (invocations_transport _ Ht).
    by rewrite (invocations_transport _ (report_error_transport_events _ _ _)).
  - rewrite (processUpdate_authorized_callback _ _ _ _ _ _ _ Hq Hm Hc Hchat Hid).
    unfold Api.handle_callback. rewrite bind_emit_eq. cbv beta. rewrite bind_eq.
    destruct (Api.send _ _ _) as [[[[]|e0|] w1] t1];
      unfold result in Hack; cbn [fst snd] in Hack; [done| |done].
    injection Hack as ->. destruct w1 as [s1 c1]. cbn [prepend app fst snd].
    rewrite trace_prepend, report_error_eq.
    rewrite trace_prepend. apply elem_of_app. right. apply list_elem_of_here.
  - rewrite (processUpdate_authorized_callback _ _ _ _ _ _ _ Hq Hm Hc Hchat Hid).
    unfold Api.handle_callback. rewrite bind_emit_eq. cbv beta. rewrite bind_eq.
    destruct (Api.send _ _ _) as [[[[]|e0|] w1] t1];
      unfold result in Hack; cbn [fst snd] in Hack; [done| |done].
    destruct w1 as [s1 c1]. cbn [prepend app fst snd].
    by rewrite report_error_eq.
Qed.


Lemma unacknowledged_press_is_dropped_witness :
  invocations (trace (Api.processUpdate unreachable file_42 (api_configured, 0%nat)))
  = [] /\
  Log Error "Error processing update: Network Error"
    ∈ trace (Api.processUpdate unreachable file_42 (api_configured, 0%nat)).
Proof.
  destruct (unacknowledged_press_is_dropped unreachable api_configured 0%nat
              "42" file_42 file_42_query 42 "Network Error")
    as (H1 & H2 & _); try reflexivity.
  by split.
Defined.


(** ** The earlier copy after a failed poll *)

Lemma Legacy_getUpdates_disconnected net (s : Legacy.TelegramAPI) c :
  Legacy.connected s = false ->
  Legacy.getUpdates net (s, c) = (Ret [], (s, c), []).
Proof. intros H. unfold Legacy.getUpdates. by rewrite bind_get_eq, H. Qed.

Lemma legacy_polls_disconnected net n (s : Legacy.TelegramAPI) c :
  Legacy.connected s = false ->
  legacy_polls net n (s, c) = (Ret tt, (s, c), []).
Proof.
  intros H. revert c. induction n as [|n IH]; intros c; [done|].
  cbn [legacy_polls].
  rewrite bind_eq, (Legacy_getUpdates_disconnected _ _ _ H).
  cbn [prepend fst snd app]. by rewrite IH.
Qed.

(** X11.  In the earlier copy a single rejected poll ends the session: the
    request is made once (no retry), the listeners are told Disconnected,
    the cursor stays where it was, no timer is armed to reconnect, and from
    then on any number of polls returns an empty batch without making a
    request. *)
Theorem Legacy_failed_poll_is_final net (s : Legacy.TelegramAPI) c tok err :
  Legacy.connected s = true ->
  Legacy.api s = Some tok ->
  serve_getUpdates net c (Legacy.lastUpdateId s + 1) = Rejected err ->
  result (Legacy.getUpdates net (s, c)) = Ret [] /\
  final (Legacy.getUpdates net (s, c)) = Legacy.set_connected false s /\
  requests (trace (Legacy.getUpdates net (s, c)))
  = [GetUpdates (Legacy.lastUpdateId s + 1)] /\
  notifications (trace (Legacy.getUpdates net (s, c)))
  = map (fun l => (l, false)) (Legacy.connectionListeners s) /\
  timeouts (trace (Legacy.getUpdates net (s, c))) = [] /\
  forall n c',
    legacy_polls net n (final (Legacy.getUpdates net (s, c)), c')
    = (Ret tt, (Legacy.set_connected false s, c'), []).
Proof.
  intros Hconn Hapi Hrej.
  assert (Legacy.getUpdates net (s, c)
          = (Ret [], (Legacy.set_connected false s, Datatypes.S c),
             [Http (GetUpdates (Legacy.lastUpdateId s + 1));
              Log Error ("Telegram API error: " +:+ Api.errorMessage err);
              Log Error ("Failed to get updates: " +:+ err_message err)]
             ++ map (fun l => Notify l false) (Legacy.connectionListeners s))) as E.
  { unfold Legacy.getUpdates. rewrite bind_get_eq, Hconn. cbn [negb].
    rewrite try_catch_eq, bind_eq, Legacy_send_eq, Hapi, Hrej.
    rewrite bind_emit_eq. cbv beta. rewrite bind_eq, Legacy_setConnected_eq.
    cbn [prepend fst snd app]. rewrite ret_eq. unfold prepend.
    cbn [fst snd app]. by rewrite app_nil_r. }
  rewrite E. unfold result, final, trace. cbn [fst snd].
  repeat apply conj; try reflexivity.
  - rewrite requests_app. change (requests [_; _; _]) with
      [GetUpdates (Legacy.lastUpdateId s + 1)].
    by rewrite requests_notifications.
  - rewrite notifications_app. change (notifications [_; _; _]) with
      (@nil (listener * bool)). apply notifications_map.
  - rewrite timeouts_app. change (timeouts [_; _; _]) with (@nil Z).
    apply timeouts_notifications.
  - intros n c'. by apply legacy_polls_disconnected.
Qed.

Lemma Legacy_failed_poll_is_final_witness :
  notifications (trace (Legacy.getUpdates unreachable (legacy_connected, 0%nat)))
  = [(0%nat, false)] /\
  legacy_polls unreachable 5
    (final (Legacy.getUpdates unreachable (legacy_connected, 0%nat)), 1%nat)
  = (Ret tt, (Legacy.set_connected false legacy_connected, 1%nat), []).
Proof.
  destruct (Legacy_failed_poll_is_final unreachable legacy_connected 0%nat "token"
              {| status := None; description := None;
                 err_message := "Network Error" |})
    as (_ & _ & _ & H1 & _ & H2); try reflexivity.
  split; [exact H1|exact (H2 5%nat 1%nat)].
Defined.


(** ** The logger *)

Lemma Logger_log_logs message lv now (s : Logger.Logger) :
  Logger.logs (Logger.log message lv now s).1.1
  = take Logger.MAX_LOGS (entry_of (message, lv, now) :: Logger.logs s).
Proof.
  unfold Logger.log, entry_of. cbv zeta. cbn [fst snd Logger.logs].
  destruct (_ <? _)%nat eqn:E; [done|]. apply Nat.ltb_ge in E.
  by rewrite take_ge.
Qed.

Lemma Logger_log_subscribers message lv now (s : Logger.Logger) :
  Logger.subscribers (Logger.log message lv now s).1.1 = Logger.subscribers s.
Proof. reflexivity. Qed.

Lemma take_app_take {A} n (l1 l2 : list A) :
  take n (l1 ++ take n l2) = take n (l1 ++ l2).
Proof.
  rewrite !take_app, take_take. do 2 f_equal. lia.
Qed.

Lemma log_all_cons message lv now calls (s : Logger.Logger) :
  log_all ((message, lv, now) :: calls) s
  = log_all calls (Logger.log message lv now s).1.1.
Proof. reflexivity. Qed.

(** X12.  The logger keeps the newest 200 entries, newest first: after any
    sequence of calls of [log] the history is the first 200 of the new
    entries in reverse order of the calls followed by the old history.  It
    never holds more than 200 entries, and logging never changes the list
    of subscribers. *)
Theorem Logger_keeps_newest (calls : list log_call) (s : Logger.Logger) :
  (length (Logger.logs s) <= Logger.MAX_LOGS)%nat ->
  Logger.logs (log_all calls s)
  = take Logger.MAX_LOGS (rev (map entry_of calls) ++ Logger.logs s) /\
  (length (Logger.logs (log_all calls s)) <= Logger.MAX_LOGS)%nat /\
  Logger.subscribers (log_all calls s) = Logger.subscribers s.
Proof.
  revert s. induction calls as [|[[message lv] now] calls IH]; intros s Hs.
  - cbn [log_all foldl map rev app]. by rewrite take_ge.
  - rewrite log_all_cons.
    destruct (IH (Logger.log message lv now s).1.1) as (H1 & H2 & H3).
    { rewrite Logger_log_logs, length_take. lia. }
    split; [|split; [done|]].
    + rewrite H1, Logger_log_logs, take_app_take.
      cbn [map rev]. by rewrite <- app_assoc.
    + by rewrite H3.
Qed.

Lemma Logger_keeps_newest_witness :
  Logger.logs
    (log_all [("started", "info", at_time 1 "10:00");
              ("failed", "error", at_time 2 "10:01")] Logger.constructor)
  = take Logger.MAX_LOGS
      [entry_of ("failed", "error", at_time 2 "10:01");
       entry_of ("started", "info", at_time 1 "10:00")].
Proof.
  apply (Logger_keeps_newest
           [("started", "info", at_time 1 "10:00");
            ("failed", "error", at_time 2 "10:01")] Logger.constructor).
  cbn. lia.
Defined.

Lemma Logger_log_table_entry call : table_entry (entry_of call).
Proof.
  destruct call as [[message lv] now]. unfold table_entry, entry_of, Logger.log.
  cbn [fst snd Logger.level Logger.entry_color].
  destruct (Logger.LOG_LEVELS !! Logger.toUpperCase lv) as [v|] eqn:E;
    cbn [default].
  - unfold Logger.LOG_LEVELS in E.
    repeat (apply lookup_insert_Some in E as [[_ <-]|[_ E]];
            [cbn [Logger.label Logger.color]; set_solver|]).
    by rewrite lookup_empty in E.
  - cbn [Logger.label Logger.color Logger.INFO]. set_solver.
Qed.

(** X13.  Every entry of the history carries one of the five labels of
    the table, with the colour the table gives that label, whatever level
    strings the callers pass: an invariant of [log]. *)
Theorem Logger_entries_are_table_entries
    (calls : list log_call) (s : Logger.Logger) :
  Forall table_entry (Logger.logs s) ->
  Forall table_entry (Logger.logs (log_all calls s)).
Proof.
  revert s. induction calls as [|[[message lv] now] calls IH]; intros s Hs;
    [done|].
  rewrite log_all_cons. apply IH.
  rewrite Logger_log_logs. apply Forall_take. constructor; [|done].
  apply Logger_log_table_entry.
Qed.

Lemma Logger_entries_are_table_entries_witness :
  Forall table_entry
    (Logger.logs (log_all [("started", "verbose", at_time 1 "10:00")]
                    Logger.constructor)).
Proof.
  apply (Logger_entries_are_table_entries
           [("started", "verbose", at_time 1 "10:00")] Logger.constructor).
  constructor.
Defined.

(** ** The status bar *)

(** X14.  What the status bar shows for the last update: ["Just now"]
    below one minute (also when the update lies in the future), the whole
    minutes elapsed, between 1 and 59, below one hour, and the time of day
    from one hour on. *)
Theorem formatLastUpdate_ranges (t now : Z) (localeTime : string) :
  (now - t < 60000 ->
   StatusBar.formatLastUpdate (Some t) now localeTime = "Just now") /\
  (60000 <= now - t < 3600000 ->
   exists n, 1 <= n <= 59 /\
             n * 60000 <= now - t < (n + 1) * 60000 /\
             StatusBar.formatLastUpdate (Some t) now localeTime
             = pretty n +:+ "m ago") /\
  (3600000 <= now - t ->
   StatusBar.formatLastUpdate (Some t) now localeTime = localeTime).
Proof.
  unfold StatusBar.formatLastUpdate. cbv zeta. repeat apply conj.
  - intros H. apply Z.ltb_lt in H. by rewrite H.
  - intros [H1 H2]. exists ((now - t) / 60000).
    assert ((now - t <? 60000) = false) as -> by (apply Z.ltb_ge; lia).
    apply Z.ltb_lt in H2 as H2'. rewrite H2'.
    pose proof (Z.div_mod (now - t) 60000 ltac:(lia)).
    pose proof (Z.mod_pos_bound (now - t) 60000 ltac:(lia)).
    repeat split; try lia.
  - intros H.
    assert ((now - t <? 60000) = false) as -> by (apply Z.ltb_ge; lia).
    assert ((now - t <? 3600000) = false) as -> by (apply Z.ltb_ge; lia).
    done.
Qed.

Lemma formatLastUpdate_ranges_witness :
  StatusBar.formatLastUpdate (Some 0) 125000 "10:00:00" = "2m ago".
Proof.
  destruct (proj1 (proj2 (formatLastUpdate_ranges 0 125000 "10:00:00")))
    as (n & Hn & Hb & ->); [lia|].
  assert (n = 2) as -> by lia. reflexivity.
Defined.


(** ** The registry of the application *)

Lemma registerCommandHandler_eq key h (s : Api.TelegramAPI) c :
  Api.registerCommandHandler key h (s, c)
  = (Ret tt,
     (Api.set_commandHandlers (<[key := h]> (Api.commandHandlers s)) s, c),
     [Log Debug ("Registered command handler: " +:+ key)]).
Proof. unfold Api.registerCommandHandler. by msimpl. Qed.

Lemma registerHandlers_registry h1 h2 h3 h4 h5 h6 h7 h8 (s : Api.TelegramAPI) c :
  Api.commandHandlers
    (final (AppHandlers.registerHandlers h1 h2 h3 h4 h5 h6 h7 h8 (s, c)))
  = <["back" := h8]> (<["file" := h7]> (<["screenshot" := h6]>
      (<["device_info" := h5]> (<["storage" := h4]> (<["contacts" := h3]>
        (<["sms_logs" := h2]> (<["call_logs" := h1]>
          (Api.commandHandlers s)))))))).
Proof.
  unfold AppHandlers.registerHandlers.
  repeat (rewrite bind_eq, registerCommandHandler_eq; cbn [prepend fst snd]).
  by rewrite registerCommandHandler_eq.
Qed.

Lemma app_registry_no_message net u (s : Api.TelegramAPI) c key m :
  app_registry s ->
  Invoke key (ArgsMessage m) ∉ trace (Api.processUpdate net u (s, c)).
Proof.
  intros Hreg (Hs & _ & _ & -> & _)%processUpdate_invocation_inv.
  apply Hreg in Hs. unfold app_keys in Hs.
  repeat (apply elem_of_cons in Hs as [Hs|Hs]; [discriminate Hs|]).
  by apply elem_of_nil in Hs.
Qed.

Lemma registerHandlers_app_registry h1 h2 h3 h4 h5 h6 h7 h8
    (s0 : Api.TelegramAPI) c0 :
  Api.commandHandlers s0 = ∅ ->
  app_registry
    (final (AppHandlers.registerHandlers h1 h2 h3 h4 h5 h6 h7 h8 (s0, c0))).
Proof.
  intros Hempty key. rewrite registerHandlers_registry, Hempty.
  unfold app_keys. rewrite !lookup_insert_is_Some, lookup_empty.
  rewrite !elem_of_cons, elem_of_nil. split.
  - intros H. repeat (destruct H as [->|[_ H]]; [by auto 10|]).
    by destruct H.
  - intros H.
    repeat (destruct H as [->|H];
            [repeat first [by left | right; split; [done|]]|]).
    done.
Qed.

(** X15.  The application registers handlers under eight keys and no
    other, and with that registry: no plain text message ever reaches a
    handler; and the command [/help], in any letter case and with any
    parameters, reaches no handler: a connected object answers it with the
    reply for unknown commands, the one that tells the user to type
    [/help].  (The registry is the own properties of [commandHandlers];
    the names every object inherits, [constructor], [toString] and the
    like, are not registrations, and neither [help] nor [message] is one
    of them.) *)
Theorem application_registers_no_help
    h1 h2 h3 h4 h5 h6 h7 h8 (s0 : Api.TelegramAPI) c0 :
  Api.commandHandlers s0 = ∅ ->
  app_registry
    (final (AppHandlers.registerHandlers h1 h2 h3 h4 h5 h6 h7 h8 (s0, c0))) /\
  forall (s : Api.TelegramAPI),
    app_registry s ->
    (forall net u c key m,
       Invoke key (ArgsMessage m) ∉ trace (Api.processUpdate net u (s, c))) /\
    (forall net c cid u m w ps,
       Api.chatId s = Some cid ->
       callback_query u = None ->
       message u = Some m ->
       pretty (chat_id m) = cid ->
       text m = Some ("/" +:+ JS.join " " (w :: ps)) ->
       Forall (fun x => JS.includes " " x = false) (w :: ps) ->
       JS.toLowerCase w = "help" ->
       invocations (trace (Api.processUpdate net u (s, c))) = [] /\
       (Api.connected s = true -> is_Some (Api.api s) ->
        head (requests (trace (Api.processUpdate net u (s, c))))
        = Some (SendMessage (Api.chatId s)
                  ("Unknown command: /help" +:+ JS.newline
                   +:+ "Type /help for available commands.")))).
Proof.
  intros Hempty. split; [by apply registerHandlers_app_registry|].
  intros s Hreg. split.
  - intros net u c key m. by apply app_registry_no_message.
  - intros net c cid u m w ps Hc Hq Hm Hid Ht Hf Hw.
    pose proof (processUpdate_slash_command net s c cid u m w ps
                  Hc Hq Hm Hid Ht Hf) as H.
    rewrite Hw in H.
    destruct (Api.commandHandlers s !! "help") as [h|] eqn:E; [|exact H].
    assert (is_Some (Api.commandHandlers s !! "help")) as Hs by by eexists.
    apply Hreg in Hs. unfold app_keys in Hs.
    repeat (apply elem_of_cons in Hs as [Hs|Hs]; [discriminate Hs|]).
    by apply elem_of_nil in Hs.
Qed.

Lemma application_registers_no_help_witness :
  app_registry api_of_app /\
  invocations (trace (Api.processUpdate quiet (says 9 "/Help me") (api_of_app, 0%nat)))
  = [].
Proof.
  destruct (application_registers_no_help returns returns returns returns
              returns returns returns returns Api.constructor 0%nat eq_refl)
    as [Hreg Hall].
  assert (app_registry api_of_app) as Hreg' by exact Hreg.
  split; [exact Hreg'|].
  destruct (Hall api_of_app Hreg') as [_ Hhelp].
  apply (Hhelp quiet 0%nat "42" (says 9 "/Help me")
           {| chat_id := 42; text := Some "/Help me" |} "Help" ["me"]);
    try reflexivity.
  by repeat constructor.
Defined.

Lemma application_registry_of_app : app_registry api_of_app.
Proof.
  exact (registerHandlers_app_registry returns returns returns returns
           returns returns returns returns Api.constructor 0%nat eq_refl).
Qed.

(** X16.  Every button the code sends reaches a handler of the
    application.  For a press from the configured chat whose
    acknowledgement went through, on an object holding the application's
    registry: a button of the menu of [sendDeviceInfo], or the Back or
    Refresh button of the file list, calls the handler registered under
    its data, with the query alone; a file button calls the handler [file]
    with the path of the file, whole, underscores included.  No other
    handler is called. *)
Theorem every_button_reaches_its_handler
    net (s : Api.TelegramAPI) c cid u cq chat paths :
  app_registry s ->
  callback_query u = Some cq ->
  message u = None ->
  Api.chatId s = Some cid ->
  cq_message_chat_id cq = Some chat ->
  pretty chat = cid ->
  result (Api.send (AnswerCallbackQuery (cq_id cq))
            (fun t => serve_post net t (AnswerCallbackQuery (cq_id cq))) (s, c))
  = Ret tt ->
  data cq ∈ Keyboards.sendDeviceInfo ++ Keyboards.handleStorage paths ->
  (data cq ∈ app_keys /\
   invocations (trace (Api.processUpdate net u (s, c)))
   = [(data cq, ArgsCallback cq)]) \/
  (exists path, path ∈ take 10 paths /\ data cq = "file_" +:+ path /\
     invocations (trace (Api.processUpdate net u (s, c)))
     = [("file", ArgsCallbackParam cq path)]).
Proof.
  intros Hreg Hq Hm Hc Hchat Hid Hack Hin.
  assert (invocations (trace (Api.processUpdate net u (s, c)))
          = route (Api.commandHandlers s) cq) as ->.
  { rewrite (processUpdate_authorized_callback _ _ _ _ _ _ _ Hq Hm Hc Hchat Hid).
    rewrite <- (handle_callback_route net cq s c Hack).
    destruct (Api.handle_callback net cq (s, c)) as [[[[]|e|] w1] t1];
      [done| |done].
    rewrite trace_prepend, invocations_app.
    rewrite (invocations_transport _ (report_error_transport_events _ _ _)).
    by rewrite app_nil_r. }
  assert (data cq ∈ app_keys ->
          route (Api.commandHandlers s) cq = [(data cq, ArgsCallback cq)]) as Hexact.
  { intros [h Hh]%Hreg. unfold route. by rewrite Hh. }
  unfold Keyboards.sendDeviceInfo, Keyboards.handleStorage in Hin.
  apply elem_of_app in Hin as [Hin|[Hin|Hin]%elem_of_app].
  - left. assert (data cq ∈ app_keys) as Hk.
    { unfold app_keys. revert Hin. rewrite !elem_of_cons, !elem_of_nil. tauto. }
    by split; [|apply Hexact].
  - right. apply list_elem_of_fmap in Hin as (path & Hd & Hp).
    exists path. split; [done|]. split; [done|].
    unfold route. rewrite Hd.
    destruct (Api.commandHandlers s !! ("file_" +:+ path)) as [h|] eqn:E.
    { assert (is_Some (Api.commandHandlers s !! ("file_" +:+ path))) as Hs
        by by eexists.
      apply Hreg in Hs. unfold app_keys in Hs.
      repeat (apply elem_of_cons in Hs as [Hs|Hs]; [discriminate Hs|]).
      by apply elem_of_nil in Hs. }
    change (split_first "_" ("file_" +:+ path)) with (Some ("file", path)).
    assert (is_Some (Api.commandHandlers s !! "file")) as [h Hh].
    { apply Hreg. unfold app_keys. rewrite !elem_of_cons. tauto. }
    by rewrite Hh.
  - left. assert (data cq ∈ app_keys) as Hk.
    { unfold app_keys. revert Hin. rewrite !elem_of_cons, !elem_of_nil. tauto. }
    by split; [|apply Hexact].
Qed.

Lemma every_button_reaches_its_handler_witness :
  invocations (trace (Api.processUpdate quiet
                        (press 9 "q9" "file_/sdcard/my_notes.txt")
                        (api_of_app, 0%nat)))
  = [("file",
      ArgsCallbackParam
        {| cq_id := "q9"; data := "file_/sdcard/my_notes.txt";
           cq_message_chat_id := Some 42 |}
        "/sdcard/my_notes.txt")].
Proof.
  pose proof application_registry_of_app as Hreg.
  destruct (every_button_reaches_its_handler quiet api_of_app 0%nat "42"
              (press 9 "q9" "file_/sdcard/my_notes.txt")
              {| cq_id := "q9"; data := "file_/sdcard/my_notes.txt";
                 cq_message_chat_id := Some 42 |}
              42 ["/sdcard/my_notes.txt"] Hreg)
    as [[Hk _]|(path & _ & Hd & Hi)];
    [reflexivity|reflexivity|reflexivity|reflexivity|reflexivity|by vm_compute
    | | |].
  - cbn. apply list_elem_of_further, list_elem_of_further, list_elem_of_further,
      list_elem_of_further, list_elem_of_further, list_elem_of_further,
      list_elem_of_here.
  - exfalso. unfold app_keys in Hk. cbn [data] in Hk.
    repeat (apply elem_of_cons in Hk as [Hk|Hk]; [discriminate Hk|]).
    by apply elem_of_nil in Hk.
  - injection Hd as Hp. change (EmptyString +:+ path) with path in Hp. subst path. exact Hi.
Defined.


(** ** The earlier application's dispatch *)


